(** * SpessaSynth worklet system: voice builder and voice manager

    A shallow embedding of
    - [worklet_voice.js]      ([dumpSample], [getWorkletVoices]),
    - [worklet_processor.js]  ([WorkletProcessor]: [handleMessage],
      [voiceKilling], [releaseVoice], [process], [renderVoice]),
    - [channel_processor.js]  ([ChannelProcessor]: [handleMessage]),
    followed by the properties of the synthesis core that were checked
    against them.

    Conventions of the embedding.
    - A JS number that may be fractional (times, cursors, loop points, audio
      frames) is an exact rational [Q]; the value [Infinity] of
      [releaseStartTime] is [None].  Integer-valued numbers (MIDI notes,
      velocities, voice counts) are [Z] or [nat].
    - An [Int16Array] is a [list Z] whose writes wrap to 16 bits and whose
      out-of-range writes are dropped.
    - JS objects that are mutated while shared (the voices held by
      [voices] and [sustainedVoices]) live in a store indexed by
      references; a list of voices is a list of references.
    - A [TypeError] (reading a property of [undefined]) is [None]. *)

From Stdlib Require Import ZArith QArith Qround Lia Lqa List.
From stdpp Require Import base option functions list sorting gmap strings.

Local Open Scope Z_scope.

(** ** JS numbers *)

Module JS.

Definition ltb (x y : Q) : bool := negb (Qle_bool y x).
Definition leb (x y : Q) : bool := Qle_bool x y.
Definition gtb (x y : Q) : bool := ltb y x.
Definition geb (x y : Q) : bool := leb y x.

(** Truncation toward zero, the integer part used by [%] and [~~]. *)
Definition trunc (q : Q) : Z := Z.quot (Qnum q) (Z.pos (Qden q)).

(** [x % y]: the remainder has the sign of the dividend.  (The NaN of a
    zero divisor has no counterpart in [Q]; [getWorkletVoices] gives a
    looping voice a loop of at least one frame.) *)
Definition rem (x y : Q) : Q := (x - inject_Z (trunc (x / y)) * y)%Q.

Definition toInt16 (z : Z) : Z := (z + 32768) mod 65536 - 32768.
Definition toInt32 (z : Z) : Z := (z + 2147483648) mod 4294967296 - 2147483648.

(** [~~x] *)
Definition double_tilde (x : Q) : Z := toInt32 (trunc x).

(** [x & y] on 32-bit integers *)
Definition band (x y : Z) : Z := toInt32 (Z.land (toInt32 x) (toInt32 y)).

(** Typed-array read and write. *)
Definition get (a : list Z) (i : nat) : Z := default 0 (a !! i).
Definition set16 (a : list Z) (i : nat) (x : Z) : list Z := <[i := toInt16 x]> a.

End JS.

(** ** Enumerations of the SoundFont layer *)

(** Modelled from the spec: the [generatorTypes] enumeration of
    [soundfont/chunk/generators.js] is not among the sources; the indices
    are those of the 60-slot SoundFont generator vector. *)
Module generatorTypes.
Definition startAddrsOffset : nat := 0.
Definition endAddrOffset : nat := 1.
Definition startloopAddrsOffset : nat := 2.
Definition endloopAddrsOffset : nat := 3.
Definition startAddrsCoarseOffset : nat := 4.
Definition modLfoToPitch : nat := 5.
Definition vibLfoToPitch : nat := 6.
Definition modEnvToPitch : nat := 7.
Definition initialFilterFc : nat := 8.
Definition initialFilterQ : nat := 9.
Definition modLfoToFilterFc : nat := 10.
Definition modEnvToFilterFc : nat := 11.
Definition endAddrsCoarseOffset : nat := 12.
Definition modLfoToVolume : nat := 13.
Definition chorusEffectsSend : nat := 15.
Definition reverbEffectsSend : nat := 16.
Definition pan : nat := 17.
Definition delayModLFO : nat := 21.
Definition freqModLFO : nat := 22.
Definition delayVibLFO : nat := 23.
Definition freqVibLFO : nat := 24.
Definition releaseVolEnv : nat := 38.
Definition startloopAddrsCoarseOffset : nat := 45.
Definition keyNum : nat := 46.
Definition velocity : nat := 47.
Definition initialAttenuation : nat := 48.
Definition endloopAddrsCoarseOffset : nat := 50.
Definition coarseTune : nat := 51.
Definition fineTune : nat := 52.
Definition sampleModes : nat := 54.
Definition scaleTuning : nat := 56.
Definition exclusiveClass : nat := 57.
Definition overridingRootKey : nat := 58.
End generatorTypes.

(** Modelled from the spec: [midiControllers], [modulatorSources] and
    [NON_CC_INDEX_OFFSET] are imported from files that are not among the
    sources; the controller table has 147 slots, the non-CC tail starts
    after the 128 MIDI controllers. *)
Module midiControllers.
Definition sustainPedal : nat := 64.
End midiControllers.

Module modulatorSources.
Definition channelTuning : nat := 17.
Definition channelTranspose : nat := 18.
End modulatorSources.

Definition NON_CC_INDEX_OFFSET : nat := 128.
Definition CONTROLLER_TABLE_SIZE : nat := 147.
Definition MIN_NOTE_LENGTH : Q := 7 # 100.

(** ** Data model ([worklet_voice.js], typedefs) *)

Record Modulator := {
  source : Z;
  amountSource : Z;
  destinationGenerator : Z;
  amount : Z;
  transform : Z
}.

Record WorkletSample := {
  sampleID : nat;
  playbackStep : Q;
  cursor : Q;
  rootKey : Z;
  loopStart : Q;
  loopEnd : Q;
  end_ : Q;
  loopingMode : Z
}.

Record WorkletLowpassFilter := {
  a0 : Q; a1 : Q; a2 : Q; a3 : Q; a4 : Q;
  x1 : Q; x2 : Q; y1 : Q; y2 : Q;
  reasonanceCb : Q;
  reasonanceGain : Q;
  cutoffCents : Q;
  cutoffHz : Q
}.

Record WorkletVoice := {
  sample : WorkletSample;
  filter : WorkletLowpassFilter;
  generators : list Z;
  modulators : list Modulator;
  modulatedGenerators : list Z;
  finished : bool;
  isInRelease : bool;
  channelNumber : nat;
  velocity : Z;
  midiNote : Z;
  targetKey : Z;
  currentAttenuationDb : Q;
  volumeEnvelopeState : Z;
  currentModEnvValue : Q;
  startTime : Q;
  releaseStartTime : option Q;
  releaseStartModEnv : Q;
  currentTuningCents : Z;
  currentTuningCalculated : Q
}.

(** Field assignments [v.f = x]. *)
Section Setters.
Implicit Types (v : WorkletVoice) (s : WorkletSample).

Definition set_end s x :=
  {| sampleID := sampleID s; playbackStep := playbackStep s; cursor := cursor s;
     rootKey := rootKey s; loopStart := loopStart s; loopEnd := loopEnd s;
     end_ := x; loopingMode := loopingMode s |}.

Definition set_cursor s x :=
  {| sampleID := sampleID s; playbackStep := playbackStep s; cursor := x;
     rootKey := rootKey s; loopStart := loopStart s; loopEnd := loopEnd s;
     end_ := end_ s; loopingMode := loopingMode s |}.

Definition set_sample v x :=
  {| sample := x; filter := filter v; generators := generators v;
     modulators := modulators v; modulatedGenerators := modulatedGenerators v;
     finished := finished v; isInRelease := isInRelease v;
     channelNumber := channelNumber v; velocity := velocity v;
     midiNote := midiNote v; targetKey := targetKey v;
     currentAttenuationDb := currentAttenuationDb v;
     volumeEnvelopeState := volumeEnvelopeState v;
     currentModEnvValue := currentModEnvValue v; startTime := startTime v;
     releaseStartTime := releaseStartTime v;
     releaseStartModEnv := releaseStartModEnv v;
     currentTuningCents := currentTuningCents v;
     currentTuningCalculated := currentTuningCalculated v |}.

Definition set_generators v x :=
  {| sample := sample v; filter := filter v; generators := x;
     modulators := modulators v; modulatedGenerators := modulatedGenerators v;
     finished := finished v; isInRelease := isInRelease v;
     channelNumber := channelNumber v; velocity := velocity v;
     midiNote := midiNote v; targetKey := targetKey v;
     currentAttenuationDb := currentAttenuationDb v;
     volumeEnvelopeState := volumeEnvelopeState v;
     currentModEnvValue := currentModEnvValue v; startTime := startTime v;
     releaseStartTime := releaseStartTime v;
     releaseStartModEnv := releaseStartModEnv v;
     currentTuningCents := currentTuningCents v;
     currentTuningCalculated := currentTuningCalculated v |}.

Definition set_modulatedGenerators v x :=
  {| sample := sample v; filter := filter v; generators := generators v;
     modulators := modulators v; modulatedGenerators := x;
     finished := finished v; isInRelease := isInRelease v;
     channelNumber := channelNumber v; velocity := velocity v;
     midiNote := midiNote v; targetKey := targetKey v;
     currentAttenuationDb := currentAttenuationDb v;
     volumeEnvelopeState := volumeEnvelopeState v;
     currentModEnvValue := currentModEnvValue v; startTime := startTime v;
     releaseStartTime := releaseStartTime v;
     releaseStartModEnv := releaseStartModEnv v;
     currentTuningCents := currentTuningCents v;
     currentTuningCalculated := currentTuningCalculated v |}.

Definition set_finished v x :=
  {| sample := sample v; filter := filter v; generators := generators v;
     modulators := modulators v; modulatedGenerators := modulatedGenerators v;
     finished := x; isInRelease := isInRelease v;
     channelNumber := channelNumber v; velocity := velocity v;
     midiNote := midiNote v; targetKey := targetKey v;
     currentAttenuationDb := currentAttenuationDb v;
     volumeEnvelopeState := volumeEnvelopeState v;
     currentModEnvValue := currentModEnvValue v; startTime := startTime v;
     releaseStartTime := releaseStartTime v;
     releaseStartModEnv := releaseStartModEnv v;
     currentTuningCents := currentTuningCents v;
     currentTuningCalculated := currentTuningCalculated v |}.

Definition set_isInRelease v x :=
  {| sample := sample v; filter := filter v; generators := generators v;
     modulators := modulators v; modulatedGenerators := modulatedGenerators v;
     finished := finished v; isInRelease := x;
     channelNumber := channelNumber v; velocity := velocity v;
     midiNote := midiNote v; targetKey := targetKey v;
     currentAttenuationDb := currentAttenuationDb v;
     volumeEnvelopeState := volumeEnvelopeState v;
     currentModEnvValue := currentModEnvValue v; startTime := startTime v;
     releaseStartTime := releaseStartTime v;
     releaseStartModEnv := releaseStartModEnv v;
     currentTuningCents := currentTuningCents v;
     currentTuningCalculated := currentTuningCalculated v |}.

Definition set_currentAttenuationDb v x :=
  {| sample := sample v; filter := filter v; generators := generators v;
     modulators := modulators v; modulatedGenerators := modulatedGenerators v;
     finished := finished v; isInRelease := isInRelease v;
     channelNumber := channelNumber v; velocity := velocity v;
     midiNote := midiNote v; targetKey := targetKey v;
     currentAttenuationDb := x;
     volumeEnvelopeState := volumeEnvelopeState v;
     currentModEnvValue := currentModEnvValue v; startTime := startTime v;
     releaseStartTime := releaseStartTime v;
     releaseStartModEnv := releaseStartModEnv v;
     currentTuningCents := currentTuningCents v;
     currentTuningCalculated := currentTuningCalculated v |}.

Definition set_startTime v x :=
  {| sample := sample v; filter := filter v; generators := generators v;
     modulators := modulators v; modulatedGenerators := modulatedGenerators v;
     finished := finished v; isInRelease := isInRelease v;
     channelNumber := channelNumber v; velocity := velocity v;
     midiNote := midiNote v; targetKey := targetKey v;
     currentAttenuationDb := currentAttenuationDb v;
     volumeEnvelopeState := volumeEnvelopeState v;
     currentModEnvValue := currentModEnvValue v; startTime := x;
     releaseStartTime := releaseStartTime v;
     releaseStartModEnv := releaseStartModEnv v;
     currentTuningCents := currentTuningCents v;
     currentTuningCalculated := currentTuningCalculated v |}.

Definition set_releaseStartTime v x :=
  {| sample := sample v; filter := filter v; generators := generators v;
     modulators := modulators v; modulatedGenerators := modulatedGenerators v;
     finished := finished v; isInRelease := isInRelease v;
     channelNumber := channelNumber v; velocity := velocity v;
     midiNote := midiNote v; targetKey := targetKey v;
     currentAttenuationDb := currentAttenuationDb v;
     volumeEnvelopeState := volumeEnvelopeState v;
     currentModEnvValue := currentModEnvValue v; startTime := startTime v;
     releaseStartTime := x;
     releaseStartModEnv := releaseStartModEnv v;
     currentTuningCents := currentTuningCents v;
     currentTuningCalculated := currentTuningCalculated v |}.

Definition set_releaseStartModEnv v x :=
  {| sample := sample v; filter := filter v; generators := generators v;
     modulators := modulators v; modulatedGenerators := modulatedGenerators v;
     finished := finished v; isInRelease := isInRelease v;
     channelNumber := channelNumber v; velocity := velocity v;
     midiNote := midiNote v; targetKey := targetKey v;
     currentAttenuationDb := currentAttenuationDb v;
     volumeEnvelopeState := volumeEnvelopeState v;
     currentModEnvValue := currentModEnvValue v; startTime := startTime v;
     releaseStartTime := releaseStartTime v;
     releaseStartModEnv := x;
     currentTuningCents := currentTuningCents v;
     currentTuningCalculated := currentTuningCalculated v |}.

Definition set_currentTuning v (cents : Z) (calculated : Q) :=
  {| sample := sample v; filter := filter v; generators := generators v;
     modulators := modulators v; modulatedGenerators := modulatedGenerators v;
     finished := finished v; isInRelease := isInRelease v;
     channelNumber := channelNumber v; velocity := velocity v;
     midiNote := midiNote v; targetKey := targetKey v;
     currentAttenuationDb := currentAttenuationDb v;
     volumeEnvelopeState := volumeEnvelopeState v;
     currentModEnvValue := currentModEnvValue v; startTime := startTime v;
     releaseStartTime := releaseStartTime v;
     releaseStartModEnv := releaseStartModEnv v;
     currentTuningCents := cents;
     currentTuningCalculated := calculated |}.

End Setters.

(** ** The voice store *)

(** A voice object is named by a reference; [voices] and [sustainedVoices]
    hold references, so that a voice released through one list is seen
    released through the other. *)
Definition ref := nat.
Abbreviation Heap := (ref → WorkletVoice).

(** What the store holds at a reference no voice object has yet. *)
Definition unallocated : WorkletVoice :=
  {| sample := {| sampleID := 0%nat; playbackStep := 0; cursor := 0; rootKey := 0;
                  loopStart := 0; loopEnd := 0; end_ := 0; loopingMode := 0 |};
     filter := {| a0 := 0; a1 := 0; a2 := 0; a3 := 0; a4 := 0;
                  x1 := 0; x2 := 0; y1 := 0; y2 := 0;
                  reasonanceCb := 0; reasonanceGain := 0;
                  cutoffCents := 0; cutoffHz := 0 |};
     generators := []; modulators := []; modulatedGenerators := [];
     finished := false; isInRelease := false; channelNumber := 0%nat;
     velocity := 0; midiNote := 0; targetKey := 0;
     currentAttenuationDb := 0; volumeEnvelopeState := 0;
     currentModEnvValue := 0; startTime := 0; releaseStartTime := None;
     releaseStartModEnv := 0; currentTuningCents := 0;
     currentTuningCalculated := 0 |}.

(** [l.forEach(v => { v := f v })] *)
Definition forEach_voice (f : WorkletVoice → WorkletVoice) (l : list ref) (h : Heap) : Heap :=
  foldl (λ h r, <[r := f (h r)]> h) h l.

(** [l.indexOf(r)]: the first position holding the object, or -1. *)
Definition indexOf (l : list ref) (r : ref) : Z :=
  match list_find (λ x, x = r) l with
  | Some (i, _) => Z.of_nat i
  | None => -1
  end.

(** [l.splice(start, deleteCount)]: a negative start counts from the end. *)
Definition splice (l : list ref) (start : Z) (deleteCount : nat) : list ref :=
  let len := Z.of_nat (length l) in
  let s := Z.to_nat (if start <? 0 then Z.max (len + start) 0 else Z.min start len) in
  take s l ++ drop (s + deleteCount) l.

(** [l.sort((v1, v2) => v1.velocity - v2.velocity)].  The sort of an array
    is stable, so the result is the one list that is ordered by velocity
    and keeps equal velocities in their order; insertion builds it. *)
Fixpoint insertByVelocity (h : Heap) (r : ref) (l : list ref) : list ref :=
  match l with
  | [] => [r]
  | y :: l' =>
      if velocity (h r) <=? velocity (h y) then r :: y :: l'
      else y :: insertByVelocity h r l'
  end.

Fixpoint sortByVelocity (h : Heap) (l : list ref) : list ref :=
  match l with
  | [] => []
  | r :: l' => insertByVelocity h r (sortByVelocity h l')
  end.

(** ** Channels and messages ([worklet_processor.js]) *)

Record ChannelVibrato := { depth : Q; delay : Q; rate : Q }.

Record WorkletProcessorChannel := {
  midiControllers : list Z;
  holdPedal : bool;
  channelVibrato : ChannelVibrato;
  isMuted : bool;
  voices : list ref;
  sustainedVoices : list ref
}.

Definition set_voices (c : WorkletProcessorChannel) (l : list ref) :=
  {| midiControllers := midiControllers c; holdPedal := holdPedal c;
     channelVibrato := channelVibrato c; isMuted := isMuted c;
     voices := l; sustainedVoices := sustainedVoices c |}.

Definition set_sustainedVoices (c : WorkletProcessorChannel) (l : list ref) :=
  {| midiControllers := midiControllers c; holdPedal := holdPedal c;
     channelVibrato := channelVibrato c; isMuted := isMuted c;
     voices := voices c; sustainedVoices := l |}.

Definition set_holdPedal (c : WorkletProcessorChannel) (b : bool) :=
  {| midiControllers := midiControllers c; holdPedal := b;
     channelVibrato := channelVibrato c; isMuted := isMuted c;
     voices := voices c; sustainedVoices := sustainedVoices c |}.

Definition set_midiControllers (c : WorkletProcessorChannel) (t : list Z) :=
  {| midiControllers := t; holdPedal := holdPedal c;
     channelVibrato := channelVibrato c; isMuted := isMuted c;
     voices := voices c; sustainedVoices := sustainedVoices c |}.

Definition set_channelVibrato (c : WorkletProcessorChannel) (x : ChannelVibrato) :=
  {| midiControllers := midiControllers c; holdPedal := holdPedal c;
     channelVibrato := x; isMuted := isMuted c;
     voices := voices c; sustainedVoices := sustainedVoices c |}.

Definition set_isMuted (c : WorkletProcessorChannel) (b : bool) :=
  {| midiControllers := midiControllers c; holdPedal := holdPedal c;
     channelVibrato := channelVibrato c; isMuted := b;
     voices := voices c; sustainedVoices := sustainedVoices c |}.

(** [messageType] together with the [messageData] it carries. *)
Inductive workletMessageType :=
  | noteOff (note : Z)
  | killNote (note : Z)
  | noteOn (data : list WorkletVoice)
  | sampleDump (id : nat) (sampleData : list Q)
  | ccReset (excluded : list nat)
  | ccChange (cc : nat) (value : Z)
  | setChannelVibrato (vibrato : ChannelVibrato)
  | clearCache
  | stopAll (mode : Z)
  | killNotes (n : nat)
  | muteChannel (muted : bool)
  | addNewChannel
  | unknownMessage.

Record WorkletMessage := {
  messageChannel : nat;
  messageType : workletMessageType
}.

(** The globals of the AudioWorkletGlobalScope. *)
Record AudioWorkletGlobalScope := {
  currentTime : Q;
  sampleRate : Q
}.

(** One [Float32Array[]]: the channels of one output. *)
Definition Plane := list (list Q).

(** [Math.pow], whose results are not rational in general, is a parameter. *)
Class MathObject := {
  Math_pow : Q → Q → Q
}.

(** Functions and constants imported from files that are not among the
    sources ([worklet_utilities/*], [synthetizer.js]). *)
Class WorkletUtilities := {
  (** Modelled from the spec: [computeModulators(voice, controllers)]
      rebuilds [voice.modulatedGenerators]; it is given by the vector it
      stores there. *)
  computeModulators : WorkletVoice → list Z → list Z;
  getOscillatorData : WorkletVoice → list Q → list Q → WorkletVoice * list Q;
  applyLowpassFilter : WorkletVoice → list Q → Q → WorkletVoice * list Q;
  applyVolumeEnvelope : WorkletVoice → list Q → Q → Q → Q → WorkletVoice * list Q;
  getModEnvValue : WorkletVoice → Q → Q * WorkletVoice;
  panVoice : Q → list Q → Plane → Plane → Z → Plane → Z → Plane * Plane * Plane;
  getLFOValue : Q → Q → Q → Q;
  timecentsToSeconds : Z → Q;
  absCentsToHz : Z → Q;
  VOICE_CAP : Z
}.

(** The default controller values, [resetArray]. *)
Definition resetArray : list Z :=
  let a := replicate CONTROLLER_TABLE_SIZE 0 in
  let a := JS.set16 a 7 (Z.shiftl 100 7) in   (* mainVolume *)
  let a := JS.set16 a 11 (Z.shiftl 127 7) in  (* expressionController *)
  let a := JS.set16 a 10 (Z.shiftl 64 7) in   (* pan *)
  let a := JS.set16 a 72 (Z.shiftl 64 7) in   (* releaseTime *)
  let a := JS.set16 a 74 (Z.shiftl 64 7) in   (* brightness *)
  let a := JS.set16 a (NON_CC_INDEX_OFFSET + 14) 8192 in            (* pitchWheel *)
  let a := JS.set16 a (NON_CC_INDEX_OFFSET + 16) (Z.shiftl 2 7) in  (* pitchWheelRange *)
  let a := JS.set16 a (NON_CC_INDEX_OFFSET + 13) (Z.shiftl 127 7) in (* channelPressure *)
  JS.set16 a (NON_CC_INDEX_OFFSET + modulatorSources.channelTuning) 0.

(** [a.set(b)] on typed arrays of the same length. *)
Definition typedArray_set (a b : list Z) : list Z :=
  take (length a) b ++ drop (length b) a.

(** [resetControllers], on the channel it addresses. *)
Definition resetControllers (c : WorkletProcessorChannel) (excluded : list nat)
    : WorkletProcessorChannel :=
  let excludedCCvalues := (λ ccNum, (ccNum, midiControllers c !! ccNum)) <$> excluded in
  let transpose :=
    JS.get (midiControllers c) (NON_CC_INDEX_OFFSET + modulatorSources.channelTranspose) in
  let t := typedArray_set (midiControllers c) resetArray in
  let t := JS.set16 t (NON_CC_INDEX_OFFSET + modulatorSources.channelTranspose) transpose in
  let t := foldl (λ t cc, match cc.2 with
                          | Some ccVal => JS.set16 t cc.1 ccVal
                          | None => t
                          end) t excludedCCvalues in
  {| midiControllers := t; holdPedal := false;
     channelVibrato := {| depth := 0; delay := 0; rate := 0 |};
     isMuted := isMuted c; voices := voices c; sustainedVoices := sustainedVoices c |}.

(** [releaseVoice] *)
Definition releaseVoice (scope : AudioWorkletGlobalScope) (voice : WorkletVoice) : WorkletVoice :=
  if JS.ltb (currentTime scope - startTime voice) MIN_NOTE_LENGTH
  then set_releaseStartTime voice (Some (startTime voice + MIN_NOTE_LENGTH)%Q)
  else set_releaseStartTime voice (Some (currentTime scope)).

(** ** Message handling shared by the two processors

    The cases [noteOff], [killNote], [noteOn] (up to the push), [sampleDump]
    and [ccChange] of [handleMessage] have the same text in
    [worklet_processor.js] and [channel_processor.js], up to the place the
    channel's fields are kept in; they are given once, on a channel and the
    voice store. *)
Section ChannelMessages.
Context {Utilities : WorkletUtilities}.
Variable scope : AudioWorkletGlobalScope.

(** [computeModulators(v, controllers)] as the assignment it performs. *)
Definition recomputeModulators (controllers : list Z) (v : WorkletVoice) : WorkletVoice :=
  set_modulatedGenerators v (computeModulators v controllers).

(** [case workletMessageType.noteOff] *)
Definition noteOffVoice (data : Z) (holdPedal : bool) (acc : Heap * list ref) (r : ref)
    : Heap * list ref :=
  let v := acc.1 r in
  if negb (midiNote v =? data) || isInRelease v then acc
  else if holdPedal then (acc.1, acc.2 ++ [r])
  else (<[r := releaseVoice scope v]> acc.1, acc.2).

Definition handleNoteOff (data : Z) (c : WorkletProcessorChannel) (h : Heap)
    : Heap * WorkletProcessorChannel :=
  let res := foldl (noteOffVoice data (holdPedal c)) (h, sustainedVoices c) (voices c) in
  (res.1, set_sustainedVoices c res.2).

(** [case workletMessageType.killNote] *)
Definition killNoteVoice (data : Z) (v : WorkletVoice) : WorkletVoice :=
  if negb (midiNote v =? data) then v
  else
    releaseVoice scope
      (set_modulatedGenerators v
         (JS.set16 (modulatedGenerators v) generatorTypes.releaseVolEnv (-12000))).

Definition handleKillNote (data : Z) (c : WorkletProcessorChannel) (h : Heap) : Heap :=
  forEach_voice (killNoteVoice data) (voices c) h.

(** [case workletMessageType.noteOn]: the body of the inner [forEach]. *)
Definition exclusiveCutoff (controllers : list Z) (exclusive : Z) (v : WorkletVoice)
    : WorkletVoice :=
  if JS.get (generators v) generatorTypes.exclusiveClass =? exclusive then
    let v := releaseVoice scope v in
    let v := set_generators v (JS.set16 (generators v) generatorTypes.releaseVolEnv (-7200)) in
    recomputeModulators controllers v
  else v.

(** the body of [data.forEach(voice => ...)] *)
Definition noteOnVoice (c : WorkletProcessorChannel) (acc : Heap * list WorkletVoice)
    (voice : WorkletVoice) : Heap * list WorkletVoice :=
  let exclusive := JS.get (generators voice) generatorTypes.exclusiveClass in
  let h :=
    if negb (exclusive =? 0)
    then forEach_voice (exclusiveCutoff (midiControllers c) exclusive) (voices c) acc.1
    else acc.1 in
  let voice := recomputeModulators (midiControllers c) voice in
  let voice := set_currentAttenuationDb voice 100 in
  (h, acc.2 ++ [voice]).

(** [channelVoices.push(...data)]: the incoming objects enter the store
    at the next free references. *)
Fixpoint pushVoices (data : list WorkletVoice) (next : ref) (h : Heap) : Heap :=
  match data with
  | [] => h
  | voice :: data => pushVoices data (S next) (<[next := voice]> h)
  end.

Definition handleNoteOnPush (data : list WorkletVoice) (c : WorkletProcessorChannel)
    (next : ref) (h : Heap) : Heap * WorkletProcessorChannel :=
  let res := foldl (noteOnVoice c) (h, []) data in
  (pushVoices res.2 next res.1,
   set_voices c (voices c ++ seq next (length data))).

(** [case workletMessageType.sampleDump]: the body of the [forEach]. *)
Definition rehome (id : nat) (sampleData : list Q) (v : WorkletVoice) : WorkletVoice :=
  if negb (Nat.eqb (sampleID (sample v)) id) then v
  else
    let e := inject_Z (Z.of_nat (length sampleData) - 1
               + JS.get (generators v) generatorTypes.endAddrOffset
               + JS.get (generators v) generatorTypes.endAddrsCoarseOffset * 32768) in
    let c := ((playbackStep (sample v) * sampleRate scope)
               * (currentTime scope - startTime v))%Q in
    let v := set_sample v (set_cursor (set_end (sample v) e) c) in
    if loopingMode (sample v) =? 0 then
      if JS.geb (cursor (sample v)) (end_ (sample v)) then set_finished v true else v
    else
      if JS.gtb (cursor (sample v)) (loopEnd (sample v)) then
        set_sample v
          (set_cursor (sample v)
             (JS.rem (cursor (sample v)) (loopEnd (sample v) - loopStart (sample v))
              + loopStart (sample v) - 1)%Q)
      else v.

Definition handleSampleDump (id : nat) (sampleData : list Q)
    (c : WorkletProcessorChannel) (h : Heap) : Heap :=
  forEach_voice (rehome id sampleData) (voices c) h.

(** [case workletMessageType.ccChange] *)
Definition handleCcChange (cc : nat) (value : Z) (c : WorkletProcessorChannel) (h : Heap)
    : Heap * WorkletProcessorChannel :=
  let hc :=
    if Nat.eqb cc midiControllers.sustainPedal then
      if value >=? 64 then (h, set_holdPedal c true)
      else
        (forEach_voice (releaseVoice scope) (sustainedVoices c) h,
         set_sustainedVoices (set_holdPedal c false) [])
    else (h, c) in
  let c := set_midiControllers hc.2 (JS.set16 (midiControllers hc.2) cc value) in
  (forEach_voice (recomputeModulators (midiControllers c)) (voices c) hc.1, c).

(** [case workletMessageType.stopAll], the branch that releases. *)
Definition stopAllVoice (v : WorkletVoice) : WorkletVoice :=
  if isInRelease v then v else releaseVoice scope v.

End ChannelMessages.

(** ** [renderVoice] *)

(** The running values [cents], [lowpassCents] and [modLfoCentibels] of
    [renderVoice]. *)
Record Tuning := {
  cents : Q;
  lowpassCents : Q;
  modLfoCentibels : Q
}.

Section RenderVoice.
Context {JSMath : MathObject} {Utilities : WorkletUtilities}.
Variable scope : AudioWorkletGlobalScope.

Definition sampleTime : Q := (1 / sampleRate scope)%Q.

(** "check if release" *)
Definition checkRelease (voice : WorkletVoice) : WorkletVoice :=
  if negb (isInRelease voice) then
    match releaseStartTime voice with
    | Some t =>
        if JS.geb (currentTime scope) t
        then set_isInRelease (set_releaseStartModEnv voice (currentModEnvValue voice)) true
        else voice
    | None => voice
    end
  else voice.

(** "calculate tuning", "calculate tuning by key" and the initial
    "lowpass frequency" *)
Definition baseTuning (channel : WorkletProcessorChannel) (voice : WorkletVoice) : Tuning :=
  let mg := modulatedGenerators voice in
  let c := inject_Z
    (JS.get mg generatorTypes.fineTune
     + JS.get (midiControllers channel) (NON_CC_INDEX_OFFSET + modulatorSources.channelTuning)
     + JS.get (midiControllers channel) (NON_CC_INDEX_OFFSET + modulatorSources.channelTranspose)) in
  let c := (c + inject_Z ((targetKey voice - rootKey (sample voice))
                          * JS.get mg generatorTypes.scaleTuning))%Q in
  {| cents := c;
     lowpassCents := inject_Z (JS.get mg generatorTypes.initialFilterFc);
     modLfoCentibels := 0 |}.

(** "vibrato LFO" *)
Definition vibratoLfo (voice : WorkletVoice) (t : Tuning) : Tuning :=
  let mg := modulatedGenerators voice in
  let vibratoDepth := JS.get mg generatorTypes.vibLfoToPitch in
  if vibratoDepth >? 0 then
    let vibStart := (startTime voice + timecentsToSeconds (JS.get mg generatorTypes.delayVibLFO))%Q in
    let vibFreqHz := absCentsToHz (JS.get mg generatorTypes.freqVibLFO) in
    let lfoVal := getLFOValue vibStart vibFreqHz (currentTime scope) in
    if Qeq_bool lfoVal 0 then t
    else {| cents := cents t + lfoVal * inject_Z vibratoDepth;
            lowpassCents := lowpassCents t;
            modLfoCentibels := modLfoCentibels t |}
  else t.

(** The value [modLfoValue] of the "mod LFO" block. *)
Definition modLfoValue (voice : WorkletVoice) : Q :=
  let mg := modulatedGenerators voice in
  let modStart := (startTime voice + timecentsToSeconds (JS.get mg generatorTypes.delayModLFO))%Q in
  let modFreqHz := absCentsToHz (JS.get mg generatorTypes.freqModLFO) in
  getLFOValue modStart modFreqHz (currentTime scope).

(** "mod LFO" *)
Definition modLfo (voice : WorkletVoice) (t : Tuning) : Tuning :=
  let mg := modulatedGenerators voice in
  let modPitchDepth := JS.get mg generatorTypes.modLfoToPitch in
  let modVolDepth := JS.get mg generatorTypes.modLfoToVolume in
  let modFilterDepth := JS.get mg generatorTypes.modLfoToFilterFc in
  if modPitchDepth + modFilterDepth + modVolDepth >? 0 then
    {| cents := cents t + modLfoValue voice * inject_Z modPitchDepth;
       lowpassCents := lowpassCents t + modLfoValue voice * inject_Z modFilterDepth;
       modLfoCentibels := modLfoValue voice * inject_Z modVolDepth |}
  else t.

(** "channel vibrato (GS NRPN)" *)
Definition channelVibratoLfo (channel : WorkletProcessorChannel) (voice : WorkletVoice)
    (t : Tuning) : Tuning :=
  let cv := channelVibrato channel in
  if JS.gtb (depth cv) 0 then
    let x := getLFOValue (startTime voice + delay cv)%Q (rate cv) (currentTime scope) in
    if Qeq_bool x 0 then t
    else {| cents := cents t + x * depth cv;
            lowpassCents := lowpassCents t;
            modLfoCentibels := modLfoCentibels t |}
  else t.

(** From "mod env" to the end of the function: the mod envelope, the
    playback rate, panning and the synthesis chain, for the values the
    LFO blocks have left in [t]. *)
Definition synthesize (voice : WorkletVoice) (sampleData : list Q) (t : Tuning)
    (output reverbOutput chorusOutput : option Plane)
    : option (WorkletVoice * (option Plane * option Plane * option Plane)) :=
  let mg := modulatedGenerators voice in
  let semitones := JS.get mg generatorTypes.coarseTune in
  let modEnvPitchDepth := JS.get mg generatorTypes.modEnvToPitch in
  let modEnvFilterDepth := JS.get mg generatorTypes.modEnvToFilterFc in
  let me := getModEnvValue voice (currentTime scope) in
  let modEnv := me.1 in
  let voice := me.2 in
  let lowpass := (lowpassCents t + modEnv * inject_Z modEnvFilterDepth)%Q in
  let c := (cents t + modEnv * inject_Z modEnvPitchDepth)%Q in
  let centsTotal := JS.double_tilde (c + inject_Z (semitones * 100))%Q in
  let voice :=
    if negb (centsTotal =? currentTuningCents voice)
    then set_currentTuning voice centsTotal (Math_pow 2 (inject_Z centsTotal / 1200)%Q)
    else voice in
  let pan := (inject_Z (Z.max (-500)
                (Z.min 500 (JS.get (modulatedGenerators voice) generatorTypes.pan)) + 500)
              / 1000)%Q in
  out ← output;
  first ← out !! 0%nat;
  let bufferOut := replicate (length first) (0 : Q) in
  let r := getOscillatorData voice sampleData bufferOut in
  let r := applyLowpassFilter r.1 r.2 lowpass in
  let r := applyVolumeEnvelope r.1 r.2 (currentTime scope) (modLfoCentibels t) sampleTime in
  let voice := r.1 in
  rev ← reverbOutput;
  cho ← chorusOutput;
  let p := panVoice pan r.2 out
             rev (JS.get (modulatedGenerators voice) generatorTypes.reverbEffectsSend)
             cho (JS.get (modulatedGenerators voice) generatorTypes.chorusEffectsSend) in
  Some (voice, (Some p.1.1, Some p.1.2, Some p.2)).

Definition renderVoice (dumped : gmap nat (list Q))
    (channel : WorkletProcessorChannel) (voice : WorkletVoice)
    (output reverbOutput chorusOutput : option Plane)
    : option (WorkletVoice * (option Plane * option Plane * option Plane)) :=
  match dumped !! sampleID (sample voice) with
  | None => Some (voice, (output, reverbOutput, chorusOutput))
  | Some sampleData =>
      let voice := checkRelease voice in
      if JS.get (modulatedGenerators voice) generatorTypes.initialAttenuation >? 2500 then
        Some (if isInRelease voice then set_finished voice true else voice,
              (output, reverbOutput, chorusOutput))
      else
        let t := baseTuning channel voice in
        let t := vibratoLfo voice t in
        let t := modLfo voice t in
        let t := channelVibratoLfo channel voice t in
        synthesize voice sampleData t output reverbOutput chorusOutput
  end.

End RenderVoice.

(** ** [WorkletProcessor] ([worklet_processor.js]) *)

Record WorkletProcessor := {
  heap : Heap;
  nextRef : ref;
  _outputsAmount : nat;
  workletProcessorChannels : list WorkletProcessorChannel;
  totalVoicesAmount : Z;
  (** the module-level [workletDumpedSamplesList], indexed by sample id *)
  workletDumpedSamplesList : gmap nat (list Q);
  (** what was posted on [this.port], oldest first *)
  port : list (list nat)
}.

Section Processor.
Context {JSMath : MathObject} {Utilities : WorkletUtilities}.
Variable scope : AudioWorkletGlobalScope.

Definition with_heap_channels (st : WorkletProcessor) (h : Heap)
    (chs : list WorkletProcessorChannel) : WorkletProcessor :=
  {| heap := h; nextRef := nextRef st; _outputsAmount := _outputsAmount st;
     workletProcessorChannels := chs; totalVoicesAmount := totalVoicesAmount st;
     workletDumpedSamplesList := workletDumpedSamplesList st; port := port st |}.

Definition with_totalVoicesAmount (st : WorkletProcessor) (n : Z) : WorkletProcessor :=
  {| heap := heap st; nextRef := nextRef st; _outputsAmount := _outputsAmount st;
     workletProcessorChannels := workletProcessorChannels st; totalVoicesAmount := n;
     workletDumpedSamplesList := workletDumpedSamplesList st; port := port st |}.

Definition with_samples (st : WorkletProcessor) (m : gmap nat (list Q)) : WorkletProcessor :=
  {| heap := heap st; nextRef := nextRef st; _outputsAmount := _outputsAmount st;
     workletProcessorChannels := workletProcessorChannels st;
     totalVoicesAmount := totalVoicesAmount st;
     workletDumpedSamplesList := m; port := port st |}.

Definition with_nextRef (st : WorkletProcessor) (n : ref) : WorkletProcessor :=
  {| heap := heap st; nextRef := n; _outputsAmount := _outputsAmount st;
     workletProcessorChannels := workletProcessorChannels st;
     totalVoicesAmount := totalVoicesAmount st;
     workletDumpedSamplesList := workletDumpedSamplesList st; port := port st |}.

(** [updateVoicesAmount] *)
Definition updateVoicesAmount (st : WorkletProcessor) : WorkletProcessor :=
  {| heap := heap st; nextRef := nextRef st; _outputsAmount := _outputsAmount st;
     workletProcessorChannels := workletProcessorChannels st;
     totalVoicesAmount := totalVoicesAmount st;
     workletDumpedSamplesList := workletDumpedSamplesList st;
     port := port st ++ [(λ c, length (voices c)) <$> workletProcessorChannels st] |}.

(** [createWorkletChannel] *)
Definition createWorkletChannel (st : WorkletProcessor) : WorkletProcessor :=
  let c := {| midiControllers := replicate CONTROLLER_TABLE_SIZE 0;
              holdPedal := false;
              channelVibrato := {| depth := 0; delay := 0; rate := 0 |};
              isMuted := false; voices := []; sustainedVoices := [] |} in
  with_heap_channels st (heap st) (workletProcessorChannels st ++ [resetControllers c []]).

(** [constructor]: [midiChannels] channels, no voice. *)
Definition constructor (midiChannels : nat) : WorkletProcessor :=
  Nat.iter midiChannels createWorkletChannel
    {| heap := λ _, unallocated; nextRef := 0%nat; _outputsAmount := midiChannels;
       workletProcessorChannels := []; totalVoicesAmount := 0;
       workletDumpedSamplesList := ∅; port := [] |}.

(** The body of the [for] loop of [voiceKilling]. *)
Definition killVoice (st : WorkletProcessor) (voice : ref) : option WorkletProcessor :=
  let n := channelNumber (heap st voice) in
  c ← workletProcessorChannels st !! n;
  let c := set_voices c (splice (voices c) (indexOf (voices c) voice) 1) in
  Some (with_totalVoicesAmount
          (with_heap_channels st (heap st) (<[n := c]> (workletProcessorChannels st)))
          (totalVoicesAmount st - 1)).

(** The list [voicesOrderedByVelocity] of [voiceKilling]. *)
Definition voicesOrderedByVelocity (st : WorkletProcessor) : list ref :=
  sortByVelocity (heap st) (concat (voices <$> workletProcessorChannels st)).

(** [voiceKilling] *)
Definition voiceKilling (st : WorkletProcessor) (amount : nat) : option WorkletProcessor :=
  let ordered := voicesOrderedByVelocity st in
  let amount := if (length ordered <? amount)%nat then length ordered else amount in
  st ← foldl (λ acc voice, st ← acc; killVoice st voice) (Some st) (take amount ordered);
  Some (updateVoicesAmount st).

(** [handleMessage] *)
Definition handleMessage (st : WorkletProcessor) (message : WorkletMessage)
    : option WorkletProcessor :=
  let channel := messageChannel message in
  c ← workletProcessorChannels st !! channel;
  let put (hc : Heap * WorkletProcessorChannel) :=
    with_heap_channels st hc.1 (<[channel := hc.2]> (workletProcessorChannels st)) in
  match messageType message with
  | unknownMessage => Some st
  | noteOff data => Some (put (handleNoteOff scope data c (heap st)))
  | killNote data => Some (put (handleKillNote scope data c (heap st), c))
  | noteOn data =>
      let st := with_nextRef (put (handleNoteOnPush scope data c (nextRef st) (heap st)))
                  (nextRef st + length data)%nat in
      let st := with_totalVoicesAmount st (totalVoicesAmount st + Z.of_nat (length data)) in
      if totalVoicesAmount st >? VOICE_CAP
      then voiceKilling st (Z.to_nat (totalVoicesAmount st - VOICE_CAP))
      else Some (updateVoicesAmount st)
  | sampleDump id sampleData =>
      let st := with_samples st (<[id := sampleData]> (workletDumpedSamplesList st)) in
      Some (with_heap_channels st (handleSampleDump scope id sampleData c (heap st))
              (workletProcessorChannels st))
  | ccReset excluded => Some (put (heap st, resetControllers c excluded))
  | ccChange cc value => Some (put (handleCcChange scope cc value c (heap st)))
  | setChannelVibrato data => Some (put (heap st, set_channelVibrato c data))
  | clearCache =>
      Some (if decide (workletDumpedSamplesList st = ∅) then st else with_samples st ∅)
  | stopAll data =>
      if data =? 1
      then Some (updateVoicesAmount (put (heap st, set_voices c [])))
      else Some (put (forEach_voice (stopAllVoice scope) (voices c) (heap st), c))
  | killNotes data => voiceKilling st data
  | muteChannel data => Some (put (heap st, set_isMuted c data))
  | addNewChannel => Some (createWorkletChannel st)
  end.

(** The body of [tempV.forEach(v => ...)] in [process]: the state is the
    store, the three outputs in use and the rebuilt [channel.voices]. *)
Definition renderAndKeep (dumped : gmap nat (list Q)) (channel : WorkletProcessorChannel)
    (acc : option (Heap * (option Plane * option Plane * option Plane) * list ref))
    (v : ref) : option (Heap * (option Plane * option Plane * option Plane) * list ref) :=
  a ← acc;
  r ← renderVoice scope dumped channel (a.1.1 v) a.1.2.1.1 a.1.2.1.2 a.1.2.2;
  let h := <[v := r.1]> a.1.1 in
  Some (h, r.2, if negb (finished r.1) then a.2 ++ [v] else a.2).

(** [outputs[i]] after the callee has written into it. *)
Definition writeBack (outputs : list Plane) (i : option nat) (p : option Plane) : list Plane :=
  match i, p with
  | Some i, Some p => <[i := p]> outputs
  | _, _ => outputs
  end.

(** The body of [this.workletProcessorChannels.forEach((channel, index) => ...)]. *)
Definition processChannel (dumped : gmap nat (list Q)) (outputsAmount : nat)
    (acc : option (Heap * list Plane * Z * list WorkletProcessorChannel))
    (ic : nat * WorkletProcessorChannel)
    : option (Heap * list Plane * Z * list WorkletProcessorChannel) :=
  a ← acc;
  let h := a.1.1.1 in
  let outputs := a.1.1.2 in
  let totalCurrentVoices := a.1.2 in
  let channel := ic.2 in
  if (length (voices channel) <? 1)%nat || isMuted channel then
    Some (h, outputs, totalCurrentVoices, a.2 ++ [channel])
  else
    (* [index % 0] is NaN, and [outputs[NaN]] is undefined *)
    let outputIndex :=
      if Nat.eqb outputsAmount 0 then None else Some (ic.1 mod outputsAmount + 2)%nat in
    let outputChannels := i ← outputIndex; outputs !! i in
    let reverbChannels := outputs !! 0%nat in
    let chorusChannels := outputs !! 1%nat in
    let tempV := voices channel in
    r ← foldl (renderAndKeep dumped (set_voices channel []))
           (Some (h, (outputChannels, reverbChannels, chorusChannels), [])) tempV;
    let outputs := writeBack outputs outputIndex r.1.2.1.1 in
    let outputs := writeBack outputs (Some 0%nat) r.1.2.1.2 in
    let outputs := writeBack outputs (Some 1%nat) r.1.2.2 in
    Some (r.1.1, outputs, totalCurrentVoices + Z.of_nat (length tempV),
          a.2 ++ [set_voices channel r.2]).

(** [process]; the boolean it returns is always [true] and is left out. *)
Definition process (st : WorkletProcessor) (outputs : list Plane)
    : option (WorkletProcessor * list Plane) :=
  r ← foldl (processChannel (workletDumpedSamplesList st) (_outputsAmount st))
         (Some (heap st, outputs, 0, [])) (imap pair (workletProcessorChannels st));
  let totalCurrentVoices := r.1.2 in
  let st := with_heap_channels st r.1.1.1 r.2 in
  Some (if negb (totalCurrentVoices =? totalVoicesAmount st)
        then updateVoicesAmount (with_totalVoicesAmount st totalCurrentVoices)
        else st,
        r.1.1.2).

End Processor.

(** ** [ChannelProcessor] ([channel_processor.js])

    One processor per channel: the channel's fields are the processor's
    own.  Its [process] hands rendering to a compiled module and is not
    modelled; [renderVoice] has the text of the one above. *)
Module ChannelProcessor.

Definition CHANNEL_CAP : nat := 400.

Record t := {
  heap : Heap;
  nextRef : ref;
  (** [midiControllers], [channelVibrato], [voices], [sustainedVoices]
      and [holdPedal] of [this] *)
  this : WorkletProcessorChannel;
  workletDumpedSamplesList : gmap nat (list Q);
  (** what was posted on [this.port], oldest first *)
  port : list nat
}.

Section Processor.
Context {JSMath : MathObject} {Utilities : WorkletUtilities}.
Variable scope : AudioWorkletGlobalScope.

Definition put (st : t) (hc : Heap * WorkletProcessorChannel) : t :=
  {| heap := hc.1; nextRef := nextRef st; this := hc.2;
     workletDumpedSamplesList := workletDumpedSamplesList st; port := port st |}.

Definition post (st : t) (n : nat) : t :=
  {| heap := heap st; nextRef := nextRef st; this := this st;
     workletDumpedSamplesList := workletDumpedSamplesList st; port := port st ++ [n] |}.

Definition with_samples (st : t) (m : gmap nat (list Q)) : t :=
  {| heap := heap st; nextRef := nextRef st; this := this st;
     workletDumpedSamplesList := m; port := port st |}.

Definition with_nextRef (st : t) (n : ref) : t :=
  {| heap := heap st; nextRef := n; this := this st;
     workletDumpedSamplesList := workletDumpedSamplesList st; port := port st |}.

(** [handleMessage] *)
Definition handleMessage (st : t) (message : workletMessageType) : t :=
  let c := this st in
  match message with
  | noteOff data => put st (handleNoteOff scope data c (heap st))
  | killNote data => put st (handleKillNote scope data c (heap st), c)
  | noteOn data =>
      let st := with_nextRef (put st (handleNoteOnPush scope data c (nextRef st) (heap st)))
                  (nextRef st + length data)%nat in
      let vs := voices (this st) in
      let vs :=
        if (CHANNEL_CAP <? length vs)%nat
        then splice vs 0 (length vs - CHANNEL_CAP)
        else vs in
      post (put st (heap st, set_voices (this st) vs)) (length vs)
  | sampleDump id sampleData =>
      let st := with_samples st (<[id := sampleData]> (workletDumpedSamplesList st)) in
      put st (handleSampleDump scope id sampleData c (heap st), c)
  | ccReset excluded => put st (heap st, resetControllers c excluded)
  | ccChange cc value => put st (handleCcChange scope cc value c (heap st))
  | setChannelVibrato data => put st (heap st, set_channelVibrato c data)
  | clearCache =>
      if decide (workletDumpedSamplesList st = ∅) then st else with_samples st ∅
  | stopAll data =>
      if data =? 1
      then post (put st (heap st, set_voices c [])) 0
      else put st (forEach_voice (stopAllVoice scope) (voices c) (heap st), c)
  | killNotes data =>
      let vs := splice (voices c) 0 data in
      post (put st (heap st, set_voices c vs)) (length vs)
  | muteChannel _ | addNewChannel | unknownMessage => st
  end.

(** [renderVoice(voice, output, reverbOutput, chorusOutput)] *)
Definition renderVoice (st : t) (voice : WorkletVoice)
    (output reverbOutput chorusOutput : option Plane) :=
  renderVoice scope (workletDumpedSamplesList st) (this st) voice
    output reverbOutput chorusOutput.

End Processor.
End ChannelProcessor.

(** ** The voice builder ([worklet_voice.js]) *)

(** Modelled from the spec: the [Sample] class is not among the sources;
    the record has the fields [worklet_voice.js] reads. *)
Module Sample.
Record t := {
  isCompressed : bool;
  isSampleLoaded : bool;
  samplePitch : Z;
  samplePitchCorrection : Z;
  sampleLoopStartIndex : Z;
  sampleLoopEndIndex : Z;
  sampleRate : Q;
  sampleData : list Q
}.
End Sample.

(** One element of what [preset.getSamplesAndGenerators] yields.
    Modelled from the spec: the generator layers are 60-slot vectors. *)
Module SampleAndGenerators.
Record t := {
  sampleID : nat;
  sample : Sample.t;
  presetGenerators : list Z;
  instrumentGenerators : list Z;
  modulators : list Modulator
}.
End SampleAndGenerators.

Module BaseAudioContext.
Record t := {
  currentTime : Q;
  sampleRate : Q
}.
End BaseAudioContext.

(** What [worklet_voice.js] imports from the SoundFont layer. *)
Class SoundFontLayer := {
  addAndClampGenerator : nat → list Z → list Z → Z;
  (** [sample.getAudioDataSync()]: the data, and the object afterwards *)
  getAudioDataSync : Sample.t → list Q * Sample.t;
  (** [sample.getAudioData()]: the object once the promise is returned *)
  getAudioData : Sample.t → Sample.t
}.

(** Modelled from the spec: [combine(presetVec, instrumentVec)] adds the
    instrument value to the preset value and clamps the sum to the
    generator's range; the table of ranges is a parameter. *)
Definition combineAndClamp (limits : nat → Z * Z) (i : nat)
    (presetGenerators instrumentGenerators : list Z) : Z :=
  Z.max (limits i).1
    (Z.min (limits i).2 (JS.get presetGenerators i + JS.get instrumentGenerators i)).

(** The module state of [worklet_voice.js] and what it has sent. *)
Record VoiceBuilder := {
  globalDumpedSamplesList : gset nat;
  (** messages posted on the port, oldest first *)
  workletMessagePort : list WorkletMessage;
  (** [getAudioData().then(...)] callbacks not yet run: channel and id *)
  pendingDumps : list (nat * nat);
  (** the [Sample] objects [dumpSample] has called a method of, by sample
      id, as those calls left them; for any other sample the zone's
      [sample] field is the object *)
  sampleObjects : gmap nat Sample.t
}.

(** The array [cachedVoices]: by MIDI note, then by velocity. *)
Abbreviation CachedVoices := (list (gmap Z (list WorkletVoice))).

Section VoiceBuilder.
Context {JSMath : MathObject} {SoundFont : SoundFontLayer}.

(** [clearSamplesList] *)
Definition clearSamplesList (st : VoiceBuilder) : VoiceBuilder :=
  {| globalDumpedSamplesList := ∅; workletMessagePort := workletMessagePort st;
     pendingDumps := pendingDumps st; sampleObjects := sampleObjects st |}.

(** [dumpSample] *)
Definition dumpSample (channel : nat) (sample : Sample.t) (id : nat) (st : VoiceBuilder)
    : VoiceBuilder :=
  let dumped := {[id]} ∪ globalDumpedSamplesList st in
  if negb (Sample.isCompressed sample) then
    let r := getAudioDataSync sample in
    {| globalDumpedSamplesList := dumped;
       workletMessagePort :=
         workletMessagePort st
           ++ [{| messageChannel := channel; messageType := sampleDump id r.1 |}];
       pendingDumps := pendingDumps st;
       sampleObjects := <[id := r.2]> (sampleObjects st) |}
  else
    {| globalDumpedSamplesList := dumped;
       workletMessagePort := workletMessagePort st;
       pendingDumps := pendingDumps st ++ [(channel, id)];
       sampleObjects := <[id := getAudioData sample]> (sampleObjects st) |}.

(** The object [sampleAndGenerators.sample] as it is now. *)
Definition sampleOf (st : VoiceBuilder) (z : SampleAndGenerators.t) : Sample.t :=
  default (SampleAndGenerators.sample z) (sampleObjects st !! SampleAndGenerators.sampleID z).

(** The [Int16Array] built by the summing loop and the EMU correction. *)
Definition combinedGenerators (z : SampleAndGenerators.t) : list Z :=
  let g := (λ i, JS.toInt16 (addAndClampGenerator i
                               (SampleAndGenerators.presetGenerators z)
                               (SampleAndGenerators.instrumentGenerators z)))
             <$> seq 0 60 in
  JS.set16 g generatorTypes.initialAttenuation
    (Qfloor (inject_Z (JS.get g generatorTypes.initialAttenuation) * (4 # 10))).

(** What the callback of [map] reads and writes outside itself. *)
Record BuildState := {
  velocityVar : Z;
  canCache : bool;
  builder : VoiceBuilder
}.

(** The callback of [preset.getSamplesAndGenerators(...).map]. *)
Definition buildVoice (channel : nat) (midiNote : Z) (context : BaseAudioContext.t)
    (bs : BuildState) (z : SampleAndGenerators.t) : BuildState * WorkletVoice :=
  let id := SampleAndGenerators.sampleID z in
  (* dump the sample if haven't already *)
  let dc :=
    if decide (id ∈ globalDumpedSamplesList (builder bs)) then (builder bs, canCache bs)
    else
      let st := dumpSample channel (sampleOf (builder bs) z) id (builder bs) in
      (st, if negb (Sample.isSampleLoaded (sampleOf st z)) then false else canCache bs) in
  let st := dc.1 in
  let sample_ := sampleOf st z in
  let generators := combinedGenerators z in
  let rootKey :=
    if JS.get generators generatorTypes.overridingRootKey >? -1
    then JS.get generators generatorTypes.overridingRootKey
    else Sample.samplePitch sample_ in
  let targetKey :=
    if JS.get generators generatorTypes.keyNum >? -1
    then JS.get generators generatorTypes.keyNum
    else midiNote in
  let loopStart :=
    (inject_Z (Sample.sampleLoopStartIndex sample_) / 2
     + inject_Z (JS.get generators generatorTypes.startloopAddrsOffset
                 + JS.get generators generatorTypes.startloopAddrsCoarseOffset * 32768))%Q in
  let loopEnd :=
    (inject_Z (Sample.sampleLoopEndIndex sample_) / 2
     + inject_Z (JS.get generators generatorTypes.endloopAddrsOffset
                 + JS.get generators generatorTypes.endloopAddrsCoarseOffset * 32768))%Q in
  let loopingMode :=
    if JS.ltb (loopEnd - loopStart) 1 then 0
    else JS.get generators generatorTypes.sampleModes in
  let workletSample :=
    {| sampleID := id;
       playbackStep :=
         ((Sample.sampleRate sample_ / BaseAudioContext.sampleRate context)
          * Math_pow 2 (inject_Z (Sample.samplePitchCorrection sample_) / 1200))%Q;
       cursor := inject_Z (JS.get generators generatorTypes.startAddrsOffset
                   + JS.get generators generatorTypes.startAddrsCoarseOffset * 32768);
       rootKey := rootKey;
       loopStart := loopStart;
       loopEnd := loopEnd;
       end_ := inject_Z (Z.of_nat (length (Sample.sampleData sample_)) - 1
                 + (JS.get generators generatorTypes.endAddrOffset
                    + JS.get generators generatorTypes.endAddrsCoarseOffset * 32768));
       loopingMode := loopingMode |} in
  (* velocity override *)
  let velocity :=
    if JS.get generators generatorTypes.velocity >? -1
    then JS.get generators generatorTypes.velocity
    else velocityVar bs in
  ({| velocityVar := velocity; canCache := dc.2; builder := st |},
   {| sample := workletSample;
      filter := {| a0 := 0; a1 := 0; a2 := 0; a3 := 0; a4 := 0;
                   x1 := 0; x2 := 0; y1 := 0; y2 := 0;
                   reasonanceCb := 0; reasonanceGain := 1;
                   cutoffCents := 13500; cutoffHz := 20000 |};
      generators := generators;
      modulators := SampleAndGenerators.modulators z;
      modulatedGenerators := replicate 60 0;
      finished := false;
      isInRelease := false;
      channelNumber := channel;
      velocity := velocity;
      midiNote := midiNote;
      targetKey := targetKey;
      currentAttenuationDb := 100;
      volumeEnvelopeState := 0;
      currentModEnvValue := 0;
      startTime := BaseAudioContext.currentTime context;
      releaseStartTime := None;
      releaseStartModEnv := 1;
      currentTuningCents := 0;
      currentTuningCalculated := 1 |}).

(** [array.map(callback)], threading what the callback writes. *)
Definition buildVoices (channel : nat) (midiNote : Z) (context : BaseAudioContext.t)
    (bs : BuildState) (zones : list SampleAndGenerators.t) : BuildState * list WorkletVoice :=
  foldl (λ acc z, let r := buildVoice channel midiNote context acc.1 z in
                  (r.1, acc.2 ++ [r.2]))
        (bs, []) zones.

(** [cachedVoices[midiNote]]: undefined outside the array. *)
Definition cacheRow (cachedVoices : CachedVoices) (midiNote : Z) : option (gmap Z (list WorkletVoice)) :=
  if midiNote <? 0 then None else cachedVoices !! Z.to_nat midiNote.

(** [getWorkletVoices]; [preset] is the method
    [preset.getSamplesAndGenerators].  The result is the returned array,
    the cache and the module state afterwards. *)
Definition getWorkletVoices (channel : nat) (midiNote velocity : Z)
    (preset : Z → Z → list SampleAndGenerators.t) (context : BaseAudioContext.t)
    (st : VoiceBuilder) (cachedVoices : CachedVoices)
    : option (list WorkletVoice * CachedVoices * VoiceBuilder) :=
  match cacheRow cachedVoices midiNote with
  | None => None
  | Some row =>
  match row !! velocity with
  | Some cached =>
      (* the cached objects themselves are written to *)
      let workletVoices :=
        (λ v, set_startTime v (BaseAudioContext.currentTime context)) <$> cached in
      Some (workletVoices,
            <[Z.to_nat midiNote := <[velocity := workletVoices]> row]> cachedVoices,
            st)
  | None =>
      let r := buildVoices channel midiNote context
                 {| velocityVar := velocity; canCache := true; builder := st |}
                 (preset midiNote velocity) in
      let workletVoices := r.2 in
      Some (workletVoices,
            if canCache r.1
            then <[Z.to_nat midiNote := <[velocityVar r.1 := workletVoices]> row]> cachedVoices
            else cachedVoices,
            builder r.1)
  end
  end.

End VoiceBuilder.

(** ** synth_event_handler.js *)

(** A plain object whose properties are set, deleted and listed. *)
Module JSObject.

Definition digit (a : Ascii.ascii) : option N :=
  let n := Ascii.N_of_ascii a in
  if (48 <=? n)%N && (n <=? 57)%N then Some (n - 48)%N else None.

Fixpoint digits (s : string) (acc : N) : option N :=
  match s with
  | EmptyString => Some acc
  | String a s' =>
      match digit a with
      | Some d => digits s' (acc * 10 + d)%N
      | None => None
      end
  end.

(** The array index a property key denotes, if it is one: a canonical
    decimal numeral below 2^32 - 1. *)
Definition arrayIndex (k : string) : option N :=
  match k with
  | EmptyString => None
  | String a EmptyString => digit a
  | String a k' =>
      if (Ascii.N_of_ascii a =? 48)%N then None
      else match digits k 0 with
           | Some n => if (n <? 4294967295)%N then Some n else None
           | None => None
           end
  end.

Section Properties.
Context {A : Type}.

(** The own properties in the order in which they are listed: array
    indices in ascending order, then the other keys in the order of their
    creation. *)
Definition t : Type := list (string * A).

Fixpoint replace (o : t) (k : string) (v : A) : t :=
  match o with
  | [] => []
  | (k', v') :: o' =>
      if decide (k' = k) then (k, v) :: o' else (k', v') :: replace o' k v
  end.

Fixpoint insertIndex (o : t) (n : N) (k : string) (v : A) : t :=
  match o with
  | [] => [(k, v)]
  | (k', v') :: o' =>
      match arrayIndex k' with
      | Some n' =>
          if (n <? n')%N then (k, v) :: (k', v') :: o'
          else (k', v') :: insertIndex o' n k v
      | None => (k, v) :: (k', v') :: o'
      end
  end.

(** [o[k] = v]: an existing property keeps its place. *)
Definition set (o : t) (k : string) (v : A) : t :=
  if bool_decide (k ∈ o.*1) then replace o k v
  else match arrayIndex k with
       | Some n => insertIndex o n k v
       | None => o ++ [(k, v)]
       end.

(** [delete o[k]] *)
Definition delete (o : t) (k : string) : t :=
  base.filter (λ p, p.1 ≠ k) o.

(** [Object.values(o)] *)
Definition values (o : t) : list A := o.*2.

End Properties.
Arguments t : clear implicits.

End JSObject.

Module EventHandler.

Inductive EventTypes :=
  | noteoff | noteon | pitchwheel | controllerchange | programchange
  | drumchange | stopall | newchannel | mutechannel.

#[global] Instance EventTypes_eq_dec : EqDecision EventTypes.
Proof. solve_decision. Defined.

Section Handler.
(** The event data, and the world a listener acts on; a listener that
    throws has no result.  Listeners are taken not to register or remove
    listeners themselves. *)
Context {Data World : Type}.

Definition Listener : Type := Data → World → option World.

(** [this.events], for the event names of [EventTypes]. *)
Record t := { events : EventTypes → JSObject.t Listener }.

Definition constructor : t := {| events := λ _, [] |}.

(** [addEvent] *)
Definition addEvent (h : t) (name : EventTypes) (id : string) (callback : Listener) : t :=
  {| events := <[name := JSObject.set (events h name) id callback]> (events h) |}.

(** [removeEvent] *)
Definition removeEvent (h : t) (name : EventTypes) (id : string) : t :=
  {| events := <[name := JSObject.delete (events h name) id]> (events h) |}.

(** [callEvent]: each of the nine names has an object, so the test of
    [this.events[name]] succeeds. *)
Definition callEvent (h : t) (name : EventTypes) (eventData : Data) (w : World)
    : option World :=
  foldl (λ acc ev, match acc with Some w => ev eventData w | None => None end)
    (Some w) (JSObject.values (events h name)).

End Handler.
Arguments t : clear implicits.
Arguments Listener : clear implicits.

End EventHandler.

(** ** Example inputs

    Concrete voices, channels and processors, and stand-ins for the
    imported functions, on which the model is run. *)
Module Examples.

Definition math : MathObject := {| Math_pow _ _ := 1%Q |}.

(** No modulators (the modulated vector is the generator vector), a
    synthesis chain that leaves voice and buffers alone, and an LFO that
    is at its peak. *)
Definition utilities : WorkletUtilities :=
  {| computeModulators v _ := generators v;
     getOscillatorData v _ b := (v, b);
     applyLowpassFilter v b _ := (v, b);
     applyVolumeEnvelope v b _ _ _ := (v, b);
     getModEnvValue v _ := (0%Q, v);
     panVoice _ _ out rev _ cho _ := (out, rev, cho);
     getLFOValue _ _ _ := 1%Q;
     timecentsToSeconds _ := 0%Q;
     absCentsToHz _ := 440%Q;
     VOICE_CAP := 400 |}.

Definition scope : AudioWorkletGlobalScope :=
  {| currentTime := 2; sampleRate := 100 |}.

Definition newFilter : WorkletLowpassFilter :=
  {| a0 := 0; a1 := 0; a2 := 0; a3 := 0; a4 := 0;
     x1 := 0; x2 := 0; y1 := 0; y2 := 0;
     reasonanceCb := 0; reasonanceGain := 1;
     cutoffCents := 13500; cutoffHz := 20000 |}.

(** A voice on sample 5 that started at time 0, as [getWorkletVoices]
    lays it out, for the given loop, generators and velocity. *)
Definition voice (channel : nat) (note vel : Z) (gens : list Z)
    (mode : Z) (lstart lend : Q) : WorkletVoice :=
  {| sample := {| sampleID := 5; playbackStep := 1; cursor := 0; rootKey := 60;
                  loopStart := lstart; loopEnd := lend; end_ := 999;
                  loopingMode := mode |};
     filter := newFilter;
     generators := gens;
     modulators := [];
     modulatedGenerators := gens;
     finished := false;
     isInRelease := false;
     channelNumber := channel;
     velocity := vel;
     midiNote := note;
     targetKey := note;
     currentAttenuationDb := 100;
     volumeEnvelopeState := 0;
     currentModEnvValue := 0;
     startTime := 0;
     releaseStartTime := None;
     releaseStartModEnv := 1;
     currentTuningCents := 0;
     currentTuningCalculated := 1 |}.

Definition noGenerators : list Z := replicate 60 0.

Definition plainVoice (channel : nat) (note vel : Z) : WorkletVoice :=
  voice channel note vel noGenerators 0 0 0.

Definition newChannel (pedal : bool) (vs sus : list ref) : WorkletProcessorChannel :=
  {| midiControllers := resetArray; holdPedal := pedal;
     channelVibrato := {| depth := 0; delay := 0; rate := 0 |};
     isMuted := false; voices := vs; sustainedVoices := sus |}.

(** A store holding the listed voices at references 0, 1, ... *)
Definition storeOf (vs : list WorkletVoice) : Heap :=
  λ r, default (plainVoice 0 0 0) (vs !! r).

Definition processor (vs : list WorkletVoice) (chs : list WorkletProcessorChannel)
    (total : Z) (samples : gmap nat (list Q)) : WorkletProcessor :=
  {| heap := storeOf vs; nextRef := length vs; _outputsAmount := length chs;
     workletProcessorChannels := chs; totalVoicesAmount := total;
     workletDumpedSamplesList := samples; port := [] |}.

(** Note 60 sounds on channel 0 while the hold pedal is down. *)
Definition heldNote : WorkletProcessor :=
  processor [plainVoice 0 60 100] [newChannel true [0%nat] []] 1 ∅.

(** Note 60 was released under the pedal and waits in [sustainedVoices]. *)
Definition sustainedNote : WorkletProcessor :=
  processor [plainVoice 0 60 100] [newChannel true [0%nat] [0%nat]] 1 ∅.

(** Three stereo outputs of two frames: reverb, chorus and channel 0. *)
Definition outputs : list Plane := replicate 3 [[0%Q; 0%Q]; [0%Q; 0%Q]].

Definition threeFrames : gmap nat (list Q) := {[5%nat := [0%Q; 0%Q; 0%Q]]}.

(** Channel 0 holds one voice whose sample 5 has not been dumped yet. *)
Definition awaitingVoice : WorkletProcessor :=
  processor [plainVoice 0 60 100] [newChannel false [0%nat] []] 1 ∅.

(** A released voice attenuated by more than 100 dB: it finishes in the
    next block. *)
Definition fadedVoice : WorkletVoice :=
  releaseVoice scope
    (voice 0 60 100 (<[generatorTypes.initialAttenuation := 3000]> noGenerators) 0 0 0).





(** Open and closed hi-hat share exclusive class 1. *)
Definition hiHatOpen : WorkletVoice :=
  voice 0 46 100 (<[generatorTypes.exclusiveClass := 1]> noGenerators) 0 0 0.

Definition hiHatClosed : WorkletVoice :=
  voice 0 42 100 (<[generatorTypes.exclusiveClass := 1]> noGenerators) 0 0 0.

(** The open hi-hat sounds on channel 0. *)
Definition drums : WorkletProcessor :=
  processor [hiHatOpen] [newChannel false [0%nat] []] 1 ∅.

(** A voice looping over frames 0 to 100 of sample 5, started at time 0,
    sent before the sample was decoded. *)
Definition loopingVoice : WorkletVoice := voice 0 60 100 noGenerators 1 0 100.

Definition looping : WorkletProcessor :=
  processor [loopingVoice] [newChannel false [0%nat] []] 1 ∅.

Definition thousandFrames : list Q := replicate 1000 0%Q.

(** Channel 0 is muted while a voice sounds on it. *)
Definition mutedChannel : WorkletProcessor :=
  processor [plainVoice 0 60 100]
    [set_isMuted (newChannel false [0%nat] []) true] 1 threeFrames.

(** A channel whose main volume (controller 7) is 50 and whose transpose
    slot holds 3. *)
Definition tweakedChannel : WorkletProcessorChannel :=
  set_midiControllers (newChannel true [0%nat] [0%nat])
    (<[146%nat := 3]> (<[7%nat := 50]> resetArray)).

(** Two channels, three voices: velocities 90 and 20 on channel 0 and 50
    on channel 1. *)
Definition trio : WorkletProcessor :=
  processor [plainVoice 0 60 90; plainVoice 0 62 20; plainVoice 1 64 50]
    [newChannel false [0%nat; 1%nat] []; newChannel false [2%nat] []] 3 ∅.

(** Generator layers that are summed slot by slot, and a decoder that
    marks a sample loaded when it is read synchronously. *)
Definition soundfont : SoundFontLayer :=
  {| addAndClampGenerator i p q := JS.get p i + JS.get q i;
     getAudioDataSync s :=
       (Sample.sampleData s,
        {| Sample.isCompressed := Sample.isCompressed s;
           Sample.isSampleLoaded := true;
           Sample.samplePitch := Sample.samplePitch s;
           Sample.samplePitchCorrection := Sample.samplePitchCorrection s;
           Sample.sampleLoopStartIndex := Sample.sampleLoopStartIndex s;
           Sample.sampleLoopEndIndex := Sample.sampleLoopEndIndex s;
           Sample.sampleRate := Sample.sampleRate s;
           Sample.sampleData := Sample.sampleData s |});
     getAudioData s := s |}.

(** An uncompressed sample of four frames, and a compressed one that is
    not decoded yet. *)
Definition pcm : Sample.t :=
  {| Sample.isCompressed := false; Sample.isSampleLoaded := false;
     Sample.samplePitch := 60; Sample.samplePitchCorrection := 0;
     Sample.sampleLoopStartIndex := 0; Sample.sampleLoopEndIndex := 8;
     Sample.sampleRate := 100; Sample.sampleData := [0%Q; 0%Q; 0%Q; 0%Q] |}.

Definition vorbis : Sample.t :=
  {| Sample.isCompressed := true; Sample.isSampleLoaded := false;
     Sample.samplePitch := 60; Sample.samplePitchCorrection := 0;
     Sample.sampleLoopStartIndex := 0; Sample.sampleLoopEndIndex := 0;
     Sample.sampleRate := 100; Sample.sampleData := [] |}.

(** Instrument generators with no key, velocity or root key override. *)
Definition defaultGenerators : list Z :=
  <[generatorTypes.overridingRootKey := -1]>
    (<[generatorTypes.velocity := -1]>
       (<[generatorTypes.keyNum := -1]> noGenerators)).

(** A zone on the given sample whose instrument sets the velocity
    generator to [vel] and the sample mode to [mode]. *)
Definition zone (id : nat) (s : Sample.t) (vel mode : Z) : SampleAndGenerators.t :=
  {| SampleAndGenerators.sampleID := id;
     SampleAndGenerators.sample := s;
     SampleAndGenerators.presetGenerators := noGenerators;
     SampleAndGenerators.instrumentGenerators :=
       <[generatorTypes.sampleModes := mode]>
         (<[generatorTypes.velocity := vel]> defaultGenerators);
     SampleAndGenerators.modulators := [] |}.

(** A preset of two zones: the first fixes the velocity at 80, the second
    has no velocity generator. *)
Definition twoZones (note vel : Z) : list SampleAndGenerators.t :=
  [zone 1 pcm 80 1; zone 2 pcm (-1) 0].

(** A preset whose one zone plays a sample that is still being decoded. *)
Definition decoding (note vel : Z) : list SampleAndGenerators.t :=
  [zone 3 vorbis (-1) 0].

Definition audioContext : BaseAudioContext.t :=
  {| BaseAudioContext.currentTime := 1; BaseAudioContext.sampleRate := 100 |}.

Definition laterContext : BaseAudioContext.t :=
  {| BaseAudioContext.currentTime := 5; BaseAudioContext.sampleRate := 100 |}.

(** Nothing dumped or sent yet, and the state in which sample 3 has been
    dumped already. *)
Definition freshBuilder : VoiceBuilder :=
  {| globalDumpedSamplesList := ∅; workletMessagePort := [];
     pendingDumps := []; sampleObjects := ∅ |}.

Definition dumpedThree : VoiceBuilder :=
  {| globalDumpedSamplesList := {[3%nat]}; workletMessagePort := [];
     pendingDumps := [(0%nat, 3%nat)]; sampleObjects := {[3%nat := vorbis]} |}.

(** An empty cache for the 128 MIDI notes. *)
Definition emptyCache : CachedVoices := replicate 128 ∅.

(** The same stand-ins with room for three voices in all. *)
Definition smallCap : WorkletUtilities :=
  {| computeModulators v _ := generators v;
     getOscillatorData v _ b := (v, b);
     applyLowpassFilter v b _ := (v, b);
     applyVolumeEnvelope v b _ _ _ := (v, b);
     getModEnvValue v _ := (0%Q, v);
     panVoice _ _ out rev _ cho _ := (out, rev, cho);
     getLFOValue _ _ _ := 1%Q;
     timecentsToSeconds _ := 0%Q;
     absCentsToHz _ := 440%Q;
     VOICE_CAP := 3 |}.

End Examples.
(** ** Vocabulary of the properties *)

(** The time [releaseVoice] stores in [releaseStartTime]: now, or the end
    of the minimal note length when that is later. *)
Definition releaseTime (scope : AudioWorkletGlobalScope) (v : WorkletVoice) : Q :=
  if JS.ltb (currentTime scope - startTime v) MIN_NOTE_LENGTH
  then (startTime v + MIN_NOTE_LENGTH)%Q
  else currentTime scope.

(** The channels [process] skips, and the number of voices it renders. *)
Definition skipped (c : WorkletProcessorChannel) : bool :=
  (length (voices c) <? 1)%nat || isMuted c.

Definition renderedCount (chs : list WorkletProcessorChannel) : Z :=
  foldr (λ c n, (if skipped c then 0 else Z.of_nat (length (voices c))) + n) 0 chs.

(** A voice whose sample has not been dumped. *)
Definition awaitsSample (dumped : gmap nat (list Q)) (v : WorkletVoice) : Prop :=
  dumped !! sampleID (sample v) = None.

(** How [channel] looks after its turn in [process], for the store [h0]
    the block started from: a skipped channel is as before; a rendered
    one keeps a sublist of its voices, with every unfinished voice that
    still awaits its sample in it. *)
Definition channelAfter (dumped : gmap nat (list Q)) (h0 : Heap)
    (c c' : WorkletProcessorChannel) : Prop :=
  (skipped c = true → c' = c)
  ∧ ∃ kept, c' = set_voices c kept
            ∧ kept `sublist_of` voices c
            ∧ ∀ r, r ∈ voices c → awaitsSample dumped (h0 r) → finished (h0 r) = false →
                   r ∈ kept.



(** The exclusive class of a voice, and a live voice that some incoming
    voice of a note-on cuts off: the incoming voice has a nonzero
    exclusive class and the live voice has the same. *)
Definition exclusiveClassOf (v : WorkletVoice) : Z :=
  JS.get (generators v) generatorTypes.exclusiveClass.

Definition cutsOff (data : list WorkletVoice) (v : WorkletVoice) : Prop :=
  ∃ voice, voice ∈ data ∧ exclusiveClassOf voice ≠ 0
           ∧ exclusiveClassOf v = exclusiveClassOf voice.



#[global] Instance cutsOff_dec (data : list WorkletVoice) (v : WorkletVoice) :
  Decision (cutsOff data v).
Proof.
  destruct (decide (Exists (λ voice, exclusiveClassOf voice ≠ 0
                                     ∧ exclusiveClassOf v = exclusiveClassOf voice) data))
    as [H|H]; [left|right].
  - apply Exists_exists in H. exact H.
  - intros Hc. apply H, Exists_exists. exact Hc.
Defined.

(** The voices a [noteOff(note)] acts on: the note matches and the voice
    is not yet in release. *)
Definition noteOffMatches (note : Z) (v : WorkletVoice) : bool :=
  (midiNote v =? note) && negb (isInRelease v).

(** A 16-bit value, as an [Int16Array] holds it. *)
Definition isInt16 (z : Z) : Prop := -32768 ≤ z ≤ 32767.

(** A channel as [createWorkletChannel] makes it. *)
Definition freshChannel : WorkletProcessorChannel :=
  {| midiControllers := resetArray; holdPedal := false;
     channelVibrato := {| depth := 0; delay := 0; rate := 0 |};
     isMuted := false; voices := []; sustainedVoices := [] |}.

(** The slot of the controller table that holds [channelTranspose]. *)
Definition transposeSlot : nat := NON_CC_INDEX_OFFSET + modulatorSources.channelTranspose.

#[global] Instance isInt16_dec (z : Z) : Decision (isInt16 z).
Proof. unfold isInt16. apply _. Defined.

(** The voices of all channels, in channel order: the array [voiceKilling]
    flattens and sorts. *)
Definition allVoices (st : WorkletProcessor) : list ref :=
  concat (voices <$> workletProcessorChannels st).

(** Every voice object is held once, by the channel its [channelNumber]
    names. *)
Definition voicesInPlace (st : WorkletProcessor) : Prop :=
  NoDup (allVoices st)
  ∧ ∀ ch c r, workletProcessorChannels st !! ch = Some c → r ∈ voices c →
              channelNumber (heap st r) = ch.

(** A list of voices, and a channel, without the voices of [killed]. *)
Definition without (killed l : list ref) : list ref :=
  base.filter (λ r, r ∉ killed) l.

Definition stolen (killed : list ref) (c : WorkletProcessorChannel)
    : WorkletProcessorChannel :=
  set_voices c (without killed (voices c)).

(** Ascending velocity. *)
Definition byVelocity (h : Heap) (a b : ref) : Prop :=
  velocity (h a) ≤ velocity (h b).

(** *** Building voices *)

Section BuilderSpec.
Context {SoundFont : SoundFontLayer}.

(** The velocity after a zone: its velocity generator when that is above
    -1, the velocity so far otherwise. *)
Definition velocityOverride (vel : Z) (z : SampleAndGenerators.t) : Z :=
  if JS.get (combinedGenerators z) generatorTypes.velocity >? -1
  then JS.get (combinedGenerators z) generatorTypes.velocity
  else vel.

(** The velocity after a run of zones. *)
Definition carriedVelocity (vel : Z) (zones : list SampleAndGenerators.t) : Z :=
  foldl velocityOverride vel zones.

(** A [Sample] object after [dumpSample] has asked it for its data. *)
Definition sampleAfterDump (s : Sample.t) : Sample.t :=
  if negb (Sample.isCompressed s) then (getAudioDataSync s).2 else getAudioData s.

End BuilderSpec.

(** The sample ids of a list of zones. *)
Definition sampleIDs (zones : list SampleAndGenerators.t) : gset nat :=
  list_to_set (SampleAndGenerators.sampleID <$> zones).

(** The state every voice is created in. *)
Definition justCreated (channel : nat) (note : Z) (now : Q) (v : WorkletVoice) : Prop :=
  channelNumber v = channel ∧ midiNote v = note ∧ startTime v = now
  ∧ releaseStartTime v = None ∧ finished v = false ∧ isInRelease v = false
  ∧ currentAttenuationDb v = 100%Q ∧ volumeEnvelopeState v = 0
  ∧ modulatedGenerators v = replicate 60 0
  ∧ length (generators v) = 60%nat ∧ Forall isInt16 (generators v).

(** *** Rendering *)

(** The voice is in release, or its release time has come. *)
Definition releaseDue (scope : AudioWorkletGlobalScope) (v : WorkletVoice) : bool :=
  isInRelease v
  || match releaseStartTime v with
     | Some t => JS.geb (currentTime scope) t
     | None => false
     end.

(** *** Bookkeeping of the voice lists *)

(** How far the tracked total is above the number of voices held. *)
Definition drift (st : WorkletProcessor) : Z :=
  totalVoicesAmount st - Z.of_nat (length (allVoices st)).

(** The voices held are objects that exist. *)
Definition allocated (st : WorkletProcessor) : Prop :=
  Forall (λ r, (r < nextRef st)%nat) (allVoices st).

(** The voices a [noteOn] brings name the channel of the message. *)
Definition incomingInPlace (m : WorkletMessage) : Prop :=
  match messageType m with
  | noteOn data => Forall (λ v, channelNumber v = messageChannel m) data
  | _ => True
  end.

(** The number of voices a [stopAll(1)] drops from its channel. *)
Definition forceStopped (st : WorkletProcessor) (m : WorkletMessage) : Z :=
  match messageType m with
  | stopAll data =>
      if data =? 1
      then Z.of_nat (length (default []
                       (voices <$> workletProcessorChannels st !! messageChannel m)))
      else 0
  | _ => 0
  end.

(** *** Event listeners *)

Section ListenerSpec.
Context {A : Type}.

(** [o[k]] *)
Fixpoint property (o : JSObject.t A) (k : string) : option A :=
  match o with
  | [] => None
  | (k', v) :: o' => if decide (k' = k) then Some v else property o' k
  end.

(** Array indices come first, in ascending order. *)
Definition keyOrder (k1 k2 : string) : Prop :=
  match JSObject.arrayIndex k1, JSObject.arrayIndex k2 with
  | Some a, Some b => (a ≤ b)%N
  | Some _, None => True
  | None, Some _ => False
  | None, None => True
  end.

(** No key twice, and the keys in listing order. *)
Definition wellFormed (o : JSObject.t A) : Prop :=
  NoDup o.*1 ∧ StronglySorted keyOrder o.*1.

End ListenerSpec.
(** * Properties *)

(** ** The voice store under [forEach] *)

Section ForEachVoice.
Implicit Types (f : WorkletVoice → WorkletVoice) (l : list ref) (h : Heap) (r : ref).

Lemma forEach_voice_cons f x l h :
  forEach_voice f (x :: l) h = forEach_voice f l (<[x := f (h x)]> h).
Proof. reflexivity. Qed.

Lemma forEach_voice_app f l1 l2 h :
  forEach_voice f (l1 ++ l2) h = forEach_voice f l2 (forEach_voice f l1 h).
Proof. unfold forEach_voice. apply foldl_app. Qed.

(** A voice that is not in the list is not written to. *)
Lemma forEach_voice_notin f l h r :
  r ∉ l → forEach_voice f l h r = h r.
Proof.
  revert h. induction l as [|x l IH]; intros h Hr; [reflexivity|].
  rewrite forEach_voice_cons, IH.
  - apply fn_lookup_insert_ne. intros ->. apply Hr. left.
  - intros Hin. apply Hr. by right.
Qed.

(** What every application of [f] keeps, the loop keeps. *)
Lemma forEach_voice_keeps (P : WorkletVoice → Prop) f l h r :
  (∀ v, P v → P (f v)) → P (h r) → P (forEach_voice f l h r).
Proof.
  intros Hf. revert h. induction l as [|x l IH]; intros h Hh; [exact Hh|].
  rewrite forEach_voice_cons. apply IH.
  destruct (decide (x = r)) as [->|Hne].
  - rewrite fn_lookup_insert. by apply Hf.
  - by rewrite fn_lookup_insert_ne.
Qed.

(** What one application of [f] establishes and later ones keep holds of
    every voice of the list. *)
Lemma forEach_voice_establishes (P Q : WorkletVoice → Prop) f l h r :
  r ∈ l →
  (∀ v, P v → P (f v) ∨ Q (f v)) → (∀ v, P v → Q (f v)) → (∀ v, Q v → Q (f v)) →
  P (h r) → Q (forEach_voice f l h r).
Proof.
  intros Hin Hstep HPQ HQ. revert h Hin.
  induction l as [|x l IH]; intros h Hin HP; [by apply elem_of_nil in Hin|].
  rewrite forEach_voice_cons.
  destruct (decide (x = r)) as [->|Hne].
  - apply forEach_voice_keeps; [exact HQ|].
    rewrite fn_lookup_insert. by apply HPQ.
  - apply IH.
    + apply elem_of_cons in Hin as [->|Hin]; [done|exact Hin].
    + by rewrite fn_lookup_insert_ne.
Qed.

(** An idempotent [f] has been applied once to every voice of the list. *)
Lemma forEach_voice_idempotent f l h r :
  (∀ v, f (f v) = f v) → r ∈ l → forEach_voice f l h r = f (h r).
Proof.
  intros Hf Hin.
  apply (forEach_voice_establishes (λ v, v = h r) (λ v, v = f (h r))); try done.
  - intros v ->. by right.
  - intros v ->. done.
  - intros v ->. apply Hf.
Qed.

End ForEachVoice.

(** ** Release and the hold pedal *)


Section Release.
Context {Utilities : WorkletUtilities}.
Variable scope : AudioWorkletGlobalScope.

Lemma releaseVoice_eq v :
  releaseVoice scope v = set_releaseStartTime v (Some (releaseTime scope v)).
Proof. unfold releaseVoice, releaseTime. by destruct (JS.ltb _ _). Qed.

Lemma releaseVoice_idempotent v :
  releaseVoice scope (releaseVoice scope v) = releaseVoice scope v.
Proof. rewrite !releaseVoice_eq. reflexivity. Qed.

Lemma releaseStartTime_releaseVoice v :
  releaseStartTime (releaseVoice scope v) = Some (releaseTime scope v).
Proof. by rewrite releaseVoice_eq. Qed.

(** With the pedal down the loop of [noteOff] only collects. *)
Lemma noteOff_held_fold data l h sus :
  foldl (noteOffVoice scope data true) (h, sus) l
  = (h, sus ++ List.filter
                 (λ r, (midiNote (h r) =? data) && negb (isInRelease (h r))) l).
Proof.
  revert sus. induction l as [|r l IH]; intros sus; simpl.
  - by rewrite app_nil_r.
  - unfold noteOffVoice at 2. simpl.
    destruct (midiNote (h r) =? data); simpl; [|apply IH].
    destruct (isInRelease (h r)); simpl; [apply IH|].
    rewrite IH, <- app_assoc. reflexivity.
Qed.

Lemma handleNoteOff_held data c h :
  holdPedal c = true →
  handleNoteOff scope data c h
  = (h, set_sustainedVoices c
          (sustainedVoices c
           ++ List.filter
                (λ r, (midiNote (h r) =? data) && negb (isInRelease (h r)))
                (voices c))).
Proof.
  intros Hp. unfold handleNoteOff. rewrite Hp, noteOff_held_fold. reflexivity.
Qed.

(** Releasing the pedal: the sustained list is emptied and each voice it
    held is released; recomputing the modulators afterwards keeps that. *)
Lemma handleCcChange_pedal_up value c h :
  value < 64 →
  let r := handleCcChange scope midiControllers.sustainPedal value c h in
  sustainedVoices r.2 = [] ∧ holdPedal r.2 = false ∧ voices r.2 = voices c
  ∧ ∀ v, v ∈ sustainedVoices c →
         releaseStartTime (r.1 v) = Some (releaseTime scope (h v)).
Proof.
  intros Hv. unfold handleCcChange.
  replace (value >=? 64) with false by (symmetry; rewrite Z.geb_leb; apply Z.leb_gt; lia).
  simpl. repeat split.
  intros v Hin.
  apply (forEach_voice_keeps
           (λ x, releaseStartTime x = Some (releaseTime scope (h v)))); [done|].
  rewrite forEach_voice_idempotent by (exact releaseVoice_idempotent || exact Hin).
  apply releaseStartTime_releaseVoice.
Qed.

End Release.

Section HoldPedal.
Context {Utilities : WorkletUtilities}.
Variable scope : AudioWorkletGlobalScope.

(** C5 (as amended).  A [noteOff(note)] that arrives while the channel's
    hold pedal is down appends every voice of the channel that matches
    [note] and is not yet releasing to [sustainedVoices]; the voice stays
    in [voices] and is not released.  When the pedal is released (sustain
    CC value below 64), every voice of [sustainedVoices] gets its
    [releaseStartTime] set (to now, or to the end of the minimal note
    length) and the sustained list becomes empty. *)
Theorem hold_pedal_sustains_then_releases (st : WorkletProcessor) (ch : nat)
    (c : WorkletProcessorChannel) :
  workletProcessorChannels st !! ch = Some c →
  (holdPedal c = true → ∀ note, ∃ st' c',
     handleMessage scope st {| messageChannel := ch; messageType := noteOff note |} = Some st'
     ∧ workletProcessorChannels st' !! ch = Some c'
     ∧ voices c' = voices c
     ∧ sustainedVoices c'
       = sustainedVoices c
         ++ List.filter (λ r, (midiNote (heap st r) =? note)
                              && negb (isInRelease (heap st r))) (voices c)
     ∧ heap st' = heap st)
  ∧ (∀ value, value < 64 → ∃ st' c',
       handleMessage scope st
         {| messageChannel := ch;
            messageType := ccChange midiControllers.sustainPedal value |} = Some st'
       ∧ workletProcessorChannels st' !! ch = Some c'
       ∧ sustainedVoices c' = []
       ∧ holdPedal c' = false
       ∧ ∀ r, r ∈ sustainedVoices c →
              releaseStartTime (heap st' r) = Some (releaseTime scope (heap st r))).
Proof.
  intros Hc.
  assert (Hlt : (ch < length (workletProcessorChannels st))%nat)
    by (eapply lookup_lt_Some; exact Hc).
  split.
  - intros Hp note. unfold handleMessage.
    cbn [messageChannel messageType]. rewrite Hc. cbn [mbind option_bind].
    rewrite (handleNoteOff_held scope note c (heap st) Hp).
    eexists _, _. split; [reflexivity|]. cbn.
    split; [by apply list_lookup_insert_eq|]. done.
  - intros value Hv. unfold handleMessage.
    cbn [messageChannel messageType]. rewrite Hc. cbn [mbind option_bind].
    destruct (handleCcChange_pedal_up scope value c (heap st) Hv)
      as (Hs & Hp & _ & Hr).
    eexists _, _. split; [reflexivity|]. simpl.
    split; [by apply list_lookup_insert_eq|]. done.
Qed.

End HoldPedal.

(** The theorem at work: the sustained note 60 of [Examples.sustainedNote]
    is released when the pedal goes up at time 2. *)
Lemma hold_pedal_sustains_then_releases_witness :
  workletProcessorChannels Examples.sustainedNote !! 0%nat
    = Some (Examples.newChannel true [0%nat] [0%nat])
  ∧ ∃ st' c',
      handleMessage (Utilities := Examples.utilities) Examples.scope Examples.sustainedNote
        {| messageChannel := 0;
           messageType := ccChange midiControllers.sustainPedal 0 |} = Some st'
      ∧ workletProcessorChannels st' !! 0%nat = Some c'
      ∧ sustainedVoices c' = []
      ∧ releaseStartTime (heap st' 0%nat) = Some 2%Q.
Proof.
  split; [reflexivity|].
  destruct (hold_pedal_sustains_then_releases (Utilities := Examples.utilities) Examples.scope
              Examples.sustainedNote 0 _ eq_refl) as [_ Hup].
  destruct (Hup 0 eq_refl) as (st' & c' & Hm & Hc & Hs & _ & Hr).
  exists st', c'. repeat split; try assumption.
  apply (Hr 0%nat). left.
Defined.

(** C5, the claim as worded fails: after the [noteOff] under the pedal the
    voice is in [sustainedVoices] and still in [voices]. *)
Lemma noteOff_under_pedal_keeps_voice_in_voices :
  ∃ st' c',
    handleMessage (Utilities := Examples.utilities) Examples.scope Examples.heldNote
      {| messageChannel := 0; messageType := noteOff 60 |} = Some st'
    ∧ workletProcessorChannels st' !! 0%nat = Some c'
    ∧ 0%nat ∈ sustainedVoices c'
    ∧ ¬ (0%nat ∉ voices c').
Proof.
  eexists _, _. split; [reflexivity|]. split; [reflexivity|].
  split; [left|]. intros Hn. apply Hn. left.
Qed.

(** ** Rendering a block *)


Lemma renderedCount_cons c chs :
  renderedCount (c :: chs)
  = (if skipped c then 0 else Z.of_nat (length (voices c))) + renderedCount chs.
Proof. reflexivity. Qed.

Lemma imap_pair_snd {A} (l : list A) : (imap pair l).*2 = l.
Proof.
  apply list_eq. intros i. rewrite list_lookup_fmap, list_lookup_imap.
  by destruct (l !! i).
Qed.

Lemma foldl_option_None {A B} (f : option A → B → option A) (l : list B) :
  (∀ x, f None x = None) → foldl f None l = None.
Proof. intros Hf. induction l as [|x l IH]; simpl; [done|]. by rewrite Hf. Qed.

Section Process.
Context {JSMath : MathObject} {Utilities : WorkletUtilities}.
Variable scope : AudioWorkletGlobalScope.
Variable dumped : gmap nat (list Q).

Lemma renderVoice_awaitsSample channel voice out rev cho :
  awaitsSample dumped voice →
  renderVoice scope dumped channel voice out rev cho = Some (voice, (out, rev, cho)).
Proof. unfold awaitsSample, renderVoice. by intros ->. Qed.


Lemma renderAndKeep_fold channel l :
  ∀ h planes kept h' planes' kept',
    foldl (renderAndKeep scope dumped channel) (Some (h, planes, kept)) l
      = Some (h', planes', kept') →
    (∀ r, awaitsSample dumped (h r) → h' r = h r)
    ∧ ∃ k, kept' = kept ++ k
           ∧ k `sublist_of` l
           ∧ ∀ r, r ∈ l → awaitsSample dumped (h r) → finished (h r) = false → r ∈ k.
Proof.
  induction l as [|x l IH]; intros h planes kept h' planes' kept' Hf.
  - simpl in Hf. injection Hf as <- <- <-. split; [done|].
    exists []. rewrite app_nil_r. repeat split; [constructor|].
    intros r Hr. by apply elem_of_nil in Hr.
  - cbn [foldl] in Hf. unfold renderAndKeep at 2 in Hf.
    cbn [mbind option_bind fst snd] in Hf.
    destruct (renderVoice scope dumped channel (h x) planes.1.1 planes.1.2 planes.2)
      as [[v' planes1]|] eqn:Hr; cbn [mbind option_bind fst snd] in Hf;
      [|by rewrite foldl_option_None in Hf].
    apply IH in Hf as (Hsame & k & -> & Hsub & Hin).
    assert (Hx : awaitsSample dumped (h x) → v' = h x).
    { intros Hs. rewrite (renderVoice_awaitsSample _ _ _ _ _ Hs) in Hr. congruence. }
    assert (Hh1 : ∀ r, awaitsSample dumped (h r) → (<[x := v']> h) r = h r).
    { intros r Hs. destruct (decide (x = r)) as [->|Hne].
      - rewrite fn_lookup_insert. by apply Hx.
      - by rewrite fn_lookup_insert_ne. }
    split.
    + intros r Hs. rewrite Hsame; rewrite Hh1; done.
    + exists ((if negb (finished v') then [x] else []) ++ k).
      split; [destruct (finished v'); simpl; by rewrite <- ?app_assoc|].
      split.
      * destruct (finished v'); simpl; [by apply sublist_cons|by apply sublist_skip].
      * intros r Hrl Hs Hfin. apply elem_of_cons in Hrl as [->|Hrl].
        -- rewrite (Hx Hs), Hfin. simpl. left.
        -- apply elem_of_app. right. apply Hin; rewrite ?Hh1; done.
Qed.

Lemma processChannel_fold n ics :
  ∀ h outs tot done h' outs' tot' chs',
    foldl (processChannel scope dumped n) (Some (h, outs, tot, done)) ics
      = Some (h', outs', tot', chs') →
    (∀ r, awaitsSample dumped (h r) → h' r = h r)
    ∧ tot' = tot + renderedCount ics.*2
    ∧ ∃ new, chs' = done ++ new ∧ Forall2 (channelAfter dumped h) ics.*2 new.
Proof.
  induction ics as [|[i c] ics IH]; intros h outs tot done h' outs' tot' chs' Hf.
  - simpl in Hf. injection Hf as <- <- <- <-. split; [done|].
    split; [simpl; lia|]. exists []. by rewrite app_nil_r.
  - cbn [foldl] in Hf. unfold processChannel at 2 in Hf.
    cbn [mbind option_bind fst snd] in Hf. fold (skipped c) in Hf.
    rewrite fmap_cons, renderedCount_cons. cbn [snd].
    destruct (skipped c) eqn:Hskip.
    + apply IH in Hf as (Hsame & -> & new & -> & Hall).
      split; [done|]. split; [lia|].
      exists (c :: new). split; [by rewrite <- app_assoc|].
      constructor; [|done]. split; [done|].
      exists (voices c). split; [by destruct c|]. done.
    + match type of Hf with
      | context [foldl (renderAndKeep _ _ ?ch) ?a ?l] =>
          destruct (foldl (renderAndKeep scope dumped ch) a l)
            as [[[h1 planes1] kept1]|] eqn:Hr
      end; cbn [mbind option_bind fst snd] in Hf;
        [|by rewrite foldl_option_None in Hf].
      apply renderAndKeep_fold in Hr as (Hsame1 & k & Hk & Hsub & Hin).
      simpl in Hk. subst kept1.
      apply IH in Hf as (Hsame & -> & new & -> & Hall).
      split; [intros r Hs; rewrite Hsame; rewrite Hsame1; done|].
      split; [lia|].
      exists (set_voices c k :: new). split; [by rewrite <- app_assoc|].
      constructor.
      * split; [intros Hs; congruence|]. exists k. done.
      * eapply Forall2_impl; [exact Hall|].
        intros c1 c2 (Hsk & kept & -> & Hsub' & Hin'). split; [exact Hsk|].
        exists kept. split; [done|]. split; [done|].
        intros r Hr Hs Hfin. apply Hin'; rewrite ?Hsame1; done.
Qed.

(** [process], read off the two loops. *)
Lemma process_spec st outputs st' outputs' :
  workletDumpedSamplesList st = dumped →
  process scope st outputs = Some (st', outputs') →
  (∀ r, awaitsSample dumped (heap st r) → heap st' r = heap st r)
  ∧ Forall2 (channelAfter dumped (heap st))
      (workletProcessorChannels st) (workletProcessorChannels st')
  ∧ totalVoicesAmount st' = renderedCount (workletProcessorChannels st)
  ∧ port st'
    = if renderedCount (workletProcessorChannels st) =? totalVoicesAmount st
      then port st
      else port st ++ [(λ c, length (voices c)) <$> workletProcessorChannels st'].
Proof.
  intros Hd Hp. unfold process in Hp. rewrite Hd in Hp.
  match type of Hp with
  | context [foldl ?f ?a ?l] =>
      destruct (foldl f a l) as [[[[h1 outs1] tot1] chs1]|] eqn:Hf
  end; cbn [mbind option_bind fst snd] in Hp; [|discriminate].
  apply processChannel_fold in Hf as (Hsame & Htot & new & Hnew & Hall).
  simpl in Hnew. subst chs1.
  pose proof (imap_pair_snd (workletProcessorChannels st)) as Hsnd.
  rewrite Hsnd in Htot, Hall. rewrite Z.add_0_l in Htot. subst tot1.
  injection Hp as <- <-.
  destruct (renderedCount (workletProcessorChannels st) =? totalVoicesAmount st) eqn:E;
    simpl; [apply Z.eqb_eq in E|]; done.
Qed.

End Process.

Section MissingSample.
Context {JSMath : MathObject} {Utilities : WorkletUtilities}.
Variable scope : AudioWorkletGlobalScope.

(** C9.  If the sample store has no entry for a voice's sampleID,
    rendering the voice is a no-op: [renderVoice] (of either processor)
    returns the voice and the main, reverb and chorus outputs as they
    were.  A block leaves such a voice as it was and, when it was not
    finished, in its channel's list; and a sample dump for its id puts the
    entry in the store. *)
Theorem missing_sample_render_is_noop (st : WorkletProcessor) (voice : WorkletVoice) :
  workletDumpedSamplesList st !! sampleID (sample voice) = None →
  (∀ channel output reverbOutput chorusOutput,
     renderVoice scope (workletDumpedSamplesList st) channel voice
       output reverbOutput chorusOutput
     = Some (voice, (output, reverbOutput, chorusOutput)))
  ∧ (∀ (cp : ChannelProcessor.t) output reverbOutput chorusOutput,
       ChannelProcessor.workletDumpedSamplesList cp = workletDumpedSamplesList st →
       ChannelProcessor.renderVoice scope cp voice output reverbOutput chorusOutput
       = Some (voice, (output, reverbOutput, chorusOutput)))
  ∧ (∀ outputs st' outputs' i c r,
       process scope st outputs = Some (st', outputs') →
       workletProcessorChannels st !! i = Some c →
       r ∈ voices c → heap st r = voice → finished voice = false →
       heap st' r = voice
       ∧ ∃ c', workletProcessorChannels st' !! i = Some c' ∧ r ∈ voices c')
  ∧ (∀ ch c sampleData,
       workletProcessorChannels st !! ch = Some c →
       ∃ st', handleMessage scope st
                {| messageChannel := ch;
                   messageType := sampleDump (sampleID (sample voice)) sampleData |}
              = Some st'
              ∧ workletDumpedSamplesList st' !! sampleID (sample voice) = Some sampleData).
Proof.
  intros Hnone. repeat split.
  - intros. by apply renderVoice_awaitsSample.
  - intros cp out rev cho Hcp. unfold ChannelProcessor.renderVoice. rewrite Hcp.
    by apply renderVoice_awaitsSample.
  - subst voice.
    destruct (process_spec scope _ st outputs st' outputs' eq_refl H) as (Hsame & _).
    by apply Hsame.
  - subst voice.
    destruct (process_spec scope _ st outputs st' outputs' eq_refl H) as (_ & Hall & _).
    destruct (Forall2_lookup_l _ _ _ _ _ Hall H0) as (c' & Hc' & _ & kept & -> & _ & Hin).
    exists (set_voices c kept). split; [exact Hc'|]. by apply Hin.
  - intros ch c sampleData Hc. unfold handleMessage.
    cbn [messageChannel messageType]. rewrite Hc. cbn [mbind option_bind].
    eexists. split; [reflexivity|]. simpl. apply lookup_insert_eq.
Qed.


End MissingSample.

(** The voice of [Examples.awaitingVoice] is rendered to nothing and is
    still there after the block. *)
Lemma missing_sample_render_is_noop_witness :
  workletDumpedSamplesList Examples.awaitingVoice
    !! sampleID (sample (Examples.plainVoice 0 60 100)) = None
  ∧ renderVoice (JSMath := Examples.math) (Utilities := Examples.utilities)
      Examples.scope ∅ (Examples.newChannel false [0%nat] [])
      (Examples.plainVoice 0 60 100) None None None
    = Some (Examples.plainVoice 0 60 100, (None, None, None))
  ∧ ∃ st' outputs',
      process (JSMath := Examples.math) (Utilities := Examples.utilities)
        Examples.scope Examples.awaitingVoice Examples.outputs = Some (st', outputs')
      ∧ heap st' 0%nat = Examples.plainVoice 0 60 100
      ∧ ∃ c', workletProcessorChannels st' !! 0%nat = Some c' ∧ 0%nat ∈ voices c'.
Proof.
  split; [reflexivity|].
  destruct (missing_sample_render_is_noop (JSMath := Examples.math)
              (Utilities := Examples.utilities) Examples.scope
              Examples.awaitingVoice (Examples.plainVoice 0 60 100) eq_refl)
    as (Hrender & _ & Hblock & _).
  split; [apply Hrender|].
  eexists _, _. split; [reflexivity|].
  eapply Hblock; [reflexivity|reflexivity|left|reflexivity|reflexivity].
Defined.



(** ** The mod LFO *)

Section ModLfo.
Context {JSMath : MathObject} {Utilities : WorkletUtilities}.
Variable scope : AudioWorkletGlobalScope.


End ModLfo.



(** ** Exclusive class *)

Section ExclusiveClass.
Context {Utilities : WorkletUtilities}.
Variable scope : AudioWorkletGlobalScope.
Variable controllers : list Z.

(** What the matching branch of the inner loop does to a voice. *)
Let cut (v : WorkletVoice) : WorkletVoice :=
  recomputeModulators controllers
    (set_generators (releaseVoice scope v)
       (JS.set16 (generators (releaseVoice scope v)) generatorTypes.releaseVolEnv (-7200))).

(** What the loop does not change of a voice. *)
Let same (v v0 : WorkletVoice) : Prop :=
  startTime v = startTime v0
  ∧ exclusiveClassOf v = exclusiveClassOf v0
  ∧ length (generators v) = length (generators v0).

Let wasCut (v0 v : WorkletVoice) : Prop := ∃ v1, v = cut v1 ∧ same v1 v0.

Lemma exclusiveCutoff_other e v :
  exclusiveClassOf v ≠ e → exclusiveCutoff scope controllers e v = v.
Proof.
  intros Hne. unfold exclusiveCutoff. fold (exclusiveClassOf v).
  by destruct (Z.eqb_spec (exclusiveClassOf v) e).
Qed.

Lemma exclusiveCutoff_match v :
  exclusiveCutoff scope controllers (exclusiveClassOf v) v = cut v.
Proof.
  unfold exclusiveCutoff. fold (exclusiveClassOf v). by rewrite Z.eqb_refl.
Qed.

Lemma same_cut v : same (cut v) v.
Proof.
  unfold same, cut, exclusiveClassOf. rewrite !releaseVoice_eq. simpl.
  repeat split.
  - unfold JS.get, JS.set16. by rewrite list_lookup_insert_ne.
  - unfold JS.set16. apply length_insert.
Qed.

Lemma same_trans v1 v2 v3 : same v1 v2 → same v2 v3 → same v1 v3.
Proof. unfold same. intros (-> & -> & ->) (-> & -> & ->). done. Qed.

Lemma wasCut_same v0 v : wasCut v0 v → same v v0.
Proof. intros (v1 & -> & Hs). eapply same_trans; [apply same_cut|exact Hs]. Qed.

Lemma wasCut_trans v0 v1 v2 : wasCut v0 v1 → wasCut v1 v2 → wasCut v0 v2.
Proof.
  intros H1 (v & -> & Hs). exists v. split; [done|].
  eapply same_trans; [exact Hs|]. by apply wasCut_same.
Qed.

(** One pass of the inner loop, for the class [e] of an incoming voice. *)
Lemma exclusive_pass_other e l h r :
  exclusiveClassOf (h r) ≠ e →
  forEach_voice (exclusiveCutoff scope controllers e) l h r = h r.
Proof.
  intros Hne.
  apply (forEach_voice_keeps (λ v, v = h r)); [|done].
  intros v ->. by apply exclusiveCutoff_other.
Qed.

Lemma exclusive_pass_match l h r :
  r ∈ l →
  wasCut (h r) (forEach_voice (exclusiveCutoff scope controllers (exclusiveClassOf (h r))) l h r).
Proof.
  intros Hin.
  apply (forEach_voice_establishes (λ v, v = h r) (wasCut (h r))); try done.
  - intros v ->. right. rewrite exclusiveCutoff_match. by exists (h r).
  - intros v ->. rewrite exclusiveCutoff_match. by exists (h r).
  - intros v Hc. pose proof (wasCut_same _ _ Hc) as (_ & He & _).
    rewrite <- He, exclusiveCutoff_match. exists v. split; [done|].
    by apply wasCut_same.
Qed.

(** The incoming voice as it is pushed. *)
Let prepared (voice : WorkletVoice) : WorkletVoice :=
  set_currentAttenuationDb (recomputeModulators controllers voice) 100.

Lemma cutsOff_cons voice data v :
  cutsOff (voice :: data) v
  ↔ (exclusiveClassOf voice ≠ 0 ∧ exclusiveClassOf v = exclusiveClassOf voice)
    ∨ cutsOff data v.
Proof.
  unfold cutsOff. split.
  - intros (x & Hin & Hx). apply elem_of_cons in Hin as [->|Hin]; [by left|].
    right. by exists x.
  - intros [Hx|(x & Hin & Hx)]; [exists voice|exists x];
      (split; [|done]); [left|by right].
Qed.

Lemma cutsOff_same data v v0 : same v v0 → cutsOff data v ↔ cutsOff data v0.
Proof. intros (_ & He & _). unfold cutsOff. by rewrite He. Qed.

(** The outer loop over the incoming voices, for a channel [c] whose
    controller table is [controllers]. *)
Lemma noteOn_fold (c : WorkletProcessorChannel) data :
  midiControllers c = controllers →
  ∀ h acc,
    let res := foldl (noteOnVoice scope c) (h, acc) data in
    res.2 = acc ++ (prepared <$> data)
    ∧ (∀ r, r ∉ voices c ∨ ¬ cutsOff data (h r) → res.1 r = h r)
    ∧ (∀ r, r ∈ voices c → cutsOff data (h r) → wasCut (h r) (res.1 r)).
Proof.
  intros Hctl. induction data as [|voice data IH]; intros h acc res.
  - subst res. simpl. rewrite app_nil_r. split; [done|]. split; [done|].
    intros r _ (x & Hin & _). by apply elem_of_nil in Hin.
  - subst res. cbn [foldl].
    pose (h1 := if negb (exclusiveClassOf voice =? 0)
                then forEach_voice
                       (exclusiveCutoff scope controllers (exclusiveClassOf voice))
                       (voices c) h
                else h).
    assert (Hstep : noteOnVoice scope c (h, acc) voice = (h1, acc ++ [prepared voice])).
    { unfold noteOnVoice. cbn [fst snd]. rewrite Hctl. reflexivity. }
    rewrite Hstep.
    destruct (IH h1 (acc ++ [prepared voice])) as (Hacc & Hother & Hcut).
    assert (Hh1 : ∀ r, r ∉ voices c
                       ∨ ¬ (exclusiveClassOf voice ≠ 0
                            ∧ exclusiveClassOf (h r) = exclusiveClassOf voice) →
                       h1 r = h r).
    { intros r Hr. subst h1.
      destruct (Z.eqb_spec (exclusiveClassOf voice) 0) as [He|He]; simpl; [done|].
      destruct Hr as [Hr|Hr]; [by apply forEach_voice_notin|].
      apply exclusive_pass_other. intros Heq. apply Hr. done. }
    assert (Hh1' : ∀ r, r ∈ voices c → exclusiveClassOf voice ≠ 0 →
                        exclusiveClassOf (h r) = exclusiveClassOf voice →
                        wasCut (h r) (h1 r)).
    { intros r Hr He Heq. subst h1.
      destruct (Z.eqb_spec (exclusiveClassOf voice) 0) as [He'|_]; [done|]. simpl.
      rewrite <- Heq. by apply exclusive_pass_match. }
    split; [|split].
    + rewrite Hacc, <- app_assoc. done.
    + intros r Hr. rewrite Hother.
      * apply Hh1. destruct Hr as [Hr|Hr]; [by left|].
        right. intros Hm. apply Hr. apply cutsOff_cons. by left.
      * destruct Hr as [Hr|Hr]; [by left|]. right.
        rewrite Hh1; [intros Hc; apply Hr, cutsOff_cons; by right|].
        right. intros Hm. apply Hr. apply cutsOff_cons. by left.
    + intros r Hr Hc.
      destruct (decide (exclusiveClassOf voice ≠ 0
                        ∧ exclusiveClassOf (h r) = exclusiveClassOf voice))
        as [[He Heq]|Hno].
      * pose proof (Hh1' r Hr He Heq) as Hw.
        destruct (decide (cutsOff data (h1 r))) as [Hc1|Hc1].
        -- eapply wasCut_trans; [exact Hw|]. by apply Hcut.
        -- rewrite Hother by (by right). exact Hw.
      * assert (E : h1 r = h r) by (apply Hh1; by right).
        apply cutsOff_cons in Hc as [Hc|Hc]; [contradiction|].
        specialize (Hcut r Hr). rewrite E in Hcut. by apply Hcut.
Qed.

Lemma pushVoices_below data : ∀ next h r,
  (r < next)%nat → pushVoices data next h r = h r.
Proof.
  induction data as [|v data IH]; intros next h r Hr; simpl; [done|].
  rewrite IH by lia. apply fn_lookup_insert_ne. lia.
Qed.

Lemma pushVoices_at data : ∀ next h i v,
  data !! i = Some v → pushVoices data next h (next + i)%nat = v.
Proof.
  induction data as [|x data IH]; intros next h i v Hi; [done|].
  destruct i as [|i]; simpl in *.
  - injection Hi as ->. rewrite pushVoices_below by lia.
    rewrite Nat.add_0_r. apply fn_lookup_insert.
  - replace (next + S i)%nat with (S next + i)%nat by lia. by apply IH.
Qed.

(** The [noteOn] case up to the push, on a channel whose controller table
    is [controllers] and whose voices were allocated below [next]. *)
Lemma handleNoteOnPush_spec (c : WorkletProcessorChannel) data next h :
  midiControllers c = controllers →
  (∀ r, r ∈ voices c → (r < next)%nat) →
  let pushed := handleNoteOnPush scope data c next h in
  voices pushed.2 = voices c ++ seq next (length data)
  ∧ (∀ i voice, data !! i = Some voice →
       pushed.1 (next + i)%nat
       = set_currentAttenuationDb (recomputeModulators controllers voice) 100)
  ∧ (∀ r, r ∈ voices c → cutsOff data (h r) →
       (generatorTypes.releaseVolEnv < length (generators (h r)))%nat →
       ∃ v, pushed.1 r = recomputeModulators controllers v
            ∧ JS.get (generators v) generatorTypes.releaseVolEnv = -7200
            ∧ releaseStartTime v = Some (releaseTime scope (h r)))
  ∧ (∀ r, r ∈ voices c → ¬ cutsOff data (h r) → pushed.1 r = h r).
Proof.
  intros Hctl Hfresh pushed. subst pushed. unfold handleNoteOnPush. cbn [fst snd].
  destruct (noteOn_fold c data Hctl h []) as (Hacc & Hother & Hcut).
  split; [done|]. split; [|split].
  - intros i voice Hi. rewrite Hacc. simpl.
    apply pushVoices_at. by rewrite list_lookup_fmap, Hi.
  - intros r Hr Hc Hlen. rewrite pushVoices_below by (by apply Hfresh).
    destruct (Hcut r Hr Hc) as (v1 & -> & Hst & _ & Hl).
    eexists. split; [reflexivity|]. rewrite !releaseVoice_eq. simpl. split.
    + unfold JS.get, JS.set16. rewrite list_lookup_insert_eq by lia. done.
    + unfold releaseTime. by rewrite Hst.
  - intros r Hr Hc. rewrite pushVoices_below by (by apply Hfresh).
    apply Hother. by right.
Qed.

End ExclusiveClass.

Section NoteOn.
Context {JSMath : MathObject} {Utilities : WorkletUtilities}.
Variable scope : AudioWorkletGlobalScope.

Lemma killVoice_heap st voice st' : killVoice st voice = Some st' → heap st' = heap st.
Proof.
  unfold killVoice. destruct (_ !! _); [|done]. simpl. by intros [= <-].
Qed.

Lemma voiceKilling_heap st amount st' :
  voiceKilling st amount = Some st' → heap st' = heap st.
Proof.
  unfold voiceKilling.
  generalize (take (if (length (voicesOrderedByVelocity st) <? amount)%nat
                    then length (voicesOrderedByVelocity st) else amount)
                (voicesOrderedByVelocity st)).
  intros l.
  assert (Hl : ∀ acc st1, foldl (λ acc voice, st ← acc; killVoice st voice) acc l = Some st1 →
                 ∃ st0, acc = Some st0 ∧ heap st1 = heap st0).
  { induction l as [|x l IH]; intros acc st1 Hf; simpl in Hf.
    - by exists st1.
    - apply IH in Hf as (st0 & Hacc & Hh). destruct acc as [sta|]; [|done].
      simpl in Hacc. exists sta. split; [done|].
      rewrite Hh. by eapply killVoice_heap. }
  destruct (foldl _ _ l) as [st1|] eqn:Hf; [|done]. simpl. intros [= <-].
  apply Hl in Hf as (st0 & [= <-] & Hh). done.
Qed.

(** X2.  A [noteOn] processes every incoming voice before it appends the
    incoming voices to the channel's list (at fresh references, after the
    voices that were there).  A voice that was live on the channel and
    has the exclusive class of an incoming voice whose class is nonzero
    ends with [releaseVolEnv] forced to -7200 in its generators, with its
    [releaseStartTime] set, and with its modulated generators recomputed
    by [computeModulators] from that state; a live voice of the channel
    with another or a zero class is untouched.  Voice stealing afterwards
    changes no voice.  The same holds of the channel processor. *)
Theorem exclusive_class_cuts_off_live_voices (st : WorkletProcessor) (ch : nat)
    (c : WorkletProcessorChannel) (data : list WorkletVoice) :
  workletProcessorChannels st !! ch = Some c →
  (∀ r, r ∈ voices c → (r < nextRef st)%nat) →
  let message := {| messageChannel := ch; messageType := noteOn data |} in
  let pushed := handleNoteOnPush scope data c (nextRef st) (heap st) in
  voices pushed.2 = voices c ++ seq (nextRef st) (length data)
  ∧ (∀ i voice, data !! i = Some voice →
       pushed.1 (nextRef st + i)%nat
       = set_currentAttenuationDb (recomputeModulators (midiControllers c) voice) 100)
  ∧ (∀ r, r ∈ voices c → cutsOff data (heap st r) →
       (generatorTypes.releaseVolEnv < length (generators (heap st r)))%nat →
       ∃ v, pushed.1 r = recomputeModulators (midiControllers c) v
            ∧ JS.get (generators v) generatorTypes.releaseVolEnv = -7200
            ∧ releaseStartTime v = Some (releaseTime scope (heap st r)))
  ∧ (∀ r, r ∈ voices c → ¬ cutsOff data (heap st r) → pushed.1 r = heap st r)
  ∧ (∀ st', handleMessage scope st message = Some st' → heap st' = pushed.1)
  ∧ (totalVoicesAmount st + Z.of_nat (length data) ≤ VOICE_CAP →
     ∃ st', handleMessage scope st message = Some st'
            ∧ workletProcessorChannels st' !! ch = Some pushed.2)
  ∧ (∀ cp : ChannelProcessor.t,
       ChannelProcessor.this cp = c →
       ChannelProcessor.nextRef cp = nextRef st →
       ChannelProcessor.heap cp = heap st →
       ChannelProcessor.heap (ChannelProcessor.handleMessage scope cp (noteOn data))
       = pushed.1).
Proof.
  intros Hc Hfresh message pushed.
  destruct (handleNoteOnPush_spec scope (midiControllers c) c data (nextRef st) (heap st)
              eq_refl Hfresh) as (Hv & Hnew & Hcut & Hother).
  split; [exact Hv|]. split; [exact Hnew|]. split; [exact Hcut|].
  split; [exact Hother|].
  assert (Hlt : (ch < length (workletProcessorChannels st))%nat)
    by (eapply lookup_lt_Some; exact Hc).
  split; [|split].
  - intros st'. unfold handleMessage. subst message.
    cbn [messageChannel messageType]. rewrite Hc. cbn [mbind option_bind].
    fold pushed. destruct (_ >? VOICE_CAP).
    + intros Hk. apply voiceKilling_heap in Hk. rewrite Hk. reflexivity.
    + intros [= <-]. reflexivity.
  - intros Hcap. unfold handleMessage. subst message.
    cbn [messageChannel messageType]. rewrite Hc. cbn [mbind option_bind].
    fold pushed.
    match goal with |- context [?a >? VOICE_CAP] =>
      replace (a >? VOICE_CAP) with false
        by (symmetry; rewrite Z.gtb_ltb; apply Z.ltb_ge; simpl; lia)
    end.
    eexists. split; [reflexivity|]. simpl. by apply list_lookup_insert_eq.
  - intros cp Hthis Hnext Hheap. destruct cp as [hp np tp dp pp].
    cbn in Hthis, Hnext, Hheap. subst tp np hp. reflexivity.
Qed.

End NoteOn.

(** The closed hi-hat cuts the open one off: on [Examples.drums], a
    note-on with [Examples.hiHatClosed] at time 2. *)
Lemma exclusive_class_cuts_off_live_voices_witness :
  workletProcessorChannels Examples.drums !! 0%nat
    = Some (Examples.newChannel false [0%nat] [])
  ∧ ∃ st' c',
      handleMessage (Utilities := Examples.utilities) Examples.scope Examples.drums
        {| messageChannel := 0; messageType := noteOn [Examples.hiHatClosed] |} = Some st'
      ∧ workletProcessorChannels st' !! 0%nat = Some c'
      ∧ voices c' = [0%nat; 1%nat]
      ∧ JS.get (generators (heap st' 0%nat)) generatorTypes.releaseVolEnv = -7200
      ∧ releaseStartTime (heap st' 0%nat) = Some 2%Q.
Proof.
  split; [reflexivity|].
  assert (Hfresh : ∀ r : ref, r ∈ [0%nat] → (r < 1)%nat).
  { intros r Hr. apply list_elem_of_singleton in Hr. subst r. lia. }
  destruct (exclusive_class_cuts_off_live_voices (Utilities := Examples.utilities)
              Examples.scope Examples.drums 0 _ [Examples.hiHatClosed] eq_refl Hfresh)
    as (Hv & _ & Hcut & _ & Hheap & Hsome & _).
  destruct Hsome as (st' & Hm & Hc'); [by vm_compute|].
  exists st'. eexists. split; [exact Hm|]. split; [exact Hc'|]. split; [exact Hv|].
  rewrite (Hheap st' Hm).
  destruct (Hcut 0%nat) as (v & -> & Hg & Hr).
  - left.
  - exists Examples.hiHatClosed. split; [left|]. split; [by vm_compute|reflexivity].
  - vm_compute. lia.
  - split; [exact Hg|exact Hr].
Defined.

(** ** Sample dumps *)



Section SampleDump.
Context {JSMath : MathObject} {Utilities : WorkletUtilities}.
Variable scope : AudioWorkletGlobalScope.









End SampleDump.


(** After the dump the cursor of the looping voice of [Examples.looping]
    is -1: a rehomed cursor may lie outside [0, end]. *)
Lemma sample_dump_leaves_cursor_below_zero :
  ∃ st',
    handleMessage (Utilities := Examples.utilities) Examples.scope Examples.looping
      {| messageChannel := 0; messageType := sampleDump 5 Examples.thousandFrames |}
    = Some st'
    ∧ sampleID (sample (heap st' 0%nat)) = 5%nat
    ∧ (cursor (sample (heap st' 0%nat)) == -1)%Q
    ∧ ¬ ((0 <= cursor (sample (heap st' 0%nat)))%Q
         ∧ (cursor (sample (heap st' 0%nat)) <= end_ (sample (heap st' 0%nat)))%Q).
Proof.
  eexists. split; [reflexivity|]. split; [reflexivity|]. split; [by vm_compute|].
  intros [Hneg _]. by vm_compute in Hneg.
Qed.

(** ** Releasing voices: [releaseVoice], [noteOff], [killNote], [stopAll] *)

Lemma ltb_true a b : JS.ltb a b = true ↔ (a < b)%Q.
Proof.
  unfold JS.ltb. rewrite negb_true_iff, <- not_true_iff_false, Qle_bool_iff.
  split; [apply Qnot_le_lt|apply Qlt_not_le].
Qed.

Lemma ltb_false a b : JS.ltb a b = false ↔ (b <= a)%Q.
Proof. unfold JS.ltb. rewrite negb_false_iff. apply Qle_bool_iff. Qed.

Lemma toInt16_id z : isInt16 z → JS.toInt16 z = z.
Proof.
  unfold isInt16, JS.toInt16. intros Hz.
  rewrite Z.mod_small by lia. lia.
Qed.

Lemma toInt16_range z : isInt16 (JS.toInt16 z).
Proof.
  unfold isInt16, JS.toInt16.
  pose proof (Z.mod_pos_bound (z + 32768) 65536 eq_refl). lia.
Qed.

Section Releasing.
Context {Utilities : WorkletUtilities}.
Variable scope : AudioWorkletGlobalScope.

(** X3.  [releaseVoice] changes [releaseStartTime] only, to the later of
    the current time and the end of the minimal note length
    ([startTime + MIN_NOTE_LENGTH]): a voice is never released before it
    has lasted 0.07 s, nor in the past.  Releasing again at the same time
    changes nothing. *)
Theorem releaseVoice_waits_for_minimal_note_length (v : WorkletVoice) :
  ∃ t, releaseVoice scope v = set_releaseStartTime v (Some t)
       ∧ (currentTime scope <= t)%Q
       ∧ (startTime v + MIN_NOTE_LENGTH <= t)%Q
       ∧ (t = currentTime scope ∨ t = (startTime v + MIN_NOTE_LENGTH)%Q)
       ∧ releaseVoice scope (releaseVoice scope v) = releaseVoice scope v.
Proof.
  exists (releaseTime scope v). split; [apply releaseVoice_eq|].
  unfold releaseTime.
  destruct (JS.ltb _ _) eqn:Hlt.
  - apply ltb_true in Hlt. repeat split; try lra; [by right|].
    apply releaseVoice_idempotent.
  - apply ltb_false in Hlt. repeat split; try lra; [by left|].
    apply releaseVoice_idempotent.
Qed.

(** The loop of [noteOff] when the pedal is up. *)
Lemma noteOff_released_fold data l : ∀ h sus,
  let res := foldl (noteOffVoice scope data false) (h, sus) l in
  res.2 = sus
  ∧ (∀ r, r ∈ l → noteOffMatches data (h r) = true →
          res.1 r = releaseVoice scope (h r))
  ∧ (∀ r, r ∉ l ∨ noteOffMatches data (h r) = false → res.1 r = h r).
Proof.
  induction l as [|x l IH]; intros h sus res; subst res.
  - simpl. split; [done|]. split; [|done]. intros r Hr. by apply elem_of_nil in Hr.
  - cbn [foldl].
    assert (Hstep : noteOffVoice scope data false (h, sus) x
                    = (if noteOffMatches data (h x)
                       then <[x := releaseVoice scope (h x)]> h else h, sus)).
    { unfold noteOffVoice, noteOffMatches. cbn [fst snd].
      destruct (midiNote (h x) =? data); [|done]. by destruct (isInRelease (h x)). }
    rewrite Hstep.
    set (h1 := if noteOffMatches data (h x)
               then <[x := releaseVoice scope (h x)]> h else h).
    destruct (IH h1 sus) as (Hsus & Hrel & Hsame).
    assert (Hm : ∀ r, noteOffMatches data (h1 r) = noteOffMatches data (h r)).
    { intros r. subst h1. destruct (noteOffMatches data (h x)) eqn:Hx; [|done].
      destruct (decide (x = r)) as [->|Hne].
      - rewrite fn_lookup_insert, releaseVoice_eq. reflexivity.
      - by rewrite fn_lookup_insert_ne. }
    assert (Hh1 : ∀ r, r ≠ x ∨ noteOffMatches data (h r) = false → h1 r = h r).
    { intros r Hr. subst h1. destruct (noteOffMatches data (h x)) eqn:Hx; [|done].
      destruct (decide (x = r)) as [->|Hne].
      - destruct Hr as [Hr|Hr]; [done|congruence].
      - by rewrite fn_lookup_insert_ne. }
    assert (Hhx : noteOffMatches data (h x) = true → h1 x = releaseVoice scope (h x)).
    { intros Hx. subst h1. rewrite Hx. apply fn_lookup_insert. }
    split; [exact Hsus|]. split.
    + intros r Hr Hmatch.
      destruct (decide (r ∈ l)) as [Hin|Hnin].
      * rewrite Hrel by (rewrite ?Hm; done).
        destruct (decide (r = x)) as [->|Hne].
        -- rewrite Hhx by done. apply releaseVoice_idempotent.
        -- by rewrite Hh1 by (by left).
      * rewrite Hsame by (by left).
        apply elem_of_cons in Hr as [->|Hr]; [by apply Hhx|done].
    + intros r Hr. rewrite Hsame.
      * apply Hh1. destruct Hr as [Hr|Hr]; [|by right].
        left. intros ->. apply Hr. left.
      * destruct Hr as [Hr|Hr]; [|right; by rewrite Hm].
        left. intros Hin. apply Hr. by right.
Qed.

(** X4.  A [noteOff(note)] with the pedal up releases every voice of the
    channel that plays [note] and is not yet in release, and touches
    nothing else: a voice of another note, a voice already in release and
    a voice of another channel keep their state, and the channel keeps its
    lists. *)
Theorem noteOff_releases_matching_voices (st : WorkletProcessor) (ch : nat)
    (c : WorkletProcessorChannel) (note : Z) :
  workletProcessorChannels st !! ch = Some c →
  holdPedal c = false →
  ∃ st',
    handleMessage scope st {| messageChannel := ch; messageType := noteOff note |} = Some st'
    ∧ workletProcessorChannels st' !! ch = Some c
    ∧ (∀ r, r ∈ voices c → midiNote (heap st r) = note → isInRelease (heap st r) = false →
            heap st' r
            = set_releaseStartTime (heap st r) (Some (releaseTime scope (heap st r))))
    ∧ (∀ r, r ∉ voices c ∨ midiNote (heap st r) ≠ note ∨ isInRelease (heap st r) = true →
            heap st' r = heap st r).
Proof.
  intros Hc Hp.
  assert (Hlt : (ch < length (workletProcessorChannels st))%nat)
    by (eapply lookup_lt_Some; exact Hc).
  unfold handleMessage. cbn [messageChannel messageType]. rewrite Hc.
  cbn [mbind option_bind]. unfold handleNoteOff. rewrite Hp.
  destruct (noteOff_released_fold note (voices c) (heap st) (sustainedVoices c))
    as (Hsus & Hrel & Hsame).
  eexists. split; [reflexivity|]. cbn [heap workletProcessorChannels with_heap_channels fst snd].
  split; [|split].
  - rewrite list_lookup_insert_eq by done. f_equal. rewrite Hsus. by destruct c.
  - intros r Hr Hn Hrel'. rewrite Hrel, ?releaseVoice_eq; try done.
    unfold noteOffMatches. rewrite Hrel'. simpl. rewrite andb_true_r. by apply Z.eqb_eq.
  - intros r Hr. apply Hsame. destruct Hr as [Hr|[Hr|Hr]]; [by left|right..].
    + unfold noteOffMatches. by apply andb_false_iff; left; apply Z.eqb_neq.
    + unfold noteOffMatches. rewrite Hr. apply andb_false_r.
Qed.

Lemma killNoteVoice_eq data v :
  killNoteVoice scope data v
  = if midiNote v =? data
    then set_releaseStartTime
           (set_modulatedGenerators v
              (<[generatorTypes.releaseVolEnv := -12000]> (modulatedGenerators v)))
           (Some (releaseTime scope v))
    else v.
Proof.
  unfold killNoteVoice. destruct (midiNote v =? data); cbn [negb]; [|done].
  rewrite releaseVoice_eq. reflexivity.
Qed.

Lemma killNoteVoice_idempotent data v :
  killNoteVoice scope data (killNoteVoice scope data v) = killNoteVoice scope data v.
Proof.
  rewrite (killNoteVoice_eq data (killNoteVoice scope data v)).
  rewrite (killNoteVoice_eq data v).
  destruct (midiNote v =? data) eqn:Hn; [|by rewrite Hn].
  cbn [midiNote set_releaseStartTime set_modulatedGenerators modulatedGenerators].
  rewrite Hn, list_insert_insert_eq. reflexivity.
Qed.

(** X5.  A [killNote(note)] acts on every voice of the channel that plays
    [note], in release or not and whatever the pedal: it sets
    [releaseVolEnv] of the modulated generators to -12000 and releases
    the voice.  Other voices and the channel's lists are untouched. *)
Theorem killNote_shortens_and_releases (st : WorkletProcessor) (ch : nat)
    (c : WorkletProcessorChannel) (note : Z) :
  workletProcessorChannels st !! ch = Some c →
  ∃ st',
    handleMessage scope st {| messageChannel := ch; messageType := killNote note |} = Some st'
    ∧ workletProcessorChannels st' !! ch = Some c
    ∧ (∀ r, r ∈ voices c → midiNote (heap st r) = note →
            heap st' r
            = set_releaseStartTime
                (set_modulatedGenerators (heap st r)
                   (<[generatorTypes.releaseVolEnv := -12000]>
                      (modulatedGenerators (heap st r))))
                (Some (releaseTime scope (heap st r))))
    ∧ (∀ r, r ∉ voices c ∨ midiNote (heap st r) ≠ note → heap st' r = heap st r).
Proof.
  intros Hc.
  assert (Hlt : (ch < length (workletProcessorChannels st))%nat)
    by (eapply lookup_lt_Some; exact Hc).
  unfold handleMessage. cbn [messageChannel messageType]. rewrite Hc.
  cbn [mbind option_bind].
  eexists. split; [reflexivity|]. cbn [heap workletProcessorChannels with_heap_channels fst snd].
  split; [by rewrite list_lookup_insert_eq|]. unfold handleKillNote. split.
  - intros r Hr Hn.
    rewrite forEach_voice_idempotent by (apply killNoteVoice_idempotent || exact Hr).
    rewrite killNoteVoice_eq. rewrite <- Z.eqb_eq in Hn. by rewrite Hn.
  - intros r [Hr|Hr]; [by apply forEach_voice_notin|].
    apply (forEach_voice_keeps (λ v, v = heap st r)); [|done].
    intros v ->. unfold killNoteVoice. apply Z.eqb_neq in Hr. by rewrite Hr.
Qed.

End Releasing.

(** ** Dispatch, channels and controllers *)

Section Dispatch.
Context {Utilities : WorkletUtilities}.
Variable scope : AudioWorkletGlobalScope.

(** X6.  [handleMessage] reads the voices of the channel the message
    names before it looks at the message type: a message for a channel
    that does not exist raises a TypeError whatever its type, also the
    types that never use the channel ([clearCache], [addNewChannel],
    [killNotes]). *)
Theorem handleMessage_throws_without_its_channel (st : WorkletProcessor) (ch : nat)
    (type : workletMessageType) :
  (length (workletProcessorChannels st) ≤ ch)%nat →
  handleMessage scope st {| messageChannel := ch; messageType := type |} = None.
Proof.
  intros Hch. unfold handleMessage. cbn [messageChannel].
  by rewrite (lookup_ge_None_2 _ _ Hch).
Qed.

Lemma stopAllVoice_idempotent v :
  stopAllVoice scope (stopAllVoice scope v) = stopAllVoice scope v.
Proof.
  unfold stopAllVoice. destruct (isInRelease v) eqn:Hr; [by rewrite Hr|].
  rewrite releaseVoice_eq. cbn [isInRelease set_releaseStartTime]. rewrite Hr.
  rewrite releaseVoice_eq. reflexivity.
Qed.

(** X7.  [stopAll(1)] empties the channel's voice list and posts the
    voice counts, but leaves the tracked total and [sustainedVoices] as
    they were; any other mode releases every voice of the channel that is
    not yet in release and drops none. *)
Theorem stopAll_drops_or_releases (st : WorkletProcessor) (ch : nat)
    (c : WorkletProcessorChannel) :
  workletProcessorChannels st !! ch = Some c →
  (∃ st',
     handleMessage scope st {| messageChannel := ch; messageType := stopAll 1 |} = Some st'
     ∧ workletProcessorChannels st'
       = <[ch := set_voices c []]> (workletProcessorChannels st)
     ∧ sustainedVoices (set_voices c []) = sustainedVoices c
     ∧ heap st' = heap st
     ∧ totalVoicesAmount st' = totalVoicesAmount st
     ∧ port st' = port st ++ [(λ c, length (voices c)) <$> workletProcessorChannels st'])
  ∧ (∀ mode, mode ≠ 1 → ∃ st',
       handleMessage scope st {| messageChannel := ch; messageType := stopAll mode |} = Some st'
       ∧ workletProcessorChannels st' !! ch = Some c
       ∧ port st' = port st
       ∧ (∀ r, r ∈ voices c → isInRelease (heap st r) = false →
               heap st' r
               = set_releaseStartTime (heap st r) (Some (releaseTime scope (heap st r))))
       ∧ (∀ r, r ∉ voices c ∨ isInRelease (heap st r) = true → heap st' r = heap st r)).
Proof.
  intros Hc.
  assert (Hlt : (ch < length (workletProcessorChannels st))%nat)
    by (eapply lookup_lt_Some; exact Hc).
  split.
  - unfold handleMessage. cbn [messageChannel messageType]. rewrite Hc.
    cbn [mbind option_bind]. eexists. split; [reflexivity|]. done.
  - intros mode Hmode. unfold handleMessage. cbn [messageChannel messageType].
    rewrite Hc. cbn [mbind option_bind]. apply Z.eqb_neq in Hmode. rewrite Hmode.
    eexists. split; [reflexivity|].
    cbn [heap workletProcessorChannels with_heap_channels fst snd port].
    split; [by rewrite list_lookup_insert_eq|]. split; [done|]. split.
    + intros r Hr Hrel.
      rewrite forEach_voice_idempotent by (apply stopAllVoice_idempotent || exact Hr).
      unfold stopAllVoice. rewrite Hrel. apply releaseVoice_eq.
    + intros r [Hr|Hr]; [by apply forEach_voice_notin|].
      apply (forEach_voice_keeps (λ v, v = heap st r)); [|done].
      intros v ->. unfold stopAllVoice. by rewrite Hr.
Qed.

Lemma iter_createWorkletChannel n st0 :
  workletProcessorChannels (Nat.iter n createWorkletChannel st0)
  = workletProcessorChannels st0 ++ replicate n freshChannel.
Proof.
  induction n as [|n IH]; [by rewrite app_nil_r|].
  change (Nat.iter (S n) createWorkletChannel st0)
    with (createWorkletChannel (Nat.iter n createWorkletChannel st0)).
  unfold createWorkletChannel at 1.
  cbn [workletProcessorChannels with_heap_channels]. rewrite IH.
  change (resetControllers _ []) with freshChannel.
  rewrite <- app_assoc. f_equal. symmetry. apply replicate_cons_app.
Qed.

Lemma iter_createWorkletChannel_total n st0 :
  totalVoicesAmount (Nat.iter n createWorkletChannel st0) = totalVoicesAmount st0.
Proof. induction n as [|n IH]; [done|]. exact IH. Qed.

(** X8.  [addNewChannel] appends one channel with the default controller
    table, no voice, pedal up and not muted; the channels that were there,
    the voices, the tracked total and the port are untouched.  The
    constructor makes [midiChannels] such channels. *)
Theorem addNewChannel_appends_fresh_channel (st : WorkletProcessor) (ch : nat)
    (c : WorkletProcessorChannel) :
  workletProcessorChannels st !! ch = Some c →
  ∃ st',
    handleMessage scope st {| messageChannel := ch; messageType := addNewChannel |} = Some st'
    ∧ workletProcessorChannels st' = workletProcessorChannels st ++ [freshChannel]
    ∧ heap st' = heap st
    ∧ totalVoicesAmount st' = totalVoicesAmount st
    ∧ port st' = port st
    ∧ ∀ n, workletProcessorChannels (constructor n) = replicate n freshChannel
           ∧ totalVoicesAmount (constructor n) = 0.
Proof.
  intros Hc. unfold handleMessage. cbn [messageChannel messageType]. rewrite Hc.
  cbn [mbind option_bind]. eexists. split; [reflexivity|].
  split; [reflexivity|]. repeat split;
    unfold constructor; by rewrite ?iter_createWorkletChannel, ?iter_createWorkletChannel_total.
Qed.

End Dispatch.

(** ** [resetControllers] *)

Lemma resetArray_length : length resetArray = CONTROLLER_TABLE_SIZE.
Proof. reflexivity. Qed.

Lemma resetArray_int16 : Forall isInt16 resetArray.
Proof. apply (bool_decide_unpack (Forall isInt16 resetArray)). by vm_compute. Qed.

Lemma typedArray_set_resetArray a :
  length a = CONTROLLER_TABLE_SIZE → typedArray_set a resetArray = resetArray.
Proof.
  intros Ha. unfold typedArray_set.
  rewrite take_ge by (rewrite Ha, resetArray_length; lia).
  rewrite drop_ge by (rewrite Ha, resetArray_length; lia).
  apply app_nil_r.
Qed.

(** The loop that restores the excluded controllers from the table [o]
    they were read from. *)
Lemma restore_excluded_fold (o : list Z) (ex : list nat) :
  Forall isInt16 o →
  ∀ t, length t = length o →
    let r := foldl (λ t (cc : nat * option Z),
                      match cc.2 with
                      | Some ccVal => JS.set16 t cc.1 ccVal
                      | None => t
                      end) t ((λ ccNum, (ccNum, o !! ccNum)) <$> ex) in
    length r = length o
    ∧ ∀ i, r !! i = if decide (i ∈ ex) then o !! i else t !! i.
Proof.
  intros Ho. induction ex as [|x ex IH]; intros t Ht r; subst r.
  - simpl. split; [done|]. intros i.
    destruct (decide (i ∈ [])) as [Hi|Hi]; [by apply elem_of_nil in Hi|done].
  - rewrite fmap_cons. cbn [foldl fst snd].
    set (t1 := match o !! x with Some ccVal => JS.set16 t x ccVal | None => t end).
    assert (Ht1 : length t1 = length o).
    { subst t1. destruct (o !! x); [|done]. unfold JS.set16. by rewrite length_insert. }
    destruct (IH t1 Ht1) as (Hlen & Hlook). split; [exact Hlen|].
    intros i. rewrite Hlook.
    destruct (decide (i ∈ ex)) as [Hi|Hi]; [by rewrite decide_True by (by right)|].
    destruct (decide (i = x)) as [->|Hne].
    + rewrite decide_True by left. subst t1.
      destruct (o !! x) as [v|] eqn:Hx.
      * unfold JS.set16. rewrite list_lookup_insert_eq
          by (rewrite Ht; by eapply lookup_lt_Some).
        f_equal. apply toInt16_id. by eapply (Forall_lookup_1 _ _ _ _ Ho).
      * apply lookup_ge_None. rewrite Ht. by apply lookup_ge_None.
    + rewrite decide_False by (intros [?|?]%elem_of_cons; done).
      subst t1. destruct (o !! x); [|done].
      unfold JS.set16. by rewrite list_lookup_insert_ne.
Qed.

Lemma resetControllers_lookup c excluded :
  length (midiControllers c) = CONTROLLER_TABLE_SIZE →
  Forall isInt16 (midiControllers c) →
  length (midiControllers (resetControllers c excluded)) = CONTROLLER_TABLE_SIZE
  ∧ ∀ i, midiControllers (resetControllers c excluded) !! i
         = if decide (i ∈ excluded ∨ i = transposeSlot)
           then midiControllers c !! i else resetArray !! i.
Proof.
  intros Hlen Hint. unfold resetControllers. cbn [midiControllers].
  rewrite typedArray_set_resetArray by done.
  set (t1 := JS.set16 resetArray _ _).
  assert (Ht1 : length t1 = length (midiControllers c)).
  { subst t1. unfold JS.set16. by rewrite length_insert, Hlen. }
  destruct (restore_excluded_fold (midiControllers c) excluded Hint t1 Ht1) as (Hl & Hlook).
  split; [by rewrite Hl|].
  intros i. rewrite Hlook.
  destruct (decide (i ∈ excluded)) as [Hi|Hi]; [by rewrite decide_True by (by left)|].
  fold transposeSlot in t1. subst t1. unfold JS.set16, JS.get.
  destruct (decide (i = transposeSlot)) as [->|Hne].
  - rewrite decide_True by (by right).
    rewrite list_lookup_insert_eq by (rewrite resetArray_length; vm_compute; lia).
    destruct (midiControllers c !! transposeSlot) as [v|] eqn:Hv.
    + simpl. f_equal. apply toInt16_id. by eapply (Forall_lookup_1 _ _ _ _ Hint).
    + apply lookup_ge_None in Hv. rewrite Hlen in Hv. vm_compute in Hv. lia.
  - rewrite decide_False by (intros [?|?]; done).
    by rewrite list_lookup_insert_ne.
Qed.

(** X9.  [resetControllers] puts every controller back to its default,
    except [channelTranspose] and the excluded controllers, which keep
    their value; it lifts the pedal and zeroes the channel vibrato, but
    keeps the voices and the sustained voices as they are (nothing is
    released).  Resetting twice with the same exclusions is resetting
    once. *)
Theorem resetControllers_keeps_transpose_and_excluded (c : WorkletProcessorChannel)
    (excluded : list nat) :
  length (midiControllers c) = CONTROLLER_TABLE_SIZE →
  Forall isInt16 (midiControllers c) →
  let c' := resetControllers c excluded in
  length (midiControllers c') = CONTROLLER_TABLE_SIZE
  ∧ (∀ i, i ∈ excluded ∨ i = transposeSlot →
          midiControllers c' !! i = midiControllers c !! i)
  ∧ (∀ i, i ∉ excluded → i ≠ transposeSlot → midiControllers c' !! i = resetArray !! i)
  ∧ holdPedal c' = false
  ∧ channelVibrato c' = {| depth := 0; delay := 0; rate := 0 |}
  ∧ voices c' = voices c
  ∧ sustainedVoices c' = sustainedVoices c
  ∧ resetControllers c' excluded = c'.
Proof.
  intros Hlen Hint c'. subst c'.
  destruct (resetControllers_lookup c excluded Hlen Hint) as (Hl & Hlook).
  split; [exact Hl|]. split; [|split].
  - intros i Hi. rewrite Hlook. by rewrite decide_True.
  - intros i Hi Hne. rewrite Hlook. by rewrite decide_False by (intros [?|?]; done).
  - repeat split.
    assert (Hint' : Forall isInt16 (midiControllers (resetControllers c excluded))).
    { apply Forall_lookup. intros i x Hx. rewrite Hlook in Hx. case_decide.
      - by eapply (Forall_lookup_1 _ _ _ _ Hint).
      - by eapply (Forall_lookup_1 _ _ _ _ resetArray_int16). }
    destruct (resetControllers_lookup (resetControllers c excluded) excluded Hl Hint')
      as (_ & Hlook').
    assert (Ht : midiControllers (resetControllers (resetControllers c excluded) excluded)
                 = midiControllers (resetControllers c excluded)).
    { apply list_eq. intros i. rewrite Hlook'. case_decide; [done|].
      rewrite Hlook. by rewrite decide_False. }
    unfold resetControllers at 1. unfold resetControllers at 1 in Ht.
    cbn [midiControllers] in Ht. rewrite Ht. reflexivity.
Qed.

(** ** Controller changes and skipped channels *)

Section Controllers.
Context {JSMath : MathObject} {Utilities : WorkletUtilities}.
Variable scope : AudioWorkletGlobalScope.

(** X10.  A [ccChange(cc, value)] that does not lift the pedal stores the
    value, wrapped to 16 bits, in slot [cc] of the channel's table (a slot
    outside the table is dropped), sets the pedal when [cc] is the
    sustain pedal, keeps both voice lists, and recomputes the modulated
    generators of every voice of the channel against the new table;
    nothing else of a voice changes and no other voice is touched. *)
Theorem ccChange_stores_value_and_recomputes (st : WorkletProcessor) (ch : nat)
    (c : WorkletProcessorChannel) (cc : nat) (value : Z) :
  workletProcessorChannels st !! ch = Some c →
  cc ≠ midiControllers.sustainPedal ∨ 64 ≤ value →
  ∃ st' c',
    handleMessage scope st {| messageChannel := ch; messageType := ccChange cc value |}
    = Some st'
    ∧ workletProcessorChannels st' !! ch = Some c'
    ∧ midiControllers c' = <[cc := JS.toInt16 value]> (midiControllers c)
    ∧ holdPedal c' = (Nat.eqb cc midiControllers.sustainPedal || holdPedal c)
    ∧ voices c' = voices c
    ∧ sustainedVoices c' = sustainedVoices c
    ∧ (∀ r, r ∈ voices c →
         ∃ v, heap st' r = recomputeModulators (midiControllers c') v
              ∧ set_modulatedGenerators v (modulatedGenerators (heap st r)) = heap st r)
    ∧ (∀ r, r ∉ voices c → heap st' r = heap st r).
Proof.
  intros Hc Hcc.
  assert (Hlt : (ch < length (workletProcessorChannels st))%nat)
    by (eapply lookup_lt_Some; exact Hc).
  unfold handleMessage. cbn [messageChannel messageType]. rewrite Hc.
  cbn [mbind option_bind].
  set (c1 := if Nat.eqb cc midiControllers.sustainPedal then set_holdPedal c true else c).
  assert (Hh : handleCcChange scope cc value c (heap st)
               = (forEach_voice
                    (recomputeModulators (JS.set16 (midiControllers c1) cc value))
                    (voices c1) (heap st),
                  set_midiControllers c1 (JS.set16 (midiControllers c1) cc value))).
  { unfold handleCcChange. subst c1.
    destruct (Nat.eqb_spec cc midiControllers.sustainPedal) as [->|Hne]; [|done].
    destruct Hcc as [Hcc|Hcc]; [done|].
    replace (value >=? 64) with true by (symmetry; rewrite Z.geb_leb; by apply Z.leb_le).
    done. }
  rewrite Hh. eexists _, _. split; [reflexivity|].
  cbn [heap workletProcessorChannels with_heap_channels fst snd].
  split; [by rewrite list_lookup_insert_eq|].
  assert (Hv : voices c1 = voices c) by (subst c1; by destruct (Nat.eqb _ _)).
  assert (Hm : midiControllers c1 = midiControllers c) by (subst c1; by destruct (Nat.eqb _ _)).
  cbn [midiControllers holdPedal voices sustainedVoices set_midiControllers].
  rewrite Hv, Hm.
  split; [done|]. split; [subst c1; by destruct (Nat.eqb _ _)|].
  split; [done|]. split; [subst c1; by destruct (Nat.eqb _ _)|]. split.
  - intros r Hr.
    apply (forEach_voice_establishes
             (λ v, v = heap st r)
             (λ x, ∃ v, x = recomputeModulators (JS.set16 (midiControllers c) cc value) v
                        ∧ set_modulatedGenerators v (modulatedGenerators (heap st r))
                          = heap st r)); try done.
    + intros v ->. right. exists (heap st r). split; [done|]. by destruct (heap st r).
    + intros v ->. exists (heap st r). split; [done|]. by destruct (heap st r).
    + intros x (v & -> & Hv'). eexists. split; [reflexivity|]. exact Hv'.
  - intros r Hr. by apply forEach_voice_notin.
Qed.

Lemma processChannel_fold_skipped dumped n ics :
  Forall (λ ic : nat * WorkletProcessorChannel, skipped ic.2 = true) ics →
  ∀ h outs tot done,
    foldl (processChannel scope dumped n) (Some (h, outs, tot, done)) ics
    = Some (h, outs, tot, done ++ ics.*2).
Proof.
  induction 1 as [|[i c] ics Hc _ IH]; intros h outs tot done.
  - by rewrite app_nil_r.
  - cbn [foldl]. unfold processChannel at 2. cbn [mbind option_bind fst snd].
    fold (skipped c). cbn [snd] in Hc. rewrite Hc, IH, fmap_cons, <- app_assoc. done.
Qed.

(** X11.  A block in which every channel is empty or muted renders
    nothing: voices, channels (a muted channel keeps all its voices,
    finished or not) and output buffers are as before, the tracked total
    becomes 0, and the voice counts are posted exactly when the total was
    not 0 before. *)
Theorem process_skips_empty_and_muted_channels (st : WorkletProcessor)
    (outputs : list Plane) :
  Forall (λ c, skipped c = true) (workletProcessorChannels st) →
  ∃ st',
    process scope st outputs = Some (st', outputs)
    ∧ heap st' = heap st
    ∧ workletProcessorChannels st' = workletProcessorChannels st
    ∧ totalVoicesAmount st' = 0
    ∧ port st'
      = if totalVoicesAmount st =? 0 then port st
        else port st ++ [(λ c, length (voices c)) <$> workletProcessorChannels st].
Proof.
  intros Hall. unfold process.
  rewrite processChannel_fold_skipped.
  - cbn [mbind option_bind fst snd]. rewrite imap_pair_snd.
    eexists. split; [reflexivity|].
    rewrite (Z.eqb_sym 0). cbn [totalVoicesAmount with_heap_channels].
    destruct (Z.eqb_spec (totalVoicesAmount st) 0) as [E|E]; simpl; rewrite ?E; done.
  - apply Forall_forall. intros [i c] Hic.
    apply list_elem_of_lookup in Hic as [k Hk].
    rewrite list_lookup_imap in Hk.
    destruct (workletProcessorChannels st !! k) as [c0|] eqn:Hk0; [|done].
    simpl in Hk. injection Hk as <- <-. cbn [snd].
    by eapply (Forall_lookup_1 _ _ _ _ Hall).
Qed.

End Controllers.

(** ** The extras at work on the example inputs *)

Lemma noteOff_releases_matching_voices_witness :
  workletProcessorChannels Examples.awaitingVoice !! 0%nat
    = Some (Examples.newChannel false [0%nat] [])
  ∧ ∃ st',
      handleMessage (Utilities := Examples.utilities) Examples.scope Examples.awaitingVoice
        {| messageChannel := 0; messageType := noteOff 60 |} = Some st'
      ∧ releaseStartTime (heap st' 0%nat) = Some 2%Q.
Proof.
  split; [reflexivity|].
  destruct (noteOff_releases_matching_voices (Utilities := Examples.utilities)
              Examples.scope Examples.awaitingVoice 0 _ 60 eq_refl eq_refl)
    as (st' & Hm & _ & Hrel & _).
  exists st'. split; [exact Hm|].
  rewrite (Hrel 0%nat); [reflexivity|left|reflexivity|reflexivity].
Defined.

Lemma killNote_shortens_and_releases_witness :
  workletProcessorChannels Examples.awaitingVoice !! 0%nat
    = Some (Examples.newChannel false [0%nat] [])
  ∧ ∃ st',
      handleMessage (Utilities := Examples.utilities) Examples.scope Examples.awaitingVoice
        {| messageChannel := 0; messageType := killNote 60 |} = Some st'
      ∧ JS.get (modulatedGenerators (heap st' 0%nat)) generatorTypes.releaseVolEnv = -12000
      ∧ releaseStartTime (heap st' 0%nat) = Some 2%Q.
Proof.
  split; [reflexivity|].
  destruct (killNote_shortens_and_releases (Utilities := Examples.utilities)
              Examples.scope Examples.awaitingVoice 0 _ 60 eq_refl)
    as (st' & Hm & _ & Hkill & _).
  exists st'. split; [exact Hm|].
  rewrite (Hkill 0%nat); [split; reflexivity|left|reflexivity].
Defined.

Lemma handleMessage_throws_without_its_channel_witness :
  (length (workletProcessorChannels Examples.awaitingVoice) ≤ 3)%nat
  ∧ handleMessage (Utilities := Examples.utilities) Examples.scope Examples.awaitingVoice
      {| messageChannel := 3; messageType := clearCache |} = None.
Proof.
  assert (H : (length (workletProcessorChannels Examples.awaitingVoice) ≤ 3)%nat)
    by (vm_compute; lia).
  split; [exact H|].
  exact (handleMessage_throws_without_its_channel (Utilities := Examples.utilities)
           Examples.scope Examples.awaitingVoice 3 clearCache H).
Defined.

Lemma stopAll_drops_or_releases_witness :
  workletProcessorChannels Examples.awaitingVoice !! 0%nat
    = Some (Examples.newChannel false [0%nat] [])
  ∧ ∃ st',
      handleMessage (Utilities := Examples.utilities) Examples.scope Examples.awaitingVoice
        {| messageChannel := 0; messageType := stopAll 1 |} = Some st'
      ∧ totalVoicesAmount st' = 1
      ∧ port st' = [[0%nat]].
Proof.
  split; [reflexivity|].
  destruct (stopAll_drops_or_releases (Utilities := Examples.utilities)
              Examples.scope Examples.awaitingVoice 0 _ eq_refl)
    as ((st' & Hm & Hchs & _ & _ & Htot & Hport) & _).
  exists st'. split; [exact Hm|]. split; [exact Htot|].
  rewrite Hport, Hchs. reflexivity.
Defined.

Lemma addNewChannel_appends_fresh_channel_witness :
  workletProcessorChannels Examples.awaitingVoice !! 0%nat
    = Some (Examples.newChannel false [0%nat] [])
  ∧ ∃ st',
      handleMessage (Utilities := Examples.utilities) Examples.scope Examples.awaitingVoice
        {| messageChannel := 0; messageType := addNewChannel |} = Some st'
      ∧ workletProcessorChannels st'
        = [Examples.newChannel false [0%nat] []; freshChannel].
Proof.
  split; [reflexivity|].
  destruct (addNewChannel_appends_fresh_channel (Utilities := Examples.utilities)
              Examples.scope Examples.awaitingVoice 0 _ eq_refl)
    as (st' & Hm & Hchs & _).
  exists st'. split; [exact Hm|exact Hchs].
Defined.

Lemma resetControllers_keeps_transpose_and_excluded_witness :
  let c' := resetControllers Examples.tweakedChannel [7%nat] in
  midiControllers Examples.tweakedChannel !! 7%nat = Some 50
  ∧ midiControllers c' !! 7%nat = Some 50
  ∧ midiControllers c' !! 146%nat = Some 3
  ∧ midiControllers c' !! 10%nat = Some 8192
  ∧ holdPedal c' = false
  ∧ sustainedVoices c' = [0%nat].
Proof.
  intros c'.
  assert (Hint : Forall isInt16 (midiControllers Examples.tweakedChannel)).
  { apply (bool_decide_unpack _). by vm_compute. }
  destruct (resetControllers_keeps_transpose_and_excluded Examples.tweakedChannel [7%nat]
              eq_refl Hint) as (_ & Hkeep & Hreset & Hp & _ & _ & Hs & _).
  split; [reflexivity|]. fold c' in Hkeep, Hreset, Hp, Hs.
  split; [rewrite Hkeep; [reflexivity|left; left]|].
  split; [rewrite Hkeep; [reflexivity|by right]|].
  split; [|split; [exact Hp|exact Hs]].
  rewrite Hreset; [reflexivity| |by vm_compute].
  intros Hin. apply list_elem_of_singleton in Hin. discriminate Hin.
Defined.

Lemma ccChange_stores_value_and_recomputes_witness :
  workletProcessorChannels Examples.awaitingVoice !! 0%nat
    = Some (Examples.newChannel false [0%nat] [])
  ∧ ∃ st' c',
      handleMessage (Utilities := Examples.utilities) Examples.scope Examples.awaitingVoice
        {| messageChannel := 0; messageType := ccChange 7 50 |} = Some st'
      ∧ workletProcessorChannels st' !! 0%nat = Some c'
      ∧ midiControllers c' !! 7%nat = Some 50
      ∧ holdPedal c' = false.
Proof.
  split; [reflexivity|].
  destruct (ccChange_stores_value_and_recomputes (Utilities := Examples.utilities)
              Examples.scope Examples.awaitingVoice 0 _ 7 50 eq_refl)
    as (st' & c' & Hm & Hc' & Hmc & Hp & _); [by left|].
  exists st', c'. split; [exact Hm|]. split; [exact Hc'|].
  rewrite Hmc, Hp. split; reflexivity.
Defined.

Lemma process_skips_empty_and_muted_channels_witness :
  Forall (λ c, skipped c = true) (workletProcessorChannels Examples.mutedChannel)
  ∧ ∃ st',
      process (JSMath := Examples.math) (Utilities := Examples.utilities)
        Examples.scope Examples.mutedChannel Examples.outputs
      = Some (st', Examples.outputs)
      ∧ totalVoicesAmount st' = 0
      ∧ port st' = [[1%nat]].
Proof.
  assert (H : Forall (λ c, skipped c = true)
                (workletProcessorChannels Examples.mutedChannel))
    by (repeat constructor).
  split; [exact H|].
  destruct (process_skips_empty_and_muted_channels (JSMath := Examples.math)
              (Utilities := Examples.utilities) Examples.scope
              Examples.mutedChannel Examples.outputs H)
    as (st' & Hp & _ & _ & Htot & Hport).
  exists st'. split; [exact Hp|]. split; [exact Htot|]. rewrite Hport. reflexivity.
Defined.

(** ** Voice stealing *)

Section SortByVelocity.
Variable h : Heap.

Lemma insertByVelocity_perm r l : insertByVelocity h r l ≡ₚ r :: l.
Proof.
  induction l as [|y l IH]; simpl; [done|].
  destruct (_ <=? _); [done|]. rewrite IH. apply Permutation_swap.
Qed.

Lemma sortByVelocity_perm l : sortByVelocity h l ≡ₚ l.
Proof.
  induction l as [|r l IH]; simpl; [done|].
  by rewrite insertByVelocity_perm, IH.
Qed.

Lemma insertByVelocity_sorted r l :
  StronglySorted (byVelocity h) l → StronglySorted (byVelocity h) (insertByVelocity h r l).
Proof.
  induction 1 as [|y l Hs IH Hy]; simpl; [repeat constructor|].
  destruct (Z.leb_spec (velocity (h r)) (velocity (h y))) as [Hle|Hgt].
  - constructor; [by constructor|]. constructor; [exact Hle|].
    eapply Forall_impl; [exact Hy|]. unfold byVelocity. intros z Hz. simpl in Hz. lia.
  - constructor; [exact IH|].
    rewrite insertByVelocity_perm. constructor; [unfold byVelocity; lia|exact Hy].
Qed.

Lemma sortByVelocity_sorted l : StronglySorted (byVelocity h) (sortByVelocity h l).
Proof.
  induction l as [|r l IH]; simpl; [constructor|]. by apply insertByVelocity_sorted.
Qed.

Lemma insertByVelocity_stable v r l :
  base.filter (λ x, velocity (h x) = v) (insertByVelocity h r l)
  = base.filter (λ x, velocity (h x) = v) (r :: l).
Proof.
  induction l as [|y l IH]; simpl; [done|].
  destruct (Z.leb_spec (velocity (h r)) (velocity (h y))) as [Hle|Hgt]; [done|].
  rewrite (filter_cons _ y), IH, !(filter_cons _ r), !(filter_cons _ y).
  repeat case_decide; try done; lia.
Qed.

Lemma sortByVelocity_stable v l :
  base.filter (λ x, velocity (h x) = v) (sortByVelocity h l)
  = base.filter (λ x, velocity (h x) = v) l.
Proof.
  induction l as [|r l IH]; simpl; [done|].
  by rewrite insertByVelocity_stable, !(filter_cons _ r), IH.
Qed.

End SortByVelocity.

(** X12.  The list [voiceKilling] works on holds the voices of all
    channels, each as often as the lists hold it, in ascending order of
    velocity, and voices of equal velocity stay in the order of the
    channels and of their lists. *)
Theorem voicesOrderedByVelocity_is_a_stable_sort (st : WorkletProcessor) :
  voicesOrderedByVelocity st ≡ₚ allVoices st
  ∧ StronglySorted (byVelocity (heap st)) (voicesOrderedByVelocity st)
  ∧ ∀ v, base.filter (λ r, velocity (heap st r) = v) (voicesOrderedByVelocity st)
         = base.filter (λ r, velocity (heap st r) = v) (allVoices st).
Proof.
  unfold voicesOrderedByVelocity, allVoices. split; [apply sortByVelocity_perm|].
  split; [apply sortByVelocity_sorted|]. intros v. apply sortByVelocity_stable.
Qed.

(** [indexOf] and [splice] *)

Lemma splice_at (l : list ref) (i n : nat) :
  (i ≤ length l)%nat → splice l (Z.of_nat i) n = take i l ++ drop (i + n) l.
Proof.
  intros Hi. unfold splice.
  replace (Z.of_nat i <? 0) with false by (symmetry; apply Z.ltb_ge; lia).
  by replace (Z.to_nat (Z.min (Z.of_nat i) (Z.of_nat (length l)))) with i by lia.
Qed.

(** A start of -1 removes the last element. *)
Lemma splice_minus_one (l : list ref) :
  splice l (-1) 1 = take (length l - 1) l.
Proof.
  unfold splice. cbn [Z.ltb Z.compare].
  replace (Z.to_nat (Z.max (Z.of_nat (length l) + -1) 0)) with (length l - 1)%nat by lia.
  rewrite drop_ge by lia. apply app_nil_r.
Qed.

Lemma indexOf_elem_of (l : list ref) (r : ref) :
  r ∈ l → ∃ i, indexOf l r = Z.of_nat i ∧ l !! i = Some r.
Proof.
  intros Hr. unfold indexOf.
  destruct (list_find_elem_of (λ x, x = r) l r Hr eq_refl) as [[i x] Hf].
  rewrite Hf. apply list_find_Some in Hf as (Hi & -> & _). by exists i.
Qed.

Lemma indexOf_not_elem_of (l : list ref) (r : ref) : r ∉ l → indexOf l r = -1.
Proof.
  intros Hr. unfold indexOf.
  destruct (list_find (λ x, x = r) l) as [[i x]|] eqn:Hf; [|done].
  apply list_find_Some in Hf as (Hi & -> & _).
  exfalso. apply Hr. by eapply list_elem_of_lookup_2.
Qed.

Lemma filter_ne_not_elem_of (l : list ref) (r : ref) :
  r ∉ l → base.filter (λ x, x ≠ r) l = l.
Proof.
  induction l as [|x l IH]; intros Hr; [done|].
  rewrite filter_cons_True by (intros ->; apply Hr; left).
  rewrite IH; [done|]. intros Hin. apply Hr. by right.
Qed.

(** Removing the object found by [indexOf] from a list that holds it once
    removes that object and nothing else. *)
Lemma splice_indexOf (l : list ref) (r : ref) :
  NoDup l → r ∈ l → splice l (indexOf l r) 1 = base.filter (λ x, x ≠ r) l.
Proof.
  intros Hnd Hr. destruct (indexOf_elem_of l r Hr) as (i & -> & Hi).
  rewrite splice_at by (apply lookup_lt_Some in Hi; lia).
  rewrite <- (take_drop_middle l i r Hi) in Hnd |- * at 3.
  apply NoDup_app in Hnd as (_ & Hdisj & Hnd). apply NoDup_cons in Hnd as [Hr2 _].
  rewrite filter_app, filter_cons_False by (intros Hne; by apply Hne).
  rewrite !filter_ne_not_elem_of; try done.
  - by rewrite Nat.add_1_r.
  - intros Hin. apply (Hdisj r Hin). left.
Qed.

Lemma without_nil l : without [] l = l.
Proof.
  unfold without. induction l as [|x l IH]; [done|].
  rewrite filter_cons_True by (intros H; by apply elem_of_nil in H). by rewrite IH.
Qed.

Lemma without_snoc killed r l :
  base.filter (λ x, x ≠ r) (without killed l) = without (killed ++ [r]) l.
Proof.
  unfold without. rewrite list_filter_filter. apply list_filter_iff.
  intros x. rewrite elem_of_app, list_elem_of_singleton. tauto.
Qed.

Lemma without_snoc_not_elem_of killed r l :
  r ∉ l → without (killed ++ [r]) l = without killed l.
Proof.
  intros Hr. rewrite <- without_snoc. apply filter_ne_not_elem_of.
  intros Hin. apply Hr. unfold without in Hin.
  by apply list_elem_of_filter in Hin as [_ Hin].
Qed.

Lemma concat_without killed (ls : list (list ref)) :
  concat (without killed <$> ls) = without killed (concat ls).
Proof.
  induction ls as [|l ls IH]; [done|].
  rewrite fmap_cons. cbn [concat]. unfold without in *. by rewrite filter_app, IH.
Qed.

Lemma elem_of_concat_lookup (ls : list (list ref)) k l y :
  ls !! k = Some l → y ∈ l → y ∈ concat ls.
Proof.
  revert k. induction ls as [|l0 ls IH]; intros k Hk Hy; [done|].
  cbn [concat]. apply elem_of_app. destruct k as [|k].
  - injection Hk as ->. by left.
  - right. by eapply IH.
Qed.

Lemma elem_of_concat_inv (ls : list (list ref)) y :
  y ∈ concat ls → ∃ k l, ls !! k = Some l ∧ y ∈ l.
Proof.
  induction ls as [|l0 ls IH]; cbn [concat]; intros Hy; [by apply elem_of_nil in Hy|].
  apply elem_of_app in Hy as [Hy|Hy]; [by exists 0%nat, l0|].
  destruct (IH Hy) as (k & l & Hk & Hl). by exists (S k), l.
Qed.

(** In a flattened list without repetition, the lists are without
    repetition and pairwise disjoint. *)
Lemma NoDup_concat_lookup (ls : list (list ref)) i l :
  NoDup (concat ls) → ls !! i = Some l → NoDup l.
Proof.
  revert i. induction ls as [|l0 ls IH]; intros i Hnd Hi; [done|].
  cbn [concat] in Hnd. apply NoDup_app in Hnd as (H0 & _ & Hrest).
  destruct i as [|i]; [by injection Hi as <-|]. by eapply IH.
Qed.

Lemma NoDup_concat_disjoint (ls : list (list ref)) i j a b x :
  NoDup (concat ls) → ls !! i = Some a → ls !! j = Some b → i ≠ j →
  x ∈ a → x ∉ b.
Proof.
  revert i j. induction ls as [|l0 ls IH]; intros i j Hnd Hi Hj Hne Ha; [done|].
  cbn [concat] in Hnd. apply NoDup_app in Hnd as (H0 & Hdisj & Hrest).
  pose proof (elem_of_concat_lookup ls) as Hin.
  destruct i as [|i], j as [|j]; try done; cbn in Hi, Hj.
  - injection Hi as <-. intros Hb. apply (Hdisj x Ha). by eapply Hin.
  - injection Hj as <-. intros Hb. apply (Hdisj x Hb). by eapply Hin.
  - eapply IH; eauto.
Qed.

Section VoiceKilling.
Variable st0 : WorkletProcessor.
Hypothesis Hplace : voicesInPlace st0.

(** One turn of the loop of [voiceKilling], after the voices [done] have
    been removed. *)
Lemma killVoice_in_place (st : WorkletProcessor) (done : list ref) (r : ref) :
  heap st = heap st0 →
  workletProcessorChannels st = stolen done <$> workletProcessorChannels st0 →
  r ∈ allVoices st0 → r ∉ done →
  ∃ st1, killVoice st r = Some st1
         ∧ heap st1 = heap st0
         ∧ workletProcessorChannels st1
           = stolen (done ++ [r]) <$> workletProcessorChannels st0
         ∧ totalVoicesAmount st1 = totalVoicesAmount st - 1
         ∧ port st1 = port st.
Proof.
  destruct Hplace as [Hnd Hnum]. intros Hheap Hchs Hr Hdone.
  destruct (elem_of_concat_inv _ _ Hr) as (k & l & Hk & Hl).
  rewrite list_lookup_fmap in Hk.
  destruct (workletProcessorChannels st0 !! k) as [c0|] eqn:Hc0; [|done].
  injection Hk as <-.
  unfold killVoice. rewrite Hheap, (Hnum k c0 r Hc0 Hl), Hchs.
  rewrite list_lookup_fmap, Hc0. cbn [fmap option_fmap option_map mbind option_bind].
  eexists. split; [reflexivity|].
  cbn [heap workletProcessorChannels totalVoicesAmount port
       with_totalVoicesAmount with_heap_channels].
  split; [done|]. split; [|done].
  assert (Hndc : NoDup (voices c0)).
  { eapply (NoDup_concat_lookup (voices <$> workletProcessorChannels st0) k);
      [exact Hnd|]. by rewrite list_lookup_fmap, Hc0. }
  cbn [voices stolen set_voices].
  rewrite splice_indexOf.
  - rewrite without_snoc. apply list_eq. intros j.
    destruct (decide (j = k)) as [->|Hne].
    + rewrite list_lookup_insert_eq
        by (rewrite length_fmap; by eapply lookup_lt_Some).
      by rewrite list_lookup_fmap, Hc0.
    + rewrite list_lookup_insert_ne by done. rewrite !list_lookup_fmap.
      destruct (workletProcessorChannels st0 !! j) as [cj|] eqn:Hcj; [|done].
      cbn. f_equal. unfold stolen. f_equal. symmetry.
      apply without_snoc_not_elem_of.
      eapply (NoDup_concat_disjoint (voices <$> workletProcessorChannels st0) k j);
        [exact Hnd| | |done|exact Hl]; by rewrite list_lookup_fmap, ?Hc0, ?Hcj.
  - unfold without. by apply NoDup_filter.
  - unfold without. by apply list_elem_of_filter.
Qed.

Lemma killVoice_loop (rest : list ref) :
  ∀ (st : WorkletProcessor) (done : list ref),
    heap st = heap st0 →
    workletProcessorChannels st = stolen done <$> workletProcessorChannels st0 →
    NoDup (done ++ rest) → (∀ r, r ∈ rest → r ∈ allVoices st0) →
    ∃ st', foldl (λ acc voice, st ← acc; killVoice st voice) (Some st) rest = Some st'
           ∧ heap st' = heap st0
           ∧ workletProcessorChannels st'
             = stolen (done ++ rest) <$> workletProcessorChannels st0
           ∧ totalVoicesAmount st' = totalVoicesAmount st - Z.of_nat (length rest)
           ∧ port st' = port st.
Proof.
  induction rest as [|r rest IH]; intros st done Hheap Hchs Hnd Hin.
  - exists st. rewrite app_nil_r. cbn. repeat split; try done. lia.
  - destruct (killVoice_in_place st done r Hheap Hchs) as (st1 & Hk & Hh1 & Hc1 & Ht1 & Hp1).
    + apply Hin. left.
    + apply NoDup_app in Hnd as (_ & Hd & _). intros Hr. apply (Hd r Hr). left.
    + cbn [foldl mbind option_bind]. rewrite Hk.
      destruct (IH st1 (done ++ [r]) Hh1 Hc1) as (st' & Hf & Hh & Hc & Ht & Hp).
      * by rewrite <- app_assoc.
      * intros x Hx. apply Hin. by right.
      * exists st'. split; [exact Hf|]. split; [exact Hh|].
        split; [by rewrite Hc, <- app_assoc|].
        split; [rewrite Ht, Ht1; cbn [length]; lia|by rewrite Hp].
Qed.

Lemma take_clipped {A} (l : list A) (n : nat) :
  take (if (length l <? n)%nat then length l else n) l = take n l.
Proof.
  destruct (Nat.ltb_spec (length l) n); [|done].
  by rewrite !take_ge by lia.
Qed.

Lemma stolen_nil c : stolen [] c = c.
Proof. unfold stolen. rewrite without_nil. by destruct c. Qed.

Lemma voiceKilling_in_place (amount : nat) :
  let killed := take amount (voicesOrderedByVelocity st0) in
  ∃ st', voiceKilling st0 amount = Some st'
         ∧ heap st' = heap st0
         ∧ workletProcessorChannels st' = stolen killed <$> workletProcessorChannels st0
         ∧ totalVoicesAmount st' = totalVoicesAmount st0 - Z.of_nat (length killed)
         ∧ port st'
           = port st0 ++ [(λ c, length (voices c)) <$> workletProcessorChannels st'].
Proof.
  intros killed. unfold voiceKilling. rewrite take_clipped. fold killed.
  assert (Hperm : voicesOrderedByVelocity st0 ≡ₚ allVoices st0)
    by apply sortByVelocity_perm.
  destruct (killVoice_loop killed st0 []) as (st1 & Hf & Hh & Hc & Ht & Hp).
  - done.
  - symmetry. erewrite list_fmap_ext; [apply list_fmap_id|].
    intros i c _. apply stolen_nil.
  - cbn [app]. eapply sublist_NoDup; [|apply sublist_take].
    rewrite Hperm. apply Hplace.
  - intros r Hr. rewrite <- Hperm. subst killed.
    apply elem_of_take in Hr as (i & Hi & _). by eapply list_elem_of_lookup_2.
  - rewrite Hf. cbn [mbind option_bind]. eexists. split; [reflexivity|].
    cbn [heap workletProcessorChannels totalVoicesAmount port updateVoicesAmount].
    rewrite Hh, Hc, Ht, Hp. done.
Qed.

End VoiceKilling.

Lemma without_self_app (killed rest : list ref) :
  NoDup (killed ++ rest) → without killed (killed ++ rest) = rest.
Proof.
  intros (_ & Hdisj & _)%NoDup_app. unfold without. rewrite filter_app.
  assert (H1 : ∀ l : list ref, (∀ x, x ∈ l → x ∈ killed) →
                 base.filter (λ r, r ∉ killed) l = []).
  { induction l as [|x l IH]; intros Hl; [done|].
    rewrite filter_cons_False by (intros Hx; apply Hx, Hl; left).
    apply IH. intros y Hy. apply Hl. by right. }
  assert (H2 : ∀ l : list ref, (∀ x, x ∈ l → x ∉ killed) →
                 base.filter (λ r, r ∉ killed) l = l).
  { induction l as [|x l IH]; intros Hl; [done|].
    rewrite filter_cons_True by (apply Hl; left).
    f_equal. apply IH. intros y Hy. apply Hl. by right. }
  rewrite H1 by done. rewrite H2; [done|].
  intros x Hx Hk. by apply (Hdisj x Hk).
Qed.

Lemma allVoices_stolen killed chs :
  concat (voices <$> (stolen killed <$> chs)) = without killed (concat (voices <$> chs)).
Proof.
  rewrite <- concat_without, <- !list_fmap_compose. reflexivity.
Qed.

Section KillNotes.
Context {Utilities : WorkletUtilities}.
Variable scope : AudioWorkletGlobalScope.

(** X13.  When every voice object is held once, by the channel its
    [channelNumber] names, [voiceKilling(n)] (and so [killNotes(n)])
    removes from the channels' lists exactly the first [n] voices of the
    velocity-ordered list: min(n, number of live voices) voices, each of a
    velocity no greater than that of any voice that stays; the other
    voices stay in their lists in their order, no voice object changes,
    the tracked total goes down by the number removed and the new counts
    are posted. *)
Theorem voiceKilling_steals_lowest_velocities (st : WorkletProcessor) (n : nat) :
  voicesInPlace st →
  let killed := take n (voicesOrderedByVelocity st) in
  ∃ st',
    voiceKilling st n = Some st'
    ∧ (∀ ch, is_Some (workletProcessorChannels st !! ch) →
             handleMessage scope st {| messageChannel := ch; messageType := killNotes n |}
             = Some st')
    ∧ workletProcessorChannels st' = stolen killed <$> workletProcessorChannels st
    ∧ heap st' = heap st
    ∧ length killed = min n (length (allVoices st))
    ∧ allVoices st' = without killed (allVoices st)
    ∧ length (allVoices st') = (length (allVoices st) - length killed)%nat
    ∧ totalVoicesAmount st' = totalVoicesAmount st - Z.of_nat (length killed)
    ∧ (∀ r r', r ∈ killed → r' ∈ allVoices st' →
               velocity (heap st r) ≤ velocity (heap st r'))
    ∧ port st' = port st ++ [(λ c, length (voices c)) <$> workletProcessorChannels st'].
Proof.
  intros Hplace killed.
  destruct (voiceKilling_in_place st Hplace n) as (st' & Hk & Hh & Hc & Ht & Hp).
  fold killed in Hc, Ht.
  assert (Hperm : voicesOrderedByVelocity st ≡ₚ allVoices st)
    by apply sortByVelocity_perm.
  assert (Hsplit : killed ++ drop n (voicesOrderedByVelocity st)
                   = voicesOrderedByVelocity st) by apply take_drop.
  assert (Hnd : NoDup (killed ++ drop n (voicesOrderedByVelocity st))).
  { rewrite Hsplit, Hperm. apply Hplace. }
  assert (Hall : allVoices st' = without killed (allVoices st)).
  { unfold allVoices. rewrite Hc. apply allVoices_stolen. }
  assert (Hrest : without killed (allVoices st) ≡ₚ drop n (voicesOrderedByVelocity st)).
  { unfold without. rewrite <- Hperm. rewrite <- Hsplit at 1.
    fold (without killed (killed ++ drop n (voicesOrderedByVelocity st))).
    by rewrite without_self_app. }
  exists st'. split; [exact Hk|]. split.
  { intros ch [c Hch]. unfold handleMessage. cbn [messageChannel messageType].
    rewrite Hch. exact Hk. }
  split; [exact Hc|]. split; [exact Hh|]. split.
  { subst killed. by rewrite length_take, (Permutation_length Hperm). }
  split; [exact Hall|]. split.
  { rewrite Hall, (Permutation_length Hrest), length_drop.
    subst killed. rewrite length_take, (Permutation_length Hperm). lia. }
  split; [exact Ht|]. split; [|exact Hp].
  intros r r' Hr Hr'. rewrite Hall, Hrest in Hr'.
  apply (StronglySorted_app_1_elem_of (byVelocity (heap st)) killed
           (drop n (voicesOrderedByVelocity st))); [|done..].
  rewrite Hsplit. apply sortByVelocity_sorted.
Qed.

(** X14.  [voiceKilling] looks a voice up in the channel its
    [channelNumber] names.  When the voice with the lowest velocity is not
    in that channel's list, [indexOf] gives -1 and [splice(-1, 1)] removes
    the last voice of that list instead, while the voice itself stays
    where it is; when no such channel exists, a TypeError is raised. *)
Theorem voiceKilling_misplaced_voice_costs_another (st : WorkletProcessor)
    (r : ref) (rest : list ref) :
  voicesOrderedByVelocity st = r :: rest →
  let n := channelNumber (heap st r) in
  (∀ c, workletProcessorChannels st !! n = Some c → r ∉ voices c →
     ∃ st', voiceKilling st 1 = Some st'
            ∧ workletProcessorChannels st'
              = <[n := set_voices c (take (length (voices c) - 1) (voices c))]>
                  (workletProcessorChannels st)
            ∧ totalVoicesAmount st' = totalVoicesAmount st - 1)
  ∧ (workletProcessorChannels st !! n = None → voiceKilling st 1 = None).
Proof.
  intros Hsorted n. subst n. split.
  - intros c Hc Hr. unfold voiceKilling. rewrite Hsorted. cbn [length Nat.ltb Nat.leb take foldl].
    cbn [mbind option_bind]. unfold killVoice. rewrite Hc. cbn [mbind option_bind].
    rewrite (indexOf_not_elem_of _ _ Hr), splice_minus_one.
    eexists. split; [reflexivity|]. done.
  - intros Hc. unfold voiceKilling. rewrite Hsorted. cbn [length Nat.ltb Nat.leb take foldl].
    cbn [mbind option_bind]. unfold killVoice. by rewrite Hc.
Qed.

End KillNotes.

(** Stealing two voices from [Examples.trio]: velocities 20 and 50 go,
    90 stays. *)
Lemma voiceKilling_steals_lowest_velocities_witness :
  voicesInPlace Examples.trio
  ∧ ∃ st',
      voiceKilling Examples.trio 2 = Some st'
      ∧ (voices <$> workletProcessorChannels st') = [[0%nat]; []]
      ∧ totalVoicesAmount st' = 1.
Proof.
  assert (H : voicesInPlace Examples.trio).
  { split.
    - apply (bool_decide_unpack _). by vm_compute.
    - intros ch c r Hc Hr.
      destruct ch as [|[|ch]]; [| |done]; injection Hc as <-;
        repeat (apply elem_of_cons in Hr as [->|Hr]; [reflexivity|]);
        by apply elem_of_nil in Hr. }
  split; [exact H|].
  destruct (voiceKilling_steals_lowest_velocities (Utilities := Examples.utilities)
              Examples.scope Examples.trio 2 H)
    as (st' & Hk & _ & Hc & _ & _ & _ & _ & Ht & _).
  exists st'. split; [exact Hk|]. rewrite Hc, Ht. split; by vm_compute.
Defined.

(** A voice that names channel 1 while channel 0 holds it: killing it
    takes the last voice of channel 1. *)
Lemma voiceKilling_misplaced_voice_costs_another_witness :
  let st := Examples.processor
              [Examples.plainVoice 1 60 10; Examples.plainVoice 1 64 50]
              [Examples.newChannel false [0%nat] []; Examples.newChannel false [1%nat] []]
              2 ∅ in
  voicesOrderedByVelocity st = [0%nat; 1%nat]
  ∧ ∃ st', voiceKilling st 1 = Some st'
           ∧ (voices <$> workletProcessorChannels st') = [[0%nat]; []].
Proof.
  intros st. split; [reflexivity|].
  destruct (voiceKilling_misplaced_voice_costs_another st 0%nat [1%nat] eq_refl)
    as [Hmis _].
  destruct (Hmis (Examples.newChannel false [1%nat] []) eq_refl) as (st' & Hk & Hc & _).
  - intros Hin. apply list_elem_of_singleton in Hin. discriminate Hin.
  - exists st'. split; [exact Hk|]. rewrite Hc. reflexivity.
Defined.

(** ** The channel processor's own limits *)

Section ChannelProcessorCap.
Context {JSMath : MathObject} {Utilities : WorkletUtilities}.
Variable scope : AudioWorkletGlobalScope.

Lemma splice_from_start (l : list ref) (n : nat) : splice l 0 n = drop n l.
Proof. apply (splice_at l 0 n). lia. Qed.

(** X15.  In the channel processor [killNotes(n)] removes the first [n]
    voices of the list, the ones added earliest, whatever their
    velocities (all of them when there are fewer), changes no voice
    object, and posts the number of voices left. *)
Theorem channel_killNotes_drops_the_earliest (cp : ChannelProcessor.t) (n : nat) :
  let cp' := ChannelProcessor.handleMessage scope cp (killNotes n) in
  voices (ChannelProcessor.this cp') = drop n (voices (ChannelProcessor.this cp))
  ∧ length (voices (ChannelProcessor.this cp'))
    = (length (voices (ChannelProcessor.this cp)) - n)%nat
  ∧ sustainedVoices (ChannelProcessor.this cp')
    = sustainedVoices (ChannelProcessor.this cp)
  ∧ ChannelProcessor.heap cp' = ChannelProcessor.heap cp
  ∧ ChannelProcessor.port cp'
    = ChannelProcessor.port cp ++ [(length (voices (ChannelProcessor.this cp)) - n)%nat].
Proof.
  intros cp'. subst cp'. destruct cp as [hp np tp dp pp]. cbn.
  rewrite splice_from_start, length_drop. done.
Qed.

(** X16.  In the channel processor a [noteOn] never leaves more than
    CHANNEL_CAP (400) voices in the list: the incoming voices are appended
    and, when the list is then too long, the oldest voices are dropped
    from its front; the length of the list is posted. *)
Theorem channel_noteOn_caps_the_voices (cp : ChannelProcessor.t)
    (data : list WorkletVoice) :
  let cp' := ChannelProcessor.handleMessage scope cp (noteOn data) in
  let pushed := voices (ChannelProcessor.this cp)
                ++ seq (ChannelProcessor.nextRef cp) (length data) in
  voices (ChannelProcessor.this cp')
  = drop (length pushed - ChannelProcessor.CHANNEL_CAP) pushed
  ∧ length (voices (ChannelProcessor.this cp'))
    = min (length pushed) ChannelProcessor.CHANNEL_CAP
  ∧ ChannelProcessor.nextRef cp' = (ChannelProcessor.nextRef cp + length data)%nat
  ∧ ChannelProcessor.port cp'
    = ChannelProcessor.port cp ++ [min (length pushed) ChannelProcessor.CHANNEL_CAP].
Proof.
  intros cp' pushed. subst cp'. destruct cp as [hp np tp dp pp].
  unfold ChannelProcessor.handleMessage.
  cbn [ChannelProcessor.this ChannelProcessor.nextRef ChannelProcessor.heap
       ChannelProcessor.port ChannelProcessor.put ChannelProcessor.post
       ChannelProcessor.with_nextRef ChannelProcessor.workletDumpedSamplesList
       fst snd handleNoteOnPush voices set_voices] in *.
  fold pushed.
  destruct (Nat.ltb_spec ChannelProcessor.CHANNEL_CAP (length pushed)) as [Hlt|Hge].
  - rewrite splice_from_start, length_drop.
    replace (min (length pushed) ChannelProcessor.CHANNEL_CAP)
      with (length pushed - (length pushed - ChannelProcessor.CHANNEL_CAP))%nat by lia.
    done.
  - replace (length pushed - ChannelProcessor.CHANNEL_CAP)%nat with 0%nat by lia.
    rewrite drop_0. replace (min (length pushed) ChannelProcessor.CHANNEL_CAP)
      with (length pushed) by lia.
    done.
Qed.

End ChannelProcessorCap.

(** ** Building voices from a preset *)

Section Builder.
Context {JSMath : MathObject} {SoundFont : SoundFontLayer}.
Variables (channel : nat) (note : Z) (context : BaseAudioContext.t).

Lemma buildVoices_snoc (bs : BuildState) (zones : list SampleAndGenerators.t)
    (z : SampleAndGenerators.t) :
  buildVoices channel note context bs (zones ++ [z])
  = ((buildVoice channel note context (buildVoices channel note context bs zones).1 z).1,
     (buildVoices channel note context bs zones).2
       ++ [(buildVoice channel note context (buildVoices channel note context bs zones).1 z).2]).
Proof. unfold buildVoices. by rewrite foldl_app. Qed.

Lemma buildVoices_length (bs : BuildState) (zones : list SampleAndGenerators.t) :
  length (buildVoices channel note context bs zones).2 = length zones.
Proof.
  induction zones as [|z zones IH] using rev_ind; [done|].
  rewrite buildVoices_snoc. cbn [fst snd]. rewrite !length_app, IH. done.
Qed.

(** The voice at index [i] is the callback's result for zone [i], in the
    state the zones before it have left. *)
Lemma buildVoices_lookup (bs : BuildState) (zones : list SampleAndGenerators.t)
    (i : nat) (v : WorkletVoice) :
  (buildVoices channel note context bs zones).2 !! i = Some v →
  ∃ z, zones !! i = Some z
       ∧ v = (buildVoice channel note context
                (buildVoices channel note context bs (take i zones)).1 z).2.
Proof.
  induction zones as [|z zones IH] using rev_ind; [done|].
  rewrite buildVoices_snoc. cbn [fst snd]. intros Hv.
  destruct (decide (i < length zones)%nat) as [Hi|Hi].
  - rewrite lookup_app_l in Hv by (rewrite buildVoices_length; lia).
    destruct (IH Hv) as (z' & Hz & ->). exists z'.
    rewrite lookup_app_l by lia. split; [done|].
    by rewrite take_app_le by lia.
  - rewrite lookup_app_r in Hv by (rewrite buildVoices_length; lia).
    rewrite buildVoices_length in Hv.
    destruct (i - length zones)%nat eqn:E; [|done].
    cbn in Hv. injection Hv as <-.
    assert (i = length zones) as -> by lia. exists z.
    rewrite lookup_app_r, Nat.sub_diag by lia. split; [done|].
    by rewrite take_app_length.
Qed.

Lemma buildVoices_Forall (P : WorkletVoice → Prop) (bs : BuildState)
    (zones : list SampleAndGenerators.t) :
  (∀ bs' z, P (buildVoice channel note context bs' z).2) →
  Forall P (buildVoices channel note context bs zones).2.
Proof.
  intros HP. apply Forall_lookup. intros i v Hv.
  destruct (buildVoices_lookup _ _ _ _ Hv) as (z & _ & ->). apply HP.
Qed.

Lemma buildVoices_velocityVar (bs : BuildState) (zones : list SampleAndGenerators.t) :
  velocityVar (buildVoices channel note context bs zones).1
  = carriedVelocity (velocityVar bs) zones.
Proof.
  induction zones as [|z zones IH] using rev_ind; [done|].
  rewrite buildVoices_snoc. unfold carriedVelocity. rewrite foldl_app.
  cbn [fst snd foldl]. fold (carriedVelocity (velocityVar bs) zones). rewrite <- IH.
  reflexivity.
Qed.

(** An already dumped sample is not dumped again, and leaves [canCache]
    alone. *)
Lemma buildVoice_already_dumped (bs : BuildState) (z : SampleAndGenerators.t) :
  SampleAndGenerators.sampleID z ∈ globalDumpedSamplesList (builder bs) →
  builder (buildVoice channel note context bs z).1 = builder bs
  ∧ canCache (buildVoice channel note context bs z).1 = canCache bs.
Proof.
  intros Hin. unfold buildVoice. cbn [fst snd builder canCache].
  by rewrite (decide_True _ _ Hin).
Qed.

Lemma buildVoices_already_dumped (bs : BuildState) (zones : list SampleAndGenerators.t) :
  Forall (λ z, SampleAndGenerators.sampleID z ∈ globalDumpedSamplesList (builder bs)) zones →
  builder (buildVoices channel note context bs zones).1 = builder bs
  ∧ canCache (buildVoices channel note context bs zones).1 = canCache bs.
Proof.
  induction zones as [|z zones IH] using rev_ind; [done|].
  intros [Hzones Hz]%Forall_app. rewrite Forall_singleton in Hz.
  destruct (IH Hzones) as [Hb Hc]. rewrite buildVoices_snoc. cbn [fst snd].
  destruct (buildVoice_already_dumped (buildVoices channel note context bs zones).1 z)
    as [Hb' Hc']; [rewrite Hb; exact Hz|].
  by rewrite Hb', Hc'.
Qed.

(** Once [canCache] is false it stays false. *)
Lemma buildVoice_canCache_false (bs : BuildState) (z : SampleAndGenerators.t) :
  canCache bs = false → canCache (buildVoice channel note context bs z).1 = false.
Proof.
  intros Hc. unfold buildVoice. cbn [fst snd canCache].
  destruct (decide _); cbn [fst snd]; [done|]. by destruct (negb _).
Qed.

Lemma buildVoices_canCache_false (bs : BuildState) (zones : list SampleAndGenerators.t) :
  canCache bs = false → canCache (buildVoices channel note context bs zones).1 = false.
Proof.
  intros Hc. induction zones as [|z zones IH] using rev_ind; [done|].
  rewrite buildVoices_snoc. cbn [fst snd]. by apply buildVoice_canCache_false.
Qed.

Lemma buildVoices_cons (bs : BuildState) (z : SampleAndGenerators.t)
    (zones : list SampleAndGenerators.t) :
  (buildVoices channel note context bs (z :: zones)).1
  = (buildVoices channel note context (buildVoice channel note context bs z).1 zones).1.
Proof.
  induction zones as [|z' zones IH] using rev_ind; [done|].
  rewrite app_comm_cons, !buildVoices_snoc. cbn [fst snd]. by rewrite IH.
Qed.

Lemma sampleOf_dumpSample (st : VoiceBuilder) (z : SampleAndGenerators.t) :
  sampleOf (dumpSample channel (sampleOf st z) (SampleAndGenerators.sampleID z) st) z
  = sampleAfterDump (sampleOf st z).
Proof.
  unfold dumpSample, sampleAfterDump, sampleOf at 1.
  destruct (negb _); cbn [sampleObjects]; by rewrite lookup_insert_eq.
Qed.

(** What one zone adds to the dumped set, the port and the queue of
    pending decodes. *)
Record DumpsOf (old : gset nat) (ids : gset nat) (st st' : VoiceBuilder) : Prop := {
  dumps_set : globalDumpedSamplesList st' = globalDumpedSamplesList st ∪ ids;
  dumps_sent : ∃ sent,
    workletMessagePort st' = workletMessagePort st ++ sent
    ∧ Forall (λ m, messageChannel m = channel
                   ∧ ∃ id data, messageType m = sampleDump id data
                                ∧ id ∈ ids ∧ id ∉ old) sent;
  dumps_queued : ∃ queued,
    pendingDumps st' = pendingDumps st ++ queued
    ∧ Forall (λ p, p.1 = channel ∧ p.2 ∈ ids ∧ p.2 ∉ old) queued;
  dumps_count :
    (length (workletMessagePort st') + length (pendingDumps st')
     + size (globalDumpedSamplesList st)
     = length (workletMessagePort st) + length (pendingDumps st)
       + size (globalDumpedSamplesList st'))%nat
}.

Lemma DumpsOf_refl (old : gset nat) (st : VoiceBuilder) : DumpsOf old ∅ st st.
Proof.
  split.
  - set_solver.
  - exists []. by rewrite app_nil_r.
  - exists []. by rewrite app_nil_r.
  - lia.
Qed.

Lemma DumpsOf_trans (old ids1 ids2 : gset nat) (st1 st2 st3 : VoiceBuilder) :
  DumpsOf old ids1 st1 st2 → DumpsOf old ids2 st2 st3 →
  DumpsOf old (ids1 ∪ ids2) st1 st3.
Proof.
  intros [Hs1 (s1 & Hp1 & Hf1) (q1 & Hq1 & Hg1) Hc1] [Hs2 (s2 & Hp2 & Hf2) (q2 & Hq2 & Hg2) Hc2].
  split.
  - rewrite Hs2, Hs1. set_solver.
  - exists (s1 ++ s2). split; [by rewrite Hp2, Hp1, app_assoc|].
    apply Forall_app. split; eapply Forall_impl; eauto; cbn.
    + intros m (? & id & data & ? & ? & ?). split; [done|]. exists id, data. set_solver.
    + intros m (? & id & data & ? & ? & ?). split; [done|]. exists id, data. set_solver.
  - exists (q1 ++ q2). split; [by rewrite Hq2, Hq1, app_assoc|].
    apply Forall_app. split; eapply Forall_impl; eauto; cbn; set_solver.
  - lia.
Qed.

Lemma buildVoice_dumps (old : gset nat) (bs : BuildState) (z : SampleAndGenerators.t) :
  old ⊆ globalDumpedSamplesList (builder bs) →
  DumpsOf old {[SampleAndGenerators.sampleID z]} (builder bs)
    (builder (buildVoice channel note context bs z).1).
Proof.
  intros Hold. unfold buildVoice. cbn [fst snd builder].
  destruct (decide _) as [Hin|Hin]; cbn [fst snd].
  - split.
    + set_solver.
    + exists []. by rewrite app_nil_r.
    + exists []. by rewrite app_nil_r.
    + lia.
  - unfold dumpSample. destruct (negb _); split; cbn.
    + set_solver.
    + eexists. split; [done|]. apply Forall_singleton. split; [done|].
      eexists _, _. split; [done|]. set_solver.
    + exists []. by rewrite app_nil_r.
    + rewrite length_app, size_union, size_singleton by set_solver. cbn. lia.
    + set_solver.
    + exists []. by rewrite app_nil_r.
    + eexists. split; [done|]. apply Forall_singleton. set_solver.
    + rewrite length_app, size_union, size_singleton by set_solver. cbn. lia.
Qed.

Lemma buildVoices_dumps (bs : BuildState) (zones : list SampleAndGenerators.t) :
  DumpsOf (globalDumpedSamplesList (builder bs)) (sampleIDs zones) (builder bs)
    (builder (buildVoices channel note context bs zones).1).
Proof.
  induction zones as [|z zones IH] using rev_ind; [apply DumpsOf_refl|].
  rewrite buildVoices_snoc. cbn [fst snd].
  replace (sampleIDs (zones ++ [z]))
    with (sampleIDs zones ∪ {[SampleAndGenerators.sampleID z]})
    by (unfold sampleIDs; rewrite fmap_app, list_to_set_app_L; cbn; set_solver).
  eapply DumpsOf_trans; [exact IH|]. apply buildVoice_dumps.
  rewrite (dumps_set _ _ _ _ IH). set_solver.
Qed.

(** A call that finds no cached voices builds them. *)
Lemma getWorkletVoices_miss (vel : Z) (preset : Z → Z → list SampleAndGenerators.t)
    (st : VoiceBuilder) (cachedVoices : CachedVoices) (row : gmap Z (list WorkletVoice)) :
  cacheRow cachedVoices note = Some row → row !! vel = None →
  getWorkletVoices channel note vel preset context st cachedVoices
  = let r := buildVoices channel note context
               {| velocityVar := vel; canCache := true; builder := st |}
               (preset note vel) in
    Some (r.2,
          if canCache r.1
          then <[Z.to_nat note := <[velocityVar r.1 := r.2]> row]> cachedVoices
          else cachedVoices,
          builder r.1).
Proof. intros Hrow Hvel. unfold getWorkletVoices. by rewrite Hrow, Hvel. Qed.

Lemma cacheRow_insert (cachedVoices : CachedVoices) (row row' : gmap Z (list WorkletVoice)) :
  cacheRow cachedVoices note = Some row →
  cacheRow (<[Z.to_nat note := row']> cachedVoices) note = Some row'.
Proof.
  unfold cacheRow. destruct (note <? 0); [done|]. intros Hrow.
  apply list_lookup_insert_eq. by eapply lookup_lt_Some.
Qed.

End Builder.

Section BuiltVoices.
Context {JSMath : MathObject} {SoundFont : SoundFontLayer}.
Variables (channel : nat) (note : Z) (context : BaseAudioContext.t).
Variable preset : Z → Z → list SampleAndGenerators.t.

(** X17.  The velocity override of a zone is kept for the zones after it:
    on a call that builds its voices, voice [i] gets the velocity
    generator of the last zone up to [i] that has one above -1, and the
    incoming velocity only when there is none; the group is stored, when
    it is stored, under the velocity the last zone ends with, not under
    the incoming one. *)
Theorem velocity_override_carries_to_later_zones (vel : Z) (st : VoiceBuilder)
    (cachedVoices : CachedVoices) (row : gmap Z (list WorkletVoice)) :
  cacheRow cachedVoices note = Some row → row !! vel = None →
  let zones := preset note vel in
  ∃ vs cache' st',
    getWorkletVoices channel note vel preset context st cachedVoices
    = Some (vs, cache', st')
    ∧ length vs = length zones
    ∧ (∀ i v, vs !! i = Some v →
              velocity v = carriedVelocity vel (take (S i) zones))
    ∧ (cache' = cachedVoices
       ∨ cache' = <[Z.to_nat note := <[carriedVelocity vel zones := vs]> row]> cachedVoices).
Proof.
  intros Hrow Hvel zones.
  rewrite (getWorkletVoices_miss _ _ _ _ _ _ _ _ Hrow Hvel). cbn zeta. fold zones.
  eexists _, _, _. split; [reflexivity|]. split; [apply buildVoices_length|]. split.
  - intros i v Hv. destruct (buildVoices_lookup _ _ _ _ _ _ _ Hv) as (z & Hz & ->).
    rewrite (take_S_r _ _ _ Hz). unfold carriedVelocity. rewrite foldl_app. cbn [foldl].
    fold (carriedVelocity vel (take i zones)).
    change vel with (velocityVar {| velocityVar := vel; canCache := true; builder := st |}) at 2.
    rewrite <- buildVoices_velocityVar with (channel := channel) (note := note) (context := context).
    reflexivity.
  - destruct (canCache _); [right|by left].
    by rewrite buildVoices_velocityVar.
Qed.

(** X18.  Storing and finding again: when a call has built a group of
    voices that may be cached, a later call for the same note and the
    velocity the group ended with, on whatever channel and with whatever
    preset, returns those voices with only [startTime] set to the new
    time, and dumps nothing. *)
Theorem cached_voices_are_returned_restamped (vel : Z) (st : VoiceBuilder)
    (cachedVoices : CachedVoices) (row : gmap Z (list WorkletVoice)) :
  cacheRow cachedVoices note = Some row → row !! vel = None →
  canCache (buildVoices channel note context
              {| velocityVar := vel; canCache := true; builder := st |}
              (preset note vel)).1 = true →
  ∃ vs cache' st',
    getWorkletVoices channel note vel preset context st cachedVoices
    = Some (vs, cache', st')
    ∧ ∀ channel' preset' context', ∃ cache'',
        getWorkletVoices channel' note (carriedVelocity vel (preset note vel))
          preset' context' st' cache'
        = Some ((λ v, set_startTime v (BaseAudioContext.currentTime context')) <$> vs,
                cache'', st').
Proof.
  intros Hrow Hvel Hcan.
  rewrite (getWorkletVoices_miss _ _ _ _ _ _ _ _ Hrow Hvel). cbn zeta. rewrite Hcan.
  eexists _, _, _. split; [reflexivity|]. intros channel' preset' context'.
  unfold getWorkletVoices at 1.
  rewrite (cacheRow_insert _ _ _ _ Hrow), buildVoices_velocityVar. cbn [velocityVar].
  rewrite lookup_insert_eq. eexists. reflexivity.
Qed.

(** X19.  The test of [isSampleLoaded] is made only for a sample that is
    dumped by this call: when the samples of all zones are in the dumped
    set already, the call dumps and sends nothing and stores the group in
    the cache, whether or not the samples have finished loading. *)
Theorem already_dumped_samples_are_cached_unchecked (vel : Z) (st : VoiceBuilder)
    (cachedVoices : CachedVoices) (row : gmap Z (list WorkletVoice)) :
  cacheRow cachedVoices note = Some row → row !! vel = None →
  Forall (λ z, SampleAndGenerators.sampleID z ∈ globalDumpedSamplesList st)
         (preset note vel) →
  ∃ vs,
    getWorkletVoices channel note vel preset context st cachedVoices
    = Some (vs,
            <[Z.to_nat note := <[carriedVelocity vel (preset note vel) := vs]> row]>
              cachedVoices,
            st)
    ∧ length vs = length (preset note vel).
Proof.
  intros Hrow Hvel Hall.
  rewrite (getWorkletVoices_miss _ _ _ _ _ _ _ _ Hrow Hvel). cbn zeta.
  destruct (buildVoices_already_dumped channel note context
              {| velocityVar := vel; canCache := true; builder := st |}
              (preset note vel) Hall) as [Hb Hc].
  rewrite Hb, Hc, buildVoices_velocityVar. cbn [builder canCache velocityVar].
  eexists. split; [reflexivity|]. apply buildVoices_length.
Qed.

(** X20.  When the first zone's sample has not been dumped and is still
    not loaded after [dumpSample] has asked for its data, the group is
    built and returned but the cache is left as it was. *)
Theorem unloaded_new_sample_is_not_cached (vel : Z) (st : VoiceBuilder)
    (cachedVoices : CachedVoices) (row : gmap Z (list WorkletVoice))
    (z : SampleAndGenerators.t) (rest : list SampleAndGenerators.t) :
  cacheRow cachedVoices note = Some row → row !! vel = None →
  preset note vel = z :: rest →
  SampleAndGenerators.sampleID z ∉ globalDumpedSamplesList st →
  Sample.isSampleLoaded (sampleAfterDump (sampleOf st z)) = false →
  ∃ vs st',
    getWorkletVoices channel note vel preset context st cachedVoices
    = Some (vs, cachedVoices, st')
    ∧ length vs = S (length rest)
    ∧ SampleAndGenerators.sampleID z ∈ globalDumpedSamplesList st'.
Proof.
  intros Hrow Hvel Hzones Hnew Hloading.
  rewrite (getWorkletVoices_miss _ _ _ _ _ _ _ _ Hrow Hvel). cbn zeta. rewrite Hzones.
  rewrite buildVoices_cons, buildVoices_canCache_false.
  - eexists _, _. split; [reflexivity|]. split; [by rewrite buildVoices_length|].
    rewrite <- buildVoices_cons.
    rewrite (dumps_set _ _ _ _ _
               (buildVoices_dumps channel note context
                  {| velocityVar := vel; canCache := true; builder := st |} (z :: rest))).
    unfold sampleIDs. cbn. set_solver.
  - unfold buildVoice. cbn [fst snd canCache builder].
    rewrite (decide_False _ _ Hnew). cbn [fst snd].
    by rewrite sampleOf_dumpSample, Hloading.
Qed.

(** X21.  A call that builds its voices leaves in the dumped set what was
    there and the sample ids of all zones; it appends to the port only
    [sampleDump] messages for the calling channel and to the pending
    decodes only entries for it, each for a sample of a zone that was not
    dumped before; and each such sample is dumped once: the number of
    messages and pending decodes added is the number of ids added to the
    set. *)
Theorem every_new_sample_is_dumped_once (vel : Z) (st : VoiceBuilder)
    (cachedVoices : CachedVoices) (row : gmap Z (list WorkletVoice)) :
  cacheRow cachedVoices note = Some row → row !! vel = None →
  ∃ vs cache' st' sent queued,
    getWorkletVoices channel note vel preset context st cachedVoices
    = Some (vs, cache', st')
    ∧ globalDumpedSamplesList st'
      = globalDumpedSamplesList st ∪ sampleIDs (preset note vel)
    ∧ workletMessagePort st' = workletMessagePort st ++ sent
    ∧ pendingDumps st' = pendingDumps st ++ queued
    ∧ Forall (λ m, messageChannel m = channel
                   ∧ ∃ id data, messageType m = sampleDump id data
                                ∧ id ∈ sampleIDs (preset note vel)
                                ∧ id ∉ globalDumpedSamplesList st) sent
    ∧ Forall (λ p, p.1 = channel ∧ p.2 ∈ sampleIDs (preset note vel)
                   ∧ p.2 ∉ globalDumpedSamplesList st) queued
    ∧ (length sent + length queued)%nat
      = size (sampleIDs (preset note vel) ∖ globalDumpedSamplesList st).
Proof.
  intros Hrow Hvel.
  rewrite (getWorkletVoices_miss _ _ _ _ _ _ _ _ Hrow Hvel). cbn zeta.
  destruct (buildVoices_dumps channel note context
              {| velocityVar := vel; canCache := true; builder := st |}
              (preset note vel)) as [Hs (sent & Hp & Hf) (queued & Hq & Hg) Hc].
  cbn [builder] in *.
  eexists _, _, _, sent, queued. split; [reflexivity|].
  repeat (split; [done|]).
  rewrite Hp, Hq, !length_app, Hs in Hc.
  assert (Hsize : size (globalDumpedSamplesList st ∪ sampleIDs (preset note vel))
          = (size (globalDumpedSamplesList st)
             + size (sampleIDs (preset note vel) ∖ globalDumpedSamplesList st))%nat).
  { rewrite <- size_union by set_solver. f_equal.
    apply set_eq. intros x. rewrite !elem_of_union, elem_of_difference.
    destruct (decide (x ∈ globalDumpedSamplesList st)); naive_solver. }
  lia.
Qed.

(** X22.  Every voice a call builds starts out in the same state: on the
    calling channel and the requested note, started at the context's
    current time, not released, not finished, silent (100 dB down), with
    60 zeroed modulated generators and 60 generators that are 16-bit
    values. *)
Theorem built_voices_start_fresh (vel : Z) (st : VoiceBuilder)
    (cachedVoices : CachedVoices) (row : gmap Z (list WorkletVoice)) :
  cacheRow cachedVoices note = Some row → row !! vel = None →
  ∃ vs cache' st',
    getWorkletVoices channel note vel preset context st cachedVoices
    = Some (vs, cache', st')
    ∧ Forall (justCreated channel note (BaseAudioContext.currentTime context)) vs.
Proof.
  intros Hrow Hvel.
  rewrite (getWorkletVoices_miss _ _ _ _ _ _ _ _ Hrow Hvel). cbn zeta.
  eexists _, _, _. split; [reflexivity|].
  apply buildVoices_Forall. intros bs' z. unfold justCreated, buildVoice.
  cbn [snd channelNumber midiNote startTime releaseStartTime finished isInRelease
       currentAttenuationDb volumeEnvelopeState modulatedGenerators generators].
  do 9 (split; [reflexivity|]). unfold combinedGenerators, JS.set16. split.
  - by rewrite length_insert, length_fmap, length_seq.
  - apply Forall_insert; [|apply toInt16_range].
    apply Forall_fmap, Forall_forall. intros i _. apply toInt16_range.
Qed.

(** X23.  The sample record of every built voice follows from the voice's
    own generators: the looping mode is 0 when the loop is shorter than
    one frame and the [sampleModes] generator as it is otherwise (no bits
    are masked off), so a voice whose looping mode is not 0 has a loop of
    at least one frame; the cursor starts at the start offsets; the target
    key is the [keyNum] generator when that is above -1 and the requested
    note otherwise. *)
Theorem built_sample_follows_generators (vel : Z) (st : VoiceBuilder)
    (cachedVoices : CachedVoices) (row : gmap Z (list WorkletVoice)) :
  cacheRow cachedVoices note = Some row → row !! vel = None →
  ∃ vs cache' st',
    getWorkletVoices channel note vel preset context st cachedVoices
    = Some (vs, cache', st')
    ∧ Forall (λ v,
        loopingMode (sample v)
        = (if JS.ltb (loopEnd (sample v) - loopStart (sample v)) 1 then 0
           else JS.get (generators v) generatorTypes.sampleModes)
        ∧ (loopingMode (sample v) ≠ 0 →
           (1 <= loopEnd (sample v) - loopStart (sample v))%Q)
        ∧ cursor (sample v)
          = inject_Z (JS.get (generators v) generatorTypes.startAddrsOffset
                      + JS.get (generators v) generatorTypes.startAddrsCoarseOffset * 32768)
        ∧ targetKey v
          = (if JS.get (generators v) generatorTypes.keyNum >? -1
             then JS.get (generators v) generatorTypes.keyNum else note)) vs.
Proof.
  intros Hrow Hvel.
  rewrite (getWorkletVoices_miss _ _ _ _ _ _ _ _ Hrow Hvel). cbn zeta.
  eexists _, _, _. split; [reflexivity|].
  apply buildVoices_Forall. intros bs' z. unfold buildVoice.
  cbn [snd sample loopingMode loopEnd loopStart generators cursor targetKey].
  split; [reflexivity|]. split; [|done].
  destruct (JS.ltb _ 1) eqn:Hlt; [done|]. intros _.
  by apply ltb_false in Hlt.
Qed.

End BuiltVoices.

(** The first of two zones fixes the velocity at 80: both voices of a note
    struck at 100 get 80. *)
Lemma velocity_override_carries_to_later_zones_witness :
  cacheRow Examples.emptyCache 60 = Some ∅
  ∧ ∃ vs cache' st',
      getWorkletVoices (JSMath := Examples.math) (SoundFont := Examples.soundfont)
        0 60 100 Examples.twoZones Examples.audioContext Examples.freshBuilder
        Examples.emptyCache
      = Some (vs, cache', st')
      ∧ length vs = 2%nat
      ∧ ∀ i v, vs !! i = Some v → velocity v = 80.
Proof.
  split; [reflexivity|].
  destruct (velocity_override_carries_to_later_zones
              (JSMath := Examples.math) (SoundFont := Examples.soundfont)
              0 60 Examples.audioContext Examples.twoZones 100 Examples.freshBuilder
              Examples.emptyCache ∅ eq_refl eq_refl)
    as (vs & cache' & st' & Hg & Hl & Hv & _).
  exists vs, cache', st'. split; [exact Hg|]. split; [exact Hl|].
  intros i v Hi. rewrite (Hv i v Hi).
  destruct i as [|[|i]]; [by vm_compute..|].
  apply lookup_lt_Some in Hi. rewrite Hl in Hi. cbn in Hi. lia.
Defined.

(** The group built for velocity 100 is found again under velocity 80, by
    another channel, with another preset, at a later time. *)
Lemma cached_voices_are_returned_restamped_witness :
  ∃ vs cache' st',
    getWorkletVoices (JSMath := Examples.math) (SoundFont := Examples.soundfont)
      0 60 100 Examples.twoZones Examples.audioContext Examples.freshBuilder
      Examples.emptyCache
    = Some (vs, cache', st')
    ∧ ∃ cache'',
        getWorkletVoices (JSMath := Examples.math) (SoundFont := Examples.soundfont)
          3 60 80 Examples.decoding Examples.laterContext st' cache'
        = Some ((λ v, set_startTime v 5) <$> vs, cache'', st').
Proof.
  destruct (cached_voices_are_returned_restamped
              (JSMath := Examples.math) (SoundFont := Examples.soundfont)
              0 60 Examples.audioContext Examples.twoZones 100 Examples.freshBuilder
              Examples.emptyCache ∅ eq_refl eq_refl eq_refl)
    as (vs & cache' & st' & Hg & Hagain).
  exists vs, cache', st'. split; [exact Hg|].
  exact (Hagain 3%nat Examples.decoding Examples.laterContext).
Defined.

(** Sample 3 is in the dumped set but not decoded yet: the voice built on
    it is cached all the same. *)
Lemma already_dumped_samples_are_cached_unchecked_witness :
  Forall (λ z, Sample.isSampleLoaded (sampleOf Examples.dumpedThree z) = false)
         (Examples.decoding 60 100)
  ∧ ∃ vs,
      getWorkletVoices (JSMath := Examples.math) (SoundFont := Examples.soundfont)
        0 60 100 Examples.decoding Examples.audioContext Examples.dumpedThree
        Examples.emptyCache
      = Some (vs, <[60%nat := <[100 := vs]> ∅]> Examples.emptyCache, Examples.dumpedThree)
      ∧ length vs = 1%nat.
Proof.
  split; [by apply Forall_singleton|].
  apply (already_dumped_samples_are_cached_unchecked
           (JSMath := Examples.math) (SoundFont := Examples.soundfont)
           0 60 Examples.audioContext Examples.decoding 100 Examples.dumpedThree
           Examples.emptyCache ∅ eq_refl eq_refl).
  apply Forall_singleton. apply (bool_decide_unpack _). by vm_compute.
Defined.

(** The same preset before sample 3 was dumped: the voice is returned but
    not cached. *)
Lemma unloaded_new_sample_is_not_cached_witness :
  ∃ vs st',
    getWorkletVoices (JSMath := Examples.math) (SoundFont := Examples.soundfont)
      0 60 100 Examples.decoding Examples.audioContext Examples.freshBuilder
      Examples.emptyCache
    = Some (vs, Examples.emptyCache, st')
    ∧ length vs = 1%nat
    ∧ 3%nat ∈ globalDumpedSamplesList st'.
Proof.
  apply (unloaded_new_sample_is_not_cached
           (JSMath := Examples.math) (SoundFont := Examples.soundfont)
           0 60 Examples.audioContext Examples.decoding 100 Examples.freshBuilder
           Examples.emptyCache ∅ (Examples.zone 3 Examples.vorbis (-1) 0) []
           eq_refl eq_refl eq_refl); [|reflexivity].
  apply (bool_decide_unpack _). by vm_compute.
Defined.

(** Two zones on two samples not dumped before: two dumps. *)
Lemma every_new_sample_is_dumped_once_witness :
  ∃ vs cache' st' sent queued,
    getWorkletVoices (JSMath := Examples.math) (SoundFont := Examples.soundfont)
      0 60 100 Examples.twoZones Examples.audioContext Examples.freshBuilder
      Examples.emptyCache
    = Some (vs, cache', st')
    ∧ workletMessagePort st' = sent
    ∧ pendingDumps st' = queued
    ∧ (length sent + length queued)%nat = 2%nat.
Proof.
  destruct (every_new_sample_is_dumped_once
              (JSMath := Examples.math) (SoundFont := Examples.soundfont)
              0 60 Examples.audioContext Examples.twoZones 100 Examples.freshBuilder
              Examples.emptyCache ∅ eq_refl eq_refl)
    as (vs & cache' & st' & sent & queued & Hg & _ & Hp & Hq & _ & _ & Hn).
  exists vs, cache', st', sent, queued. split; [exact Hg|].
  split; [exact Hp|]. split; [exact Hq|]. rewrite Hn. by vm_compute.
Defined.

Lemma built_voices_start_fresh_witness :
  ∃ vs cache' st',
    getWorkletVoices (JSMath := Examples.math) (SoundFont := Examples.soundfont)
      0 60 100 Examples.twoZones Examples.audioContext Examples.freshBuilder
      Examples.emptyCache
    = Some (vs, cache', st')
    ∧ Forall (justCreated 0 60 1) vs.
Proof.
  exact (built_voices_start_fresh
           (JSMath := Examples.math) (SoundFont := Examples.soundfont)
           0 60 Examples.audioContext Examples.twoZones 100 Examples.freshBuilder
           Examples.emptyCache ∅ eq_refl eq_refl).
Defined.

Lemma built_sample_follows_generators_witness :
  ∃ vs cache' st',
    getWorkletVoices (JSMath := Examples.math) (SoundFont := Examples.soundfont)
      0 60 100 Examples.twoZones Examples.audioContext Examples.freshBuilder
      Examples.emptyCache
    = Some (vs, cache', st')
    ∧ Forall (λ v, targetKey v = 60
                   ∧ (loopingMode (sample v) ≠ 0 →
                      (1 <= loopEnd (sample v) - loopStart (sample v))%Q)) vs.
Proof.
  destruct (built_sample_follows_generators
              (JSMath := Examples.math) (SoundFont := Examples.soundfont)
              0 60 Examples.audioContext Examples.twoZones 100 Examples.freshBuilder
              Examples.emptyCache ∅ eq_refl eq_refl)
    as (vs & cache' & st' & Hg & Hall).
  exists vs, cache', st'. split; [exact Hg|].
  assert (Hk : Forall (λ v, JS.get (generators v) generatorTypes.keyNum = -1) vs).
  { unfold getWorkletVoices in Hg. cbn [cacheRow] in Hg.
    vm_compute in Hg. injection Hg as <- _ _.
    repeat constructor. }
  rewrite Forall_forall in Hall, Hk. apply Forall_forall. intros v Hv.
  destruct (Hall v Hv) as (_ & Hloop & _ & Ht). split; [|exact Hloop].
  by rewrite Ht, (Hk v Hv).
Defined.

(** ** Voices that are too quiet to render *)

Section SilentVoice.
Context {JSMath : MathObject} {Utilities : WorkletUtilities}.
Variable scope : AudioWorkletGlobalScope.

(** X24.  A voice whose sample is there and whose modulated initial
    attenuation is above 2500 is not synthesised: the three outputs are
    returned as they came (also when one is missing), and the voice is
    marked finished exactly when it is in release or its release time has
    come; a voice that is not due for release is left untouched, however
    long it stays silent. *)
Theorem silent_voice_is_skipped (dumped : gmap nat (list Q))
    (channel : WorkletProcessorChannel) (voice : WorkletVoice) (sampleData : list Q)
    (output reverbOutput chorusOutput : option Plane) :
  dumped !! sampleID (sample voice) = Some sampleData →
  2500 < JS.get (modulatedGenerators voice) generatorTypes.initialAttenuation →
  ∃ voice',
    renderVoice scope dumped channel voice output reverbOutput chorusOutput
    = Some (voice', (output, reverbOutput, chorusOutput))
    ∧ isInRelease voice' = releaseDue scope voice
    ∧ finished voice' = releaseDue scope voice || finished voice
    ∧ releaseStartTime voice' = releaseStartTime voice
    ∧ (releaseDue scope voice = false → voice' = voice).
Proof.
  intros Hs Hatt. unfold renderVoice. rewrite Hs.
  assert (Hmg : modulatedGenerators (checkRelease scope voice) = modulatedGenerators voice).
  { unfold checkRelease. destruct (negb _); [|done].
    destruct (releaseStartTime voice); [|done]. by destruct (JS.geb _ _). }
  cbn zeta. rewrite Hmg.
  replace (_ >? 2500) with true by (symmetry; apply Z.gtb_lt; lia).
  eexists. split; [reflexivity|].
  unfold checkRelease, releaseDue.
  destruct (isInRelease voice) eqn:Hrel; cbn [negb orb].
  { rewrite Hrel. done. }
  destruct (releaseStartTime voice) as [t|] eqn:Ht.
  - destruct (JS.geb (currentTime scope) t) eqn:Hdue; cbn.
    + rewrite Ht. done.
    + rewrite Hrel, Ht. done.
  - rewrite Hrel, Ht. done.
Qed.

End SilentVoice.

(** The released voice of [Examples.fadedVoice] finishes; the same voice
    before its release is left alone. *)
Lemma silent_voice_is_skipped_witness :
  (∃ voice',
     renderVoice (JSMath := Examples.math) (Utilities := Examples.utilities)
       Examples.scope Examples.threeFrames (Examples.newChannel false [0%nat] [])
       Examples.fadedVoice None None None
     = Some (voice', (None, None, None))
     ∧ finished voice' = true)
  ∧ releaseDue Examples.scope Examples.fadedVoice = true.
Proof.
  split; [|by vm_compute].
  destruct (silent_voice_is_skipped (JSMath := Examples.math)
              (Utilities := Examples.utilities) Examples.scope Examples.threeFrames
              (Examples.newChannel false [0%nat] []) Examples.fadedVoice
              [0%Q; 0%Q; 0%Q] None None None eq_refl)
    as (voice' & Hr & _ & Hf & _).
  - by vm_compute.
  - exists voice'. split; [exact Hr|]. rewrite Hf. by vm_compute.
Defined.

(** ** Bookkeeping of the voice lists under messages *)

Section Bookkeeping.
Context {Utilities : WorkletUtilities}.
Variable scope : AudioWorkletGlobalScope.

Lemma sublist_concat (ls ls' : list (list ref)) :
  Forall2 sublist ls ls' → concat ls `sublist_of` concat ls'.
Proof. induction 1; [done|]. cbn [concat]. by apply sublist_app. Qed.

(** Lists that only shrink, and voices that keep their channel number,
    keep the voices in place. *)
Lemma in_place_sub (st st' : WorkletProcessor) :
  voicesInPlace st → allocated st →
  Forall2 (λ c' c, voices c' `sublist_of` voices c)
    (workletProcessorChannels st') (workletProcessorChannels st) →
  (∀ r, channelNumber (heap st' r) = channelNumber (heap st r)) →
  (nextRef st ≤ nextRef st')%nat →
  voicesInPlace st' ∧ allocated st' ∧ allVoices st' `sublist_of` allVoices st.
Proof.
  intros [Hnd Hnum] Hal Hchs Hh Hn.
  assert (Hsub : allVoices st' `sublist_of` allVoices st).
  { unfold allVoices. apply sublist_concat. by apply Forall2_fmap. }
  split; [split|split; [|done]].
  - by eapply sublist_NoDup.
  - intros ch c' r Hc' Hr.
    destruct (Forall2_lookup_l _ _ _ _ _ Hchs Hc') as (c & Hc & Hs).
    rewrite Hh. eapply Hnum; [exact Hc|]. by eapply elem_of_sublist.
  - unfold allocated in *. rewrite Forall_forall in Hal. apply Forall_forall.
    intros r Hr. specialize (Hal r (elem_of_sublist _ _ _ Hr Hsub)). lia.
Qed.

Lemma channels_put (chs : list WorkletProcessorChannel) (ch : nat)
    (c c' : WorkletProcessorChannel) :
  chs !! ch = Some c → voices c' `sublist_of` voices c →
  Forall2 (λ c' c, voices c' `sublist_of` voices c) (<[ch := c']> chs) chs.
Proof.
  intros Hc Hs. apply Forall2_same_length_lookup_2; [by rewrite length_insert|].
  intros i x y Hx Hy. destruct (decide (i = ch)) as [->|Hne].
  - rewrite list_lookup_insert_eq in Hx by (by eapply lookup_lt_Some).
    injection Hx as <-. rewrite Hc in Hy. by injection Hy as <-.
  - rewrite list_lookup_insert_ne in Hx by done. rewrite Hx in Hy. by injection Hy as <-.
Qed.

Lemma voices_put_same (chs : list WorkletProcessorChannel) (ch : nat)
    (c c' : WorkletProcessorChannel) :
  chs !! ch = Some c → voices c' = voices c →
  voices <$> <[ch := c']> chs = voices <$> chs.
Proof.
  intros Hc Hv. rewrite list_fmap_insert. apply list_insert_id.
  by rewrite list_lookup_fmap, Hc, Hv.
Qed.

(** Writing back a channel with the same voice list. *)
Lemma put_keeps (st : WorkletProcessor) (ch : nat) (c c' : WorkletProcessorChannel)
    (h' : Heap) :
  workletProcessorChannels st !! ch = Some c → voices c' = voices c →
  (∀ r, channelNumber (h' r) = channelNumber (heap st r)) →
  voicesInPlace st → allocated st →
  voicesInPlace (with_heap_channels st h' (<[ch := c']> (workletProcessorChannels st)))
  ∧ allocated (with_heap_channels st h' (<[ch := c']> (workletProcessorChannels st)))
  ∧ drift (with_heap_channels st h' (<[ch := c']> (workletProcessorChannels st)))
    = drift st.
Proof.
  intros Hc Hv Hh Hp Ha.
  destruct (in_place_sub st
              (with_heap_channels st h' (<[ch := c']> (workletProcessorChannels st)))
              Hp Ha) as (Hp' & Ha' & _).
  - apply (channels_put _ _ c); [done|]. by rewrite Hv.
  - exact Hh.
  - done.
  - split; [done|]. split; [done|]. unfold drift, allVoices.
    cbn [with_heap_channels workletProcessorChannels totalVoicesAmount].
    by rewrite (voices_put_same _ _ c).
Qed.

Lemma forEach_voice_channelNumber (f : WorkletVoice → WorkletVoice) (l : list ref)
    (h : Heap) (r : ref) :
  (∀ v, channelNumber (f v) = channelNumber v) →
  channelNumber (forEach_voice f l h r) = channelNumber (h r).
Proof.
  intros Hf.
  apply (forEach_voice_keeps (λ v, channelNumber v = channelNumber (h r))); [|done].
  intros v <-. apply Hf.
Qed.

Lemma channelNumber_releaseVoice (v : WorkletVoice) :
  channelNumber (releaseVoice scope v) = channelNumber v.
Proof. by rewrite releaseVoice_eq. Qed.

Lemma channelNumber_killNoteVoice (data : Z) (v : WorkletVoice) :
  channelNumber (killNoteVoice scope data v) = channelNumber v.
Proof. unfold killNoteVoice. destruct (negb _); [done|]. by rewrite releaseVoice_eq. Qed.

Lemma channelNumber_rehome (id : nat) (sampleData : list Q) (v : WorkletVoice) :
  channelNumber (rehome scope id sampleData v) = channelNumber v.
Proof. unfold rehome. repeat case_match; reflexivity. Qed.

Lemma channelNumber_stopAllVoice (v : WorkletVoice) :
  channelNumber (stopAllVoice scope v) = channelNumber v.
Proof. unfold stopAllVoice. destruct (isInRelease v); [done|]. by rewrite releaseVoice_eq. Qed.

Lemma channelNumber_exclusiveCutoff (controllers : list Z) (exclusive : Z)
    (v : WorkletVoice) :
  channelNumber (exclusiveCutoff scope controllers exclusive v) = channelNumber v.
Proof. unfold exclusiveCutoff. destruct (_ =? _); [|done]. by rewrite releaseVoice_eq. Qed.

Lemma noteOff_fold_channelNumber (data : Z) (hp : bool) (l : list ref) :
  ∀ acc r, channelNumber ((foldl (noteOffVoice scope data hp) acc l).1 r)
           = channelNumber (acc.1 r).
Proof.
  induction l as [|x l IH]; intros acc r; [done|]. cbn [foldl]. rewrite IH.
  unfold noteOffVoice. destruct (negb _ || _); [done|]. destruct hp; [done|].
  cbn [fst]. destruct (decide (x = r)) as [->|Hne].
  - rewrite fn_lookup_insert. apply channelNumber_releaseVoice.
  - by rewrite fn_lookup_insert_ne.
Qed.

Lemma handleCcChange_keeps (cc : nat) (value : Z) (c : WorkletProcessorChannel)
    (h : Heap) :
  voices (handleCcChange scope cc value c h).2 = voices c
  ∧ ∀ r, channelNumber ((handleCcChange scope cc value c h).1 r) = channelNumber (h r).
Proof.
  unfold handleCcChange.
  destruct (Nat.eqb _ _); [destruct (_ >=? _)|]; cbn [fst snd];
    (split; [done|]); intros r; rewrite forEach_voice_channelNumber by done; [done| |done].
  apply forEach_voice_channelNumber, channelNumber_releaseVoice.
Qed.

Lemma noteOn_fold_channelNumber (c : WorkletProcessorChannel) (data : list WorkletVoice) :
  ∀ acc r, channelNumber ((foldl (noteOnVoice scope c) acc data).1 r)
           = channelNumber (acc.1 r).
Proof.
  induction data as [|voice data IH]; intros acc r; [done|]. cbn [foldl]. rewrite IH.
  unfold noteOnVoice. cbn [fst]. destruct (negb _); [|done].
  apply forEach_voice_channelNumber. intros v. apply channelNumber_exclusiveCutoff.
Qed.

Lemma voices_push (chs : list WorkletProcessorChannel) (ch : nat)
    (c c1 : WorkletProcessorChannel) (extra : list ref) :
  chs !! ch = Some c → voices c1 = voices c ++ extra →
  concat (voices <$> <[ch := c1]> chs) ≡ₚ concat (voices <$> chs) ++ extra.
Proof.
  intros Hc Hv. rewrite <- (take_drop_middle chs ch c Hc) at 2.
  rewrite insert_take_drop by (by eapply lookup_lt_Some).
  rewrite !fmap_app, !fmap_cons, !concat_app. cbn [concat]. rewrite Hv, <- !app_assoc.
  f_equiv. f_equiv. apply Permutation_app_comm.
Qed.

Lemma killVoice_nextRef (st : WorkletProcessor) (voice : ref) (st' : WorkletProcessor) :
  killVoice st voice = Some st' → nextRef st' = nextRef st.
Proof.
  unfold killVoice. destruct (_ !! _); [|done]. simpl. by intros [= <-].
Qed.

Lemma voiceKilling_nextRef (st : WorkletProcessor) (amount : nat) (st' : WorkletProcessor) :
  voiceKilling st amount = Some st' → nextRef st' = nextRef st.
Proof.
  unfold voiceKilling.
  generalize (take (if (length (voicesOrderedByVelocity st) <? amount)%nat
                    then length (voicesOrderedByVelocity st) else amount)
                (voicesOrderedByVelocity st)).
  intros l.
  assert (Hl : ∀ acc st1, foldl (λ acc voice, st ← acc; killVoice st voice) acc l = Some st1 →
                 ∃ st0, acc = Some st0 ∧ nextRef st1 = nextRef st0).
  { induction l as [|x l IH]; intros acc st1 Hf; simpl in Hf.
    - by exists st1.
    - apply IH in Hf as (st0 & Hacc & Hh). destruct acc as [sta|]; [|done].
      simpl in Hacc. exists sta. split; [done|].
      rewrite Hh. by eapply killVoice_nextRef. }
  destruct (foldl _ _ l) as [st1|] eqn:Hf; [|done]. simpl. intros [= <-].
  apply Hl in Hf as (st0 & [= <-] & Hh). done.
Qed.

(** [voiceKilling] on voices that are in place. *)
Lemma voiceKilling_books (st : WorkletProcessor) (amount : nat) :
  voicesInPlace st → allocated st →
  ∃ st', voiceKilling st amount = Some st'
         ∧ heap st' = heap st
         ∧ voicesInPlace st' ∧ allocated st'
         ∧ drift st' = drift st
         ∧ length (allVoices st') = (length (allVoices st) - amount)%nat
         ∧ allVoices st' `sublist_of` allVoices st
         ∧ (∀ r r', r ∈ allVoices st → r ∉ allVoices st' → r' ∈ allVoices st' →
                    velocity (heap st r) ≤ velocity (heap st r')).
Proof.
  intros Hplace Hal.
  destruct (voiceKilling_in_place st Hplace amount) as (st' & Hk & Hh & Hc & Ht & _).
  set (killed := take amount (voicesOrderedByVelocity st)) in *.
  assert (Hperm : voicesOrderedByVelocity st ≡ₚ allVoices st)
    by apply sortByVelocity_perm.
  assert (Hsplit : killed ++ drop amount (voicesOrderedByVelocity st)
                   = voicesOrderedByVelocity st) by apply take_drop.
  assert (Hnd : NoDup (killed ++ drop amount (voicesOrderedByVelocity st))).
  { rewrite Hsplit, Hperm. apply Hplace. }
  assert (Hall : allVoices st' = without killed (allVoices st)).
  { unfold allVoices. rewrite Hc. apply allVoices_stolen. }
  assert (Hrest : without killed (allVoices st)
                  ≡ₚ drop amount (voicesOrderedByVelocity st)).
  { unfold without. rewrite <- Hperm. rewrite <- Hsplit at 1.
    fold (without killed (killed ++ drop amount (voicesOrderedByVelocity st))).
    by rewrite without_self_app. }
  destruct (in_place_sub st st' Hplace Hal) as (Hp' & Ha' & Hsub).
  { rewrite Hc. apply Forall2_fmap_l, Forall_Forall2_diag, Forall_forall.
    intros c _. cbn. unfold without. apply sublist_filter. }
  { intros r. by rewrite Hh. }
  { by rewrite (voiceKilling_nextRef _ _ _ Hk). }
  assert (Hlen : length (allVoices st') = (length (allVoices st) - amount)%nat).
  { by rewrite Hall, (Permutation_length Hrest), length_drop, (Permutation_length Hperm). }
  exists st'. split; [exact Hk|]. split; [exact Hh|]. split; [exact Hp'|].
  split; [exact Ha'|]. split.
  { unfold drift. rewrite Ht, Hlen. subst killed.
    rewrite length_take, (Permutation_length Hperm). lia. }
  split; [exact Hlen|]. split; [exact Hsub|].
  intros r r' Hr Hgone Hr'. rewrite Hall in Hgone, Hr'. rewrite Hrest in Hr'.
  assert (Hkilled : r ∈ killed).
  { destruct (decide (r ∈ killed)) as [Hin|Hout]; [done|].
    exfalso. apply Hgone. unfold without. by apply list_elem_of_filter. }
  apply (StronglySorted_app_1_elem_of (byVelocity (heap st)) killed
           (drop amount (voicesOrderedByVelocity st))); [|done..].
  rewrite Hsplit. apply sortByVelocity_sorted.
Qed.

(** The state of a [noteOn] after the push and the addition to the
    tracked total. *)
Lemma noteOn_push_books (st : WorkletProcessor) (ch : nat) (c : WorkletProcessorChannel)
    (data : list WorkletVoice) :
  voicesInPlace st → allocated st →
  workletProcessorChannels st !! ch = Some c →
  Forall (λ v, channelNumber v = ch) data →
  let pushed := handleNoteOnPush scope data c (nextRef st) (heap st) in
  let st1 :=
    with_totalVoicesAmount
      (with_nextRef
         (with_heap_channels st pushed.1 (<[ch := pushed.2]> (workletProcessorChannels st)))
         (nextRef st + length data)%nat)
      (totalVoicesAmount st + Z.of_nat (length data)) in
  voicesInPlace st1 ∧ allocated st1 ∧ drift st1 = drift st
  ∧ allVoices st1 ≡ₚ allVoices st ++ seq (nextRef st) (length data).
Proof.
  intros [Hnd Hnum] Hal Hc Hdata pushed st1.
  unfold allocated in Hal. rewrite Forall_forall in Hal.
  assert (Hfresh : ∀ r, r ∈ voices c → (r < nextRef st)%nat).
  { intros r Hr. apply Hal.
    apply (elem_of_concat_lookup _ ch (voices c)); [|done].
    by rewrite list_lookup_fmap, Hc. }
  destruct (handleNoteOnPush_spec scope (midiControllers c) c data (nextRef st) (heap st)
              eq_refl Hfresh) as (Hvs & Hnew & _ & _).
  fold pushed in Hvs, Hnew.
  assert (Hold : ∀ r, (r < nextRef st)%nat →
                      channelNumber (pushed.1 r) = channelNumber (heap st r)).
  { intros r Hr. subst pushed. unfold handleNoteOnPush. cbn [fst].
    rewrite pushVoices_below by done.
    apply (noteOn_fold_channelNumber c data (heap st, [])). }
  assert (Hperm : allVoices st1 ≡ₚ allVoices st ++ seq (nextRef st) (length data)).
  { unfold allVoices. subst st1.
    cbn [workletProcessorChannels with_totalVoicesAmount with_nextRef with_heap_channels].
    by apply (voices_push _ _ c). }
  assert (Hdisj : ∀ r, r ∈ allVoices st → r ∉ seq (nextRef st) (length data)).
  { intros r Hr Hs. apply Hal in Hr. apply elem_of_seq in Hs. lia. }
  split; [split|split; [|split; [|exact Hperm]]].
  - rewrite Hperm. apply NoDup_app. split; [done|]. split; [done|]. apply NoDup_seq.
  - intros k ck r Hk Hr. subst st1.
    cbn [workletProcessorChannels heap with_totalVoicesAmount with_nextRef
         with_heap_channels] in *.
    destruct (decide (k = ch)) as [->|Hne].
    + rewrite list_lookup_insert_eq in Hk by (by eapply lookup_lt_Some).
      injection Hk as <-. cbn [voices set_voices] in Hr.
      apply elem_of_app in Hr as [Hr|Hr].
      * rewrite Hold by (by apply Hfresh). by eapply Hnum.
      * apply elem_of_seq in Hr.
        destruct (lookup_lt_is_Some_2 data (r - nextRef st)) as [v Hv]; [lia|].
        replace r with (nextRef st + (r - nextRef st))%nat by lia.
        rewrite (Hnew _ _ Hv). cbn.
        rewrite Forall_forall in Hdata. apply Hdata. by eapply list_elem_of_lookup_2.
    + rewrite list_lookup_insert_ne in Hk by done.
      rewrite Hold; [by eapply Hnum|]. apply Hal.
      apply (elem_of_concat_lookup _ k (voices ck)); [|done].
      by rewrite list_lookup_fmap, Hk.
  - unfold allocated. apply Forall_forall. intros r Hr. rewrite Hperm in Hr.
    subst st1. cbn [nextRef with_totalVoicesAmount with_nextRef with_heap_channels].
    apply elem_of_app in Hr as [Hr|Hr]; [apply Hal in Hr; lia|].
    apply elem_of_seq in Hr. lia.
  - unfold drift. rewrite (Permutation_length Hperm), length_app, length_seq.
    subst st1. cbn [totalVoicesAmount with_totalVoicesAmount]. lia.
Qed.

(** A [noteOn] on voices that are in place. *)
Lemma noteOn_books (st : WorkletProcessor) (ch : nat) (c : WorkletProcessorChannel)
    (data : list WorkletVoice) :
  voicesInPlace st → allocated st →
  workletProcessorChannels st !! ch = Some c →
  Forall (λ v, channelNumber v = ch) data →
  ∃ st',
    handleMessage scope st {| messageChannel := ch; messageType := noteOn data |}
    = Some st'
    ∧ voicesInPlace st' ∧ allocated st' ∧ drift st' = drift st
    ∧ Z.of_nat (length (allVoices st'))
      = Z.max 0 (Z.min (Z.of_nat (length (allVoices st)) + Z.of_nat (length data))
                       (VOICE_CAP - drift st))
    ∧ (∀ r, r ∈ allVoices st' →
            r ∈ allVoices st ∨ r ∈ seq (nextRef st) (length data))
    ∧ (∀ r r', r ∈ allVoices st ∨ r ∈ seq (nextRef st) (length data) →
               r ∉ allVoices st' → r' ∈ allVoices st' →
               velocity (heap st' r) ≤ velocity (heap st' r')).
Proof.
  intros Hp Ha Hc Hdata.
  destruct (noteOn_push_books st ch c data Hp Ha Hc Hdata) as (Hp1 & Ha1 & Hd1 & Hperm).
  unfold handleMessage. cbn [messageChannel messageType]. rewrite Hc.
  cbn [mbind option_bind fst snd].
  set (st1 := with_totalVoicesAmount _ _) in *.
  assert (Hlen1 : length (allVoices st1)
                  = (length (allVoices st) + length data)%nat).
  { by rewrite (Permutation_length Hperm), length_app, length_seq. }
  assert (Htot1 : totalVoicesAmount st1
                  = drift st + Z.of_nat (length (allVoices st) + length data)).
  { unfold drift in Hd1. rewrite Hlen1 in Hd1. unfold drift. lia. }
  destruct (totalVoicesAmount st1 >? VOICE_CAP) eqn:Hcap.
  - apply Z.gtb_lt in Hcap.
    destruct (voiceKilling_books st1 (Z.to_nat (totalVoicesAmount st1 - VOICE_CAP))
                Hp1 Ha1)
      as (st' & Hk & Hh & Hp' & Ha' & Hd' & Hlen' & Hsub & Hvel).
    exists st'. split; [exact Hk|]. split; [exact Hp'|]. split; [exact Ha'|].
    split; [by rewrite Hd'|]. split; [rewrite Hlen', Hlen1; lia|]. split.
    + intros r Hr. apply elem_of_app. rewrite <- Hperm. by eapply elem_of_sublist.
    + intros r r' Hr Hgone Hr'. rewrite Hh. apply Hvel; [|done..].
      rewrite Hperm. by apply elem_of_app.
  - assert (Hle : totalVoicesAmount st1 ≤ VOICE_CAP).
    { destruct (Z.gtb_spec (totalVoicesAmount st1) VOICE_CAP); [done|lia]. }
    exists (updateVoicesAmount st1). split; [reflexivity|]. split; [exact Hp1|].
    split; [exact Ha1|]. split; [exact Hd1|].
    change (allVoices (updateVoicesAmount st1)) with (allVoices st1).
    split; [rewrite Hlen1; lia|]. split.
    + intros r Hr. apply elem_of_app. by rewrite <- Hperm.
    + intros r r' Hr Hgone _. exfalso. apply Hgone. rewrite Hperm.
      by apply elem_of_app.
Qed.

Lemma addNewChannel_books (st : WorkletProcessor) :
  voicesInPlace st → allocated st →
  voicesInPlace (createWorkletChannel st) ∧ allocated (createWorkletChannel st)
  ∧ drift (createWorkletChannel st) = drift st.
Proof.
  intros [Hnd Hnum] Ha.
  assert (Hall : allVoices (createWorkletChannel st) = allVoices st).
  { unfold allVoices, createWorkletChannel. cbn [workletProcessorChannels with_heap_channels].
    rewrite fmap_app, concat_app. cbn. by rewrite app_nil_r. }
  split; [split|split].
  - by rewrite Hall.
  - intros k ck r Hk Hr. unfold createWorkletChannel in Hk.
    cbn [workletProcessorChannels with_heap_channels heap] in *.
    apply lookup_app_Some in Hk as [Hk|[_ Hk]]; [by eapply Hnum|].
    apply list_lookup_singleton_Some in Hk as [_ <-]. by apply elem_of_nil in Hr.
  - unfold allocated. by rewrite Hall.
  - unfold drift. by rewrite Hall.
Qed.

Lemma stopAll_books (st : WorkletProcessor) (ch : nat) (c : WorkletProcessorChannel) :
  voicesInPlace st → allocated st →
  workletProcessorChannels st !! ch = Some c →
  let st' := updateVoicesAmount
               (with_heap_channels st (heap st)
                  (<[ch := set_voices c []]> (workletProcessorChannels st))) in
  voicesInPlace st' ∧ allocated st'
  ∧ drift st' = drift st + Z.of_nat (length (voices c)).
Proof.
  intros Hp Ha Hc st'.
  destruct (in_place_sub st st' Hp Ha) as (Hp' & Ha' & _).
  - apply (channels_put _ _ c); [done|]. apply sublist_nil_l.
  - done.
  - done.
  - split; [done|]. split; [done|].
    assert (Hperm : allVoices st ≡ₚ allVoices st' ++ voices c).
    { unfold allVoices. subst st'.
      cbn [workletProcessorChannels updateVoicesAmount with_heap_channels].
      rewrite <- (voices_push _ ch (set_voices c []) c (voices c)).
      - by rewrite list_insert_insert_eq, list_insert_id.
      - apply list_lookup_insert_eq. by eapply lookup_lt_Some.
      - done. }
    unfold drift. rewrite (Permutation_length Hperm), length_app.
    subst st'. cbn [totalVoicesAmount updateVoicesAmount with_heap_channels]. lia.
Qed.

(** X25.  Messages keep the voice lists in order.  When every voice
    object is held once, by the channel its [channelNumber] names, and the
    voices a [noteOn] brings name the channel of the message, a message to
    an existing channel is handled without an error and leaves the voices
    so held.  The tracked total stays as far from the number of voices
    held as it was, for every message but [stopAll(1)], which drops the
    voices of its channel without taking them off the total. *)
Theorem handleMessage_keeps_the_books (st : WorkletProcessor) (message : WorkletMessage) :
  voicesInPlace st → allocated st → incomingInPlace message →
  is_Some (workletProcessorChannels st !! messageChannel message) →
  ∃ st', handleMessage scope st message = Some st'
         ∧ voicesInPlace st' ∧ allocated st'
         ∧ drift st' = drift st + forceStopped st message.
Proof.
  intros Hp Ha Hin [c Hc]. destruct message as [ch ty].
  unfold forceStopped, incomingInPlace in *. cbn [messageChannel messageType] in *.
  destruct ty as [data|data|data|id sampleData|excluded|cc value|data| |data|data|data| | ].
  3: { destruct (noteOn_books st ch c data Hp Ha Hc Hin)
         as (st' & Hm & Hp' & Ha' & Hd' & _).
       exists st'. rewrite Z.add_0_r. done. }
  all: unfold handleMessage; cbn [messageChannel messageType]; rewrite Hc;
       cbn [mbind option_bind fst snd].
  - eexists. split; [reflexivity|]. rewrite Z.add_0_r.
    apply (put_keeps st ch c); [done|reflexivity| |done|done].
    intros r. apply (noteOff_fold_channelNumber data (holdPedal c) (voices c)
                       (heap st, sustainedVoices c)).
  - eexists. split; [reflexivity|]. rewrite Z.add_0_r.
    apply (put_keeps st ch c); [done|reflexivity| |done|done].
    intros r. apply forEach_voice_channelNumber, channelNumber_killNoteVoice.
  - eexists. split; [reflexivity|]. rewrite Z.add_0_r.
    match goal with |- voicesInPlace ?s ∧ _ => set (st' := s) end.
    destruct (in_place_sub st st' Hp Ha) as (Hp' & Ha' & _).
    + apply Forall_Forall2_diag, Forall_forall. done.
    + intros r. apply forEach_voice_channelNumber, channelNumber_rehome.
    + done.
    + done.
  - eexists. split; [reflexivity|]. rewrite Z.add_0_r.
    by apply (put_keeps st ch c).
  - eexists. split; [reflexivity|]. rewrite Z.add_0_r.
    destruct (handleCcChange_keeps cc value c (heap st)) as [Hv Hh].
    by apply (put_keeps st ch c).
  - eexists. split; [reflexivity|]. rewrite Z.add_0_r.
    by apply (put_keeps st ch c).
  - eexists. split; [reflexivity|]. rewrite Z.add_0_r.
    by destruct (decide _).
  - cbn [fmap option_fmap option_map default].
    destruct (data =? 1).
    + eexists. split; [reflexivity|]. by apply stopAll_books.
    + eexists. split; [reflexivity|]. rewrite Z.add_0_r.
      apply (put_keeps st ch c); [done|reflexivity| |done|done].
      intros r. apply forEach_voice_channelNumber, channelNumber_stopAllVoice.
  - destruct (voiceKilling_books st data Hp Ha) as (st' & Hk & _ & Hp' & Ha' & Hd' & _).
    exists st'. rewrite Z.add_0_r. done.
  - eexists. split; [reflexivity|]. rewrite Z.add_0_r.
    by apply (put_keeps st ch c).
  - eexists. split; [reflexivity|]. rewrite Z.add_0_r.
    by apply addNewChannel_books.
  - eexists. split; [reflexivity|]. rewrite Z.add_0_r. done.
Qed.

(** X26.  The voice cap of [noteOn] counts from the tracked total.  With
    the voices in place, a [noteOn] leaves min(held + incoming,
    VOICE_CAP - drift) voices (none when that is negative), where the
    drift is what the tracked total is above the number of voices held:
    the cap is VOICE_CAP itself only when the total is exact.  The voices
    that go are taken from the old and the incoming voices alike, and each
    has a velocity no greater than that of any voice that stays. *)
Theorem noteOn_caps_by_the_tracked_total (st : WorkletProcessor) (ch : nat)
    (c : WorkletProcessorChannel) (data : list WorkletVoice) :
  voicesInPlace st → allocated st →
  workletProcessorChannels st !! ch = Some c →
  Forall (λ v, channelNumber v = ch) data →
  ∃ st',
    handleMessage scope st {| messageChannel := ch; messageType := noteOn data |}
    = Some st'
    ∧ Z.of_nat (length (allVoices st'))
      = Z.max 0 (Z.min (Z.of_nat (length (allVoices st)) + Z.of_nat (length data))
                       (VOICE_CAP - drift st))
    ∧ totalVoicesAmount st' = Z.of_nat (length (allVoices st')) + drift st
    ∧ (∀ r, r ∈ allVoices st' →
            r ∈ allVoices st ∨ r ∈ seq (nextRef st) (length data))
    ∧ (∀ r r', r ∈ allVoices st ∨ r ∈ seq (nextRef st) (length data) →
               r ∉ allVoices st' → r' ∈ allVoices st' →
               velocity (heap st' r) ≤ velocity (heap st' r')).
Proof.
  intros Hp Ha Hc Hdata.
  destruct (noteOn_books st ch c data Hp Ha Hc Hdata)
    as (st' & Hm & _ & _ & Hd & Hlen & Hin & Hvel).
  exists st'. split; [exact Hm|]. split; [exact Hlen|]. split; [|done].
  unfold drift in Hd. unfold drift. lia.
Qed.

End Bookkeeping.

(** A [stopAll(1)] on channel 0 of [Examples.trio] drops two voices and
    leaves the total two too high. *)
Lemma handleMessage_keeps_the_books_witness :
  voicesInPlace Examples.trio ∧ allocated Examples.trio
  ∧ ∃ st',
      handleMessage (Utilities := Examples.utilities) Examples.scope Examples.trio
        {| messageChannel := 0; messageType := stopAll 1 |} = Some st'
      ∧ voicesInPlace st' ∧ allocated st' ∧ drift st' = 2.
Proof.
  assert (Hp : voicesInPlace Examples.trio).
  { split.
    - apply (bool_decide_unpack _). by vm_compute.
    - intros ch c r Hc Hr.
      destruct ch as [|[|ch]]; [| |done]; injection Hc as <-;
        repeat (apply elem_of_cons in Hr as [->|Hr]; [reflexivity|]);
        by apply elem_of_nil in Hr. }
  assert (Ha : allocated Examples.trio).
  { apply (bool_decide_unpack _). by vm_compute. }
  split; [exact Hp|]. split; [exact Ha|].
  destruct (handleMessage_keeps_the_books (Utilities := Examples.utilities)
              Examples.scope Examples.trio
              {| messageChannel := 0; messageType := stopAll 1 |} Hp Ha I)
    as (st' & Hm & Hp' & Ha' & Hd); [by eexists|].
  exists st'. split; [exact Hm|]. split; [exact Hp'|]. split; [exact Ha'|].
  rewrite Hd. by vm_compute.
Defined.

(** With room for three voices, a fourth voice struck softly on
    [Examples.trio] is itself the one that goes. *)
Lemma noteOn_caps_by_the_tracked_total_witness :
  ∃ st',
    handleMessage (Utilities := Examples.smallCap) Examples.scope Examples.trio
      {| messageChannel := 0; messageType := noteOn [Examples.plainVoice 0 65 10] |}
    = Some st'
    ∧ length (allVoices st') = 3%nat
    ∧ totalVoicesAmount st' = 3.
Proof.
  assert (Hp : voicesInPlace Examples.trio).
  { split.
    - apply (bool_decide_unpack _). by vm_compute.
    - intros ch c r Hc Hr.
      destruct ch as [|[|ch]]; [| |done]; injection Hc as <-;
        repeat (apply elem_of_cons in Hr as [->|Hr]; [reflexivity|]);
        by apply elem_of_nil in Hr. }
  assert (Ha : allocated Examples.trio).
  { apply (bool_decide_unpack _). by vm_compute. }
  destruct (noteOn_caps_by_the_tracked_total (Utilities := Examples.smallCap)
              Examples.scope Examples.trio 0 _ [Examples.plainVoice 0 65 10]
              Hp Ha eq_refl)
    as (st' & Hm & Hlen & Htot & _).
  - by apply Forall_singleton.
  - assert (Hthree : length (allVoices st') = 3%nat).
    { apply Nat2Z.inj. rewrite Hlen. by vm_compute. }
    exists st'. split; [exact Hm|]. split; [exact Hthree|].
    rewrite Htot, Hthree. by vm_compute.
Defined.

(** ** The event handler *)

Section ObjectProperties.
Context {A : Type}.
Implicit Types (o : JSObject.t A) (k : string) (v : A).

Lemma property_None o k : property o k = None ↔ k ∉ o.*1.
Proof.
  induction o as [|[k' v'] o IH]; cbn.
  - split; [intros _ H; by apply elem_of_nil in H|done].
  - destruct (decide (k' = k)) as [->|Hne].
    + split; [done|]. intros H. exfalso. apply H. left.
    + rewrite IH. rewrite not_elem_of_cons. naive_solver.
Qed.

Lemma keys_replace o k v : (JSObject.replace o k v).*1 = o.*1.
Proof.
  induction o as [|[k' v'] o IH]; [done|]. cbn.
  destruct (decide (k' = k)) as [->|Hne]; cbn; [done|]. by rewrite IH.
Qed.

Lemma property_replace o k v k' :
  k ∈ o.*1 →
  property (JSObject.replace o k v) k' = if decide (k = k') then Some v else property o k'.
Proof.
  induction o as [|[k0 v0] o IH]; cbn; intros Hin; [by apply elem_of_nil in Hin|].
  destruct (decide (k0 = k)) as [->|Hne]; cbn.
  - by destruct (decide (k = k')).
  - apply elem_of_cons in Hin as [->|Hin]; [done|].
    destruct (decide (k0 = k')) as [->|Hne'].
    + by rewrite decide_False by done.
    + by apply IH.
Qed.

Lemma property_insertIndex o n k v k' :
  k ∉ o.*1 →
  property (JSObject.insertIndex o n k v) k'
  = if decide (k = k') then Some v else property o k'.
Proof.
  induction o as [|[k0 v0] o IH]; cbn; intros Hout; [done|].
  apply not_elem_of_cons in Hout as [Hne Hout].
  assert (Hfront : property ((k, v) :: (k0, v0) :: o) k'
                   = if decide (k = k') then Some v
                     else if decide (k0 = k') then Some v0 else property o k')
    by reflexivity.
  destruct (JSObject.arrayIndex k0) as [n'|]; [|exact Hfront].
  destruct (n <? n')%N; [exact Hfront|]. cbn.
  destruct (decide (k0 = k')) as [->|Hne'].
  - by rewrite decide_False by done.
  - by apply IH.
Qed.

Lemma property_snoc o k v k' :
  k ∉ o.*1 →
  property (o ++ [(k, v)]) k' = if decide (k = k') then Some v else property o k'.
Proof.
  induction o as [|[k0 v0] o IH]; cbn; intros Hout; [done|].
  apply not_elem_of_cons in Hout as [Hne Hout].
  destruct (decide (k0 = k')) as [->|Hne'].
  - by rewrite decide_False by done.
  - by apply IH.
Qed.

Lemma keys_insertIndex o n k v : (JSObject.insertIndex o n k v).*1 ≡ₚ k :: o.*1.
Proof.
  induction o as [|[k0 v0] o IH]; cbn; [done|].
  destruct (JSObject.arrayIndex k0) as [n'|]; [|done].
  destruct (n <? n')%N; [done|]. cbn. rewrite IH. apply Permutation_swap.
Qed.

#[local] Instance keyOrder_trans : Transitive keyOrder.
Proof.
  intros x y z. unfold keyOrder.
  destruct (JSObject.arrayIndex x), (JSObject.arrayIndex y), (JSObject.arrayIndex z);
    try done. lia.
Qed.

Lemma sorted_insertIndex o n k v :
  JSObject.arrayIndex k = Some n →
  StronglySorted keyOrder o.*1 →
  StronglySorted keyOrder (JSObject.insertIndex o n k v).*1.
Proof.
  intros Hk. induction o as [|[k0 v0] o IH]; cbn; intros Hs.
  { apply StronglySorted_cons. split; [done|constructor]. }
  apply StronglySorted_cons in Hs as [Hall Hs].
  assert (Hfront : keyOrder k k0 →
                   StronglySorted keyOrder (k :: k0 :: o.*1)).
  { intros Hkk. apply StronglySorted_cons. split.
    - constructor; [done|]. eapply Forall_impl; [exact Hall|].
      intros y Hy. by etrans.
    - by apply StronglySorted_cons. }
  destruct (JSObject.arrayIndex k0) as [n'|] eqn:Hk0.
  - destruct (N.ltb_spec n n') as [Hlt|Hge].
    + apply Hfront. unfold keyOrder. rewrite Hk, Hk0. lia.
    + cbn. apply StronglySorted_cons. split; [|by apply IH].
      rewrite keys_insertIndex. constructor; [|done].
      unfold keyOrder. rewrite Hk, Hk0. done.
  - apply Hfront. unfold keyOrder. by rewrite Hk, Hk0.
Qed.

Lemma wellFormed_set o k v : wellFormed o → wellFormed (JSObject.set o k v).
Proof.
  intros [Hnd Hs]. unfold JSObject.set, wellFormed.
  destruct (bool_decide_reflect (k ∈ o.*1)) as [Hin|Hout].
  - by rewrite keys_replace.
  - destruct (JSObject.arrayIndex k) as [n|] eqn:Hk.
    + split; [|by apply sorted_insertIndex].
      rewrite keys_insertIndex. by constructor.
    + rewrite fmap_app. cbn. split.
      * apply NoDup_app. split; [done|]. split; [|apply NoDup_singleton].
        intros x Hx ->%list_elem_of_singleton. done.
      * apply StronglySorted_app. split; [|split; [done|]].
        -- intros x1 x2 _ ->%list_elem_of_singleton. unfold keyOrder. rewrite Hk.
           by destruct (JSObject.arrayIndex x1).
        -- apply StronglySorted_cons. split; [done|constructor].
Qed.

Lemma property_set o k v k' :
  property (JSObject.set o k v) k' = if decide (k = k') then Some v else property o k'.
Proof.
  unfold JSObject.set. destruct (bool_decide_reflect (k ∈ o.*1)) as [Hin|Hout].
  - by apply property_replace.
  - destruct (JSObject.arrayIndex k); [by apply property_insertIndex|].
    by apply property_snoc.
Qed.

Lemma keys_set o k v :
  (JSObject.set o k v).*1
  ≡ₚ if bool_decide (k ∈ o.*1) then o.*1 else k :: o.*1.
Proof.
  unfold JSObject.set. destruct (bool_decide (k ∈ o.*1)); [by rewrite keys_replace|].
  destruct (JSObject.arrayIndex k); [apply keys_insertIndex|].
  rewrite fmap_app. cbn. by rewrite Permutation_app_comm.
Qed.

Lemma keys_delete o k : (JSObject.delete o k).*1 = base.filter (λ x, x ≠ k) o.*1.
Proof.
  unfold JSObject.delete. induction o as [|[k0 v0] o IH]; [done|].
  change (((k0, v0) :: o).*1) with (k0 :: o.*1).
  destruct (decide (k0 = k)) as [->|Hne].
  - rewrite (filter_cons_False _ (k, v0)) by (intros H; by apply H).
    rewrite (filter_cons_False _ k) by (intros H; by apply H). exact IH.
  - rewrite (filter_cons_True _ (k0, v0)) by done.
    rewrite (filter_cons_True _ k0) by done. rewrite fmap_cons. f_equal. exact IH.
Qed.

Lemma property_delete o k k' :
  property (JSObject.delete o k) k' = if decide (k = k') then None else property o k'.
Proof.
  unfold JSObject.delete. induction o as [|[k0 v0] o IH].
  { cbn. by destruct (decide (k = k')). }
  destruct (decide (k0 = k)) as [->|Hne].
  - rewrite (filter_cons_False _ (k, v0)) by (intros H; by apply H).
    etrans; [apply IH|]. cbn [property]. destruct (decide (k = k')); done.
  - rewrite (filter_cons_True _ (k0, v0)) by done. cbn [property].
    destruct (decide (k0 = k')) as [->|Hne']; [|exact IH].
    by rewrite decide_False by done.
Qed.

Lemma delete_absent o k : k ∉ o.*1 → JSObject.delete o k = o.
Proof.
  unfold JSObject.delete. induction o as [|[k0 v0] o IH]; [done|].
  change (((k0, v0) :: o).*1) with (k0 :: o.*1). intros [Hne Hout]%not_elem_of_cons.
  rewrite (filter_cons_True _ (k0, v0)) by (intros ?; by apply Hne).
  f_equal. by apply IH.
Qed.

Lemma delete_insertIndex o n k v :
  k ∉ o.*1 → JSObject.delete (JSObject.insertIndex o n k v) k = o.
Proof.
  unfold JSObject.delete. induction o as [|[k0 v0] o IH]; intros Hout.
  { cbn [JSObject.insertIndex].
    by rewrite (filter_cons_False _ (k, v)) by (intros H; by apply H). }
  pose proof Hout as Hout'. change (((k0, v0) :: o).*1) with (k0 :: o.*1) in Hout'.
  apply not_elem_of_cons in Hout' as [Hne Hout'].
  assert (Hfront : base.filter (λ p : string * A, p.1 ≠ k) ((k, v) :: (k0, v0) :: o)
                   = (k0, v0) :: o).
  { rewrite (filter_cons_False _ (k, v)) by (intros H; by apply H).
    by apply (delete_absent ((k0, v0) :: o) k). }
  cbn [JSObject.insertIndex].
  destruct (JSObject.arrayIndex k0) as [n'|]; [|exact Hfront].
  destruct (n <? n')%N; [exact Hfront|].
  rewrite (filter_cons_True _ (k0, v0)) by (intros ?; by apply Hne).
  f_equal. by apply IH.
Qed.

Lemma delete_snoc o k v : k ∉ o.*1 → JSObject.delete (o ++ [(k, v)]) k = o.
Proof.
  unfold JSObject.delete. induction o as [|[k0 v0] o IH]; intros Hout.
  { cbn [app]. by rewrite (filter_cons_False _ (k, v)) by (intros H; by apply H). }
  change (((k0, v0) :: o).*1) with (k0 :: o.*1) in Hout.
  apply not_elem_of_cons in Hout as [Hne Hout].
  change (((k0, v0) :: o) ++ [(k, v)]) with ((k0, v0) :: (o ++ [(k, v)])).
  rewrite (filter_cons_True _ (k0, v0)) by (intros ?; by apply Hne).
  f_equal. by apply IH.
Qed.

Lemma delete_set o k v : k ∉ o.*1 → JSObject.delete (JSObject.set o k v) k = o.
Proof.
  intros Hout. unfold JSObject.set. rewrite bool_decide_eq_false_2 by done.
  destruct (JSObject.arrayIndex k); [by apply delete_insertIndex|].
  by apply delete_snoc.
Qed.

Lemma wellFormed_delete o k : wellFormed o → wellFormed (JSObject.delete o k).
Proof.
  intros [Hnd Hs]. unfold wellFormed. rewrite keys_delete. split.
  - by apply NoDup_filter.
  - clear Hnd. induction Hs as [|x l Hs IH Hall]; [constructor|].
    destruct (decide (x = k)) as [->|Hne].
    + by rewrite filter_cons_False by (intros H; by apply H).
    + rewrite filter_cons_True by done. apply StronglySorted_cons. split; [|done].
      rewrite Forall_forall in Hall. apply Forall_forall.
      intros y [_ Hy]%list_elem_of_filter. by apply Hall.
Qed.

Lemma insertIndex_front o n k v :
  Forall (λ x, JSObject.arrayIndex x = None) o.*1 →
  JSObject.insertIndex o n k v = (k, v) :: o.
Proof.
  destruct o as [|[k0 v0] o]; [done|]. cbn. intros [Hk0 _]%Forall_cons.
  by rewrite Hk0.
Qed.

End ObjectProperties.
